(** * ShellPer: capture queues and analysis pipeline coordinator

    A shallow embedding of the Electron main-process code
    ([ScreenshotHelper.ts], [ProcessingHelper.ts], [main.ts]) and of the
    renderer's solution parser ([_pages/Solutions.tsx]), together with the
    properties of the capture queue, the image preprocessor, the response
    interpreters and the two pipelines.

    Conventions.
    - A JavaScript string is a [string]: a sequence of 8-bit code units
      (the Latin-1 range of UTF-16).
    - [null] and [undefined] are [None]; a thrown exception is the left
      injection of a sum, carrying the [message] of the [Error] object.
    - The file system is an explicit value threaded through the code. *)

From Stdlib Require Import ZArith Lia Ascii String List Bool.
From stdpp Require Import base option list gmap strings.

Open Scope string_scope.
Open Scope list_scope.

(** ** Exceptions *)

(** An [Error] object: its [message] and, for an axios error that carries
    a response, [error.response.data.error]. *)
Record Error := mkError {
  message : string;
  response_data_error : option string
}.

Definition Throws (A : Type) : Type := Error + A.

Definition ok {A} (a : A) : Throws A := inr a.
Definition throw {A} (msg : string) : Throws A := inl (mkError msg None).

(** ** The file system ([fs] of Node.js)

    Files map a path to their content; [denied] lists the paths on which a
    mutating call fails with EACCES although the file may exist. *)

Module Fs.

Record t := mk {
  files  : gmap string string;
  denied : gset string
}.

Definition existsSync (fs : t) (p : string) : bool :=
  bool_decide (is_Some (files fs !! p)).

Definition statSync_size (fs : t) (p : string) : Throws nat :=
  match files fs !! p with
  | Some c => ok (String.length c)
  | None => throw "ENOENT: no such file or directory, stat"
  end.

Definition readFileSync (fs : t) (p : string) : Throws string :=
  match files fs !! p with
  | Some c => ok c
  | None => throw "ENOENT: no such file or directory, open"
  end.

Definition unlink (fs : t) (p : string) : Throws t :=
  if bool_decide (p ∈ denied fs) then throw "EACCES: permission denied, unlink"
  else match files fs !! p with
       | Some _ => ok (mk (delete p (files fs)) (denied fs))
       | None => throw "ENOENT: no such file or directory, unlink"
       end.

Definition copyFileSync (fs : t) (src dst : string) : Throws t :=
  match files fs !! src with
  | None => throw "ENOENT: no such file or directory, copyfile"
  | Some c =>
      if bool_decide (dst ∈ denied fs) then throw "EACCES: permission denied, copyfile"
      else ok (mk (<[dst := c]> (files fs)) (denied fs))
  end.

(** A usable file: it exists and is not empty. *)
Definition usable (fs : t) (p : string) : Prop :=
  exists c, files fs !! p = Some c /\ 0 < String.length c.

End Fs.

(** ** JavaScript strings *)

Module Js.

Definition chars (s : string) : list ascii := list_ascii_of_string s.
Definition str (l : list ascii) : string := string_of_list_ascii l.

Definition code (c : ascii) : nat := nat_of_ascii c.

(** White space and line terminators, as [\s] and [trim] see them. *)
Definition isSpace (c : ascii) : bool :=
  let n := code c in
  ((9 <=? n) && (n <=? 13) || (n =? 32) || (n =? 160))%nat.

Definition isDigit (c : ascii) : bool :=
  let n := code c in ((48 <=? n) && (n <=? 57))%nat.

Definition isUpper (c : ascii) : bool :=
  let n := code c in ((65 <=? n) && (n <=? 90))%nat.

Definition isLower (c : ascii) : bool :=
  let n := code c in ((97 <=? n) && (n <=? 122))%nat.

(** [\w] *)
Definition isWord (c : ascii) : bool :=
  isUpper c || isLower c || isDigit c || (code c =? 95)%nat.

Definition toUpper (c : ascii) : ascii :=
  if isLower c then ascii_of_nat (code c - 32) else c.

Definition toLower (c : ascii) : ascii :=
  if isUpper c then ascii_of_nat (code c + 32) else c.

Fixpoint trimStartL (l : list ascii) : list ascii :=
  match l with
  | c :: r => if isSpace c then trimStartL r else l
  | [] => []
  end.

Definition trimEndL (l : list ascii) : list ascii := rev (trimStartL (rev l)).

(** [String.prototype.trim] *)
Definition trim (s : string) : string := str (trimEndL (trimStartL (chars s))).

Fixpoint startsWithL (p l : list ascii) : bool :=
  match p, l with
  | [], _ => true
  | a :: p', b :: l' => Ascii.eqb a b && startsWithL p' l'
  | _ :: _, [] => false
  end.

(** [String.prototype.startsWith] *)
Definition startsWith (s p : string) : bool := startsWithL (chars p) (chars s).

Fixpoint indexOfL (p l : list ascii) (i : nat) : option nat :=
  if startsWithL p l then Some i
  else match l with
       | [] => None
       | _ :: r => indexOfL p r (S i)
       end.

(** [String.prototype.indexOf]; [None] stands for -1. *)
Definition indexOf (s p : string) : option nat := indexOfL (chars p) (chars s) 0.

(** [String.prototype.substring(a, b)] for [a <= b]. *)
Definition substring (s : string) (a b : nat) : string :=
  str (firstn (b - a) (skipn a (chars s))).

Fixpoint splitL (sep : list ascii) (cur : list ascii) (l : list ascii) (fuel : nat)
  : list (list ascii) :=
  match fuel with
  | 0 => [rev cur ++ l]
  | S fuel' =>
      match l with
      | [] => [rev cur]
      | c :: r =>
          if startsWithL sep l then rev cur :: splitL sep [] (skipn (length sep) l) fuel'
          else splitL sep (c :: cur) r fuel'
      end
  end.

(** [String.prototype.split] with a non-empty string separator. *)
Definition split (s sep : string) : list string :=
  map str (splitL (chars sep) [] (chars s) (S (String.length s))).

(** [Array.prototype.join] *)
Fixpoint join (sep : string) (l : list string) : string :=
  match l with
  | [] => ""
  | [x] => x
  | x :: r => x +:+ sep +:+ join sep r
  end.

(** [String.prototype.replace] with a string pattern: the first occurrence. *)
Definition replaceFirst (s pat by_ : string) : string :=
  match indexOf s pat with
  | None => s
  | Some i =>
      substring s 0 i +:+ by_ +:+ substring s (i + String.length pat) (String.length s)
  end.

(** Truthiness of a string: only the empty string is falsy. *)
Definition truthy (s : string) : bool := negb (String.eqb s "").

(** [a || b] on strings. *)
Definition orElse (a b : string) : string := if truthy a then a else b.

End Js.

(** ** Regular expressions

    A backtracking matcher for the fragment of ECMAScript patterns that the
    sources use.  [Rep] covers the quantifiers: [*] is [Rep true 0 None],
    [+] is [Rep true 1 None], [?] is [Rep true 0 (Some 1)], and the lazy
    forms take [false].  As in ECMAScript, an iteration that consumes nothing
    is refused once the minimum is reached, and the groups inside a
    quantified atom are reset at each iteration. *)

Module RegExp.

Inductive Item :=
| Ch (c : ascii)           (* a character *)
| Range (lo hi : ascii)    (* a-z *)
| Space                    (* \s *)
| Word                     (* \w *)
| Digit.                   (* \d *)

Inductive Re :=
| Eps
| Chr (c : ascii)
| Cls (negated : bool) (items : list Item)
| Dot
| Seq (a b : Re)
| Alt (a b : Re)
| Rep (greedy : bool) (min : nat) (max : option nat) (r : Re)
| Group (i : nat) (r : Re)
| Ahead (r : Re)
| Bol
| Eol.

Record Flags := mkFlags { ignoreCase : bool; dotAll : bool }.

Definition noFlags := mkFlags false false.
Definition flag_i := mkFlags true false.
Definition flag_s := mkFlags false true.
Definition flag_is := mkFlags true true.

(** A literal run of characters. *)
Fixpoint LitL (l : list ascii) : Re :=
  match l with
  | [] => Eps
  | [c] => Chr c
  | c :: r => Seq (Chr c) (LitL r)
  end.

Definition Lit (s : string) : Re := LitL (Js.chars s).

Fixpoint SeqL (l : list Re) : Re :=
  match l with
  | [] => Eps
  | [r] => r
  | r :: l' => Seq r (SeqL l')
  end.

Fixpoint AltL (l : list Re) : Re :=
  match l with
  | [] => Cls false []
  | [r] => r
  | r :: l' => Alt r (AltL l')
  end.

Definition Star (r : Re) := Rep true 0 None r.
Definition Plus (r : Re) := Rep true 1 None r.
Definition Opt (r : Re) := Rep true 0 (Some 1) r.
Definition LazyStar (r : Re) := Rep false 0 None r.
(** [[^]] and [[\s\S]]: any code unit. *)
Definition AnyChar : Re := Cls true [].

Definition itemHas (it : Item) (c : ascii) : bool :=
  match it with
  | Ch a => Ascii.eqb a c
  | Range lo hi => (Js.code lo <=? Js.code c)%nat && (Js.code c <=? Js.code hi)%nat
  | Space => Js.isSpace c
  | Word => Js.isWord c
  | Digit => Js.isDigit c
  end.

Definition itemsHave (fl : Flags) (items : list Item) (c : ascii) : bool :=
  existsb (fun it => itemHas it c) items ||
  (ignoreCase fl &&
   existsb (fun it => itemHas it (Js.toUpper c) || itemHas it (Js.toLower c)) items).

Definition chrEq (fl : Flags) (pat c : ascii) : bool :=
  if ignoreCase fl then Ascii.eqb (Js.toUpper pat) (Js.toUpper c) else Ascii.eqb pat c.

Definition isLineTerminator (c : ascii) : bool :=
  (Js.code c =? 10)%nat || (Js.code c =? 13)%nat.

(** The matcher state: the index reached, the input still ahead, and the
    captures so far (the most recent binding of a group comes first). *)
Record MState := mkState {
  idx  : nat;
  rest : list ascii;
  caps : list (nat * string)
}.

Fixpoint groupsOf (r : Re) : list nat :=
  match r with
  | Seq a b | Alt a b => groupsOf a ++ groupsOf b
  | Rep _ _ _ a | Ahead a => groupsOf a
  | Group i a => i :: groupsOf a
  | _ => []
  end.

Definition clearGroups (gs : list nat) (st : MState) : MState :=
  mkState (idx st) (rest st)
          (List.filter (fun '(i, _) => negb (existsb (Nat.eqb i) gs)) (caps st)).

Definition step1 (st : MState) (t : list ascii) : MState :=
  mkState (S (idx st)) t (caps st).

Definition reached (mx : option nat) (count : nat) : bool :=
  match mx with
  | Some n => (n <=? count)%nat
  | None => false
  end.

Definition orTry {A} (a : option A) (b : unit -> option A) : option A :=
  match a with
  | Some x => Some x
  | None => b tt
  end.

(** The iterations of a quantified atom: [atom] matches one more copy,
    [k] is what follows.  [count] copies have been matched; [fuel] bounds
    the copies still to come, each of which either consumes input or counts
    towards the minimum. *)
Fixpoint repeat_ (atom : MState -> (MState -> option MState) -> option MState)
  (greedy : bool) (mn : nat) (mx : option nat) (gs : list nat)
  (k : MState -> option MState) (fuel count : nat) (st : MState) {struct fuel}
  : option MState :=
  let stop := fun _ : unit => if (mn <=? count)%nat then k st else None in
  let more := fun _ : unit =>
    match fuel with
    | 0 => None
    | S fuel' =>
        if reached mx count then None
        else atom (clearGroups gs st)
               (fun st' =>
                  if (mn <=? count)%nat && (idx st' =? idx st)%nat then None
                  else repeat_ atom greedy mn mx gs k fuel' (S count) st')
    end in
  if greedy then orTry (more tt) stop else orTry (stop tt) more.

(** [m fl r st k]: match [r] at [st], then hand the state reached to the
    continuation [k]; on failure of [k], backtrack. *)
Fixpoint m (fl : Flags) (r : Re) (st : MState) (k : MState -> option MState)
  {struct r} : option MState :=
  match r with
  | Eps => k st
  | Chr c =>
      match rest st with
      | a :: t => if chrEq fl c a then k (step1 st t) else None
      | [] => None
      end
  | Cls neg items =>
      match rest st with
      | a :: t => if xorb neg (itemsHave fl items a) then k (step1 st t) else None
      | [] => None
      end
  | Dot =>
      match rest st with
      | a :: t =>
          if dotAll fl || negb (isLineTerminator a) then k (step1 st t) else None
      | [] => None
      end
  | Seq a b => m fl a st (fun st' => m fl b st' k)
  | Alt a b => orTry (m fl a st k) (fun _ => m fl b st k)
  | Group i a =>
      m fl a st
        (fun st' =>
           k (mkState (idx st') (rest st')
                ((i, Js.str (firstn (idx st' - idx st) (rest st))) :: caps st')))
  | Ahead a =>
      match m fl a st Some with
      | Some st' => k (mkState (idx st) (rest st) (caps st'))
      | None => None
      end
  | Bol => if (idx st =? 0)%nat then k st else None
  | Eol => match rest st with [] => k st | _ :: _ => None end
  | Rep greedy mn mx a =>
      repeat_ (m fl a) greedy mn mx (groupsOf a) k (S (length (rest st) + mn)) 0 st
  end.

(** The result of [exec]: where the match starts, what it covers, the
    captures, and the state right after it. *)
Record Match := mkMatch {
  index   : nat;
  matched : string;
  groups  : list (nat * string);
  after   : MState
}.

(** [match[i]] for a capture group; [None] is [undefined]. *)
Definition group (mt : Match) (i : nat) : option string :=
  snd <$> List.find (fun '(j, _) => Nat.eqb i j) (groups mt).

(** A match anchored at the current position (the sticky matcher). *)
Definition matchAt (fl : Flags) (r : Re) (i : nat) (l : list ascii) : option Match :=
  match m fl r (mkState i l []) Some with
  | Some st' =>
      Some (mkMatch i (Js.str (firstn (idx st' - i) l)) (caps st') st')
  | None => None
  end.

(** The leftmost match at or after the current position. *)
Fixpoint execFrom (fl : Flags) (r : Re) (i : nat) (l : list ascii) : option Match :=
  match matchAt fl r i l with
  | Some mt => Some mt
  | None =>
      match l with
      | [] => None
      | _ :: t => execFrom fl r (S i) t
      end
  end.

(** [String.prototype.match] with a pattern without the [g] flag. *)
Definition match_ (fl : Flags) (r : Re) (s : string) : option Match :=
  execFrom fl r 0 (Js.chars s).

(** [String.prototype.search]; [None] stands for -1. *)
Definition search (fl : Flags) (r : Re) (s : string) : option nat :=
  index <$> match_ fl r s.

(** [RegExp.prototype.test] *)
Definition test (fl : Flags) (r : Re) (s : string) : bool :=
  bool_decide (is_Some (match_ fl r s)).

(** Successive matches of a [g] pattern; after an empty match the search
    resumes one code unit further. *)
Fixpoint matchAllFrom (fl : Flags) (r : Re) (i : nat) (l : list ascii) (fuel : nat)
  : list Match :=
  match fuel with
  | 0 => []
  | S fuel' =>
      match execFrom fl r i l with
      | None => []
      | Some mt =>
          let st := after mt in
          if (idx st =? index mt)%nat then
            match rest st with
            | [] => [mt]
            | _ :: t => mt :: matchAllFrom fl r (S (idx st)) t fuel'
            end
          else mt :: matchAllFrom fl r (idx st) (rest st) fuel'
      end
  end.

(** [String.prototype.matchAll] *)
Definition matchAll (fl : Flags) (r : Re) (s : string) : list Match :=
  matchAllFrom fl r 0 (Js.chars s) (S (S (String.length s))).

(** [String.prototype.replace(pattern, "")] without the [g] flag. *)
Definition removeFirst (fl : Flags) (r : Re) (s : string) : string :=
  match match_ fl r s with
  | None => s
  | Some mt => Js.str (firstn (index mt) (Js.chars s) ++ rest (after mt))
  end.

(** [String.prototype.replace(pattern, "")] with the [g] flag. *)
Definition removeAll (fl : Flags) (r : Re) (s : string) : string :=
  let l := Js.chars s in
  let fix go (ms : list Match) (i : nat) (l : list ascii) : list ascii :=
    match ms with
    | [] => l
    | mt :: ms' =>
        firstn (index mt - i) l ++ go ms' (idx (after mt)) (rest (after mt))
    end in
  Js.str (go (matchAll fl r s) 0 l).

(** [String.prototype.split] with a pattern that has no capture group:
    [p] is where the current piece starts, [piece] its characters so far
    (most recent first), [q] the position probed. *)
Fixpoint splitFrom (fl : Flags) (r : Re) (p q : nat) (piece : list ascii)
  (l : list ascii) (fuel : nat) : list string :=
  match fuel with
  | 0 => [Js.str (rev piece ++ l)]
  | S fuel' =>
      match l with
      | [] => [Js.str (rev piece)]
      | c :: t =>
          match matchAt fl r q l with
          | None => splitFrom fl r p (S q) (c :: piece) t fuel'
          | Some mt =>
              let e := idx (after mt) in
              if (e =? p)%nat then splitFrom fl r p (S q) (c :: piece) t fuel'
              else Js.str (rev piece) :: splitFrom fl r e e [] (rest (after mt)) fuel'
          end
      end
  end.

Definition split (fl : Flags) (r : Re) (s : string) : list string :=
  match Js.chars s with
  | [] => match matchAt fl r 0 [] with Some _ => [] | None => [s] end
  | l => splitFrom fl r 0 0 [] l (S (length l))
  end.

End RegExp.

(** ** The operating system as the code sees it *)

(** Special characters of the patterns and templates. *)
Definition dq : ascii := ascii_of_nat 34.
Definition sq : ascii := ascii_of_nat 39.
Definition lf : ascii := ascii_of_nat 10.
Definition tab : ascii := ascii_of_nat 9.
Definition bt : ascii := ascii_of_nat 96.
Definition nl : string := String lf "".
Definition fence : string := String bt (String bt (String bt "")).
(** A path between double quotes, as the command templates write it. *)
Definition quoted (s : string) : string := String dq s +:+ String dq "".

(** [path] of Node.js, POSIX flavour, for a directory and a name that is one
    plain segment; [join] neither resolves [.] and [..] nor drops an empty
    segment, as Node.js does. *)
Module Path.

Definition basename (p : string) : string :=
  List.last (List.filter Js.truthy (Js.split p "/")) "".

Definition join (dir name : string) : string := dir +:+ "/" +:+ name.

End Path.

(** What lies outside the program: the user-data directory of the
    application and the programs started through [child_process].  A command
    ends with its standard output or throws (non-zero exit, program missing);
    either way it may have changed the file system. *)
Module Os.

Record t := mk {
  userData : string;
  exec     : string -> Fs.t -> Throws string * Fs.t
}.

End Os.

(** Computations that read and write the file system and may throw. *)
Definition IO (A : Type) : Type := Fs.t -> Throws A * Fs.t.

Module Io.

Definition ret {A} (a : A) : IO A := fun fs => (inr a, fs).

Definition raise {A} (msg : string) : IO A := fun fs => (throw msg, fs).

Definition bind {A B} (m : IO A) (f : A -> IO B) : IO B :=
  fun fs =>
    match m fs with
    | (inr a, fs') => f a fs'
    | (inl e, fs') => (inl e, fs')
    end.

(** [try { body } catch (e) { handler }] *)
Definition tryCatch {A} (body : IO A) (handler : Error -> IO A) : IO A :=
  fun fs =>
    match body fs with
    | (inl e, fs') => handler e fs'
    | (inr a, fs') => (inr a, fs')
    end.

Definition existsSync (p : string) : IO bool :=
  fun fs => (inr (Fs.existsSync fs p), fs).

Definition statSync_size (p : string) : IO nat :=
  fun fs => (Fs.statSync_size fs p, fs).

Definition copyFileSync (src dst : string) : IO unit :=
  fun fs =>
    match Fs.copyFileSync fs src dst with
    | inr fs' => (inr tt, fs')
    | inl e => (inl e, fs)
    end.

(** [execSync(cmd)] and [await util.promisify(exec)(cmd)] *)
Definition exec (os : Os.t) (cmd : string) : IO string := Os.exec os cmd.

End Io.

Declare Scope io_scope.
Delimit Scope io_scope with io.
Notation "x <- c1 ;; c2" := (Io.bind c1 (fun x => c2))
  (at level 100, c1 at next level, right associativity) : io_scope.
Notation "c1 ;; c2" := (Io.bind c1 (fun _ => c2))
  (at level 100, right associativity) : io_scope.

(** [Number(s)] for the numerals that [identify -format %wx%h] prints:
    unsigned decimal integers, surrounding white space ignored, the empty
    string being 0; [None] is [NaN].  The other numerals of JavaScript
    (a sign, a fraction, an exponent, a radix prefix, [Infinity]) are not
    read and count as [NaN] here. *)
Definition Number (s : string) : option nat :=
  let l := Js.chars (Js.trim s) in
  if forallb Js.isDigit l
  then Some (fold_left (fun acc c => 10 * acc + (Js.code c - 48)) l 0)
  else None.

(** [a <= n] where [a] may be [NaN] or [undefined]: then the test is false. *)
Definition atMost (a : option nat) (n : nat) : bool :=
  match a with
  | Some x => (x <=? n)%nat
  | None => false
  end.

(** ** View state *)

Inductive View := queue | solutions | debug.

(** ** ScreenshotHelper.ts: the two capture queues *)

Module ScreenshotHelper.

Record t := mk {
  screenshotQueue      : list string;
  extraScreenshotQueue : list string;
  view                 : View
}.

Definition MAX_SCREENSHOTS : nat := 2.

(** [constructor(view = "queue")] *)
Definition new (v : View) : t := mk [] [] v.

Definition getView (s : t) : View := view s.

Definition setView (s : t) (v : View) : t :=
  mk (screenshotQueue s) (extraScreenshotQueue s) v.

Definition getScreenshotQueue (s : t) : list string := screenshotQueue s.
Definition getExtraScreenshotQueue (s : t) : list string := extraScreenshotQueue s.

(** [Array.prototype.includes] on an array of strings. *)
Definition includes (q : list string) (p : string) : bool :=
  existsb (String.eqb p) q.

(** [Array.prototype.shift]: the removed front element and the rest. *)
Definition shift (q : list string) : option string * list string :=
  match q with
  | [] => (None, [])
  | x :: r => (Some x, r)
  end.

(** [Array.prototype.push]. *)
Definition push (q : list string) (p : string) : list string := q ++ [p].

Definition addToScreenshotQueue (s : t) (filepath : string) : t :=
  if negb (includes (screenshotQueue s) filepath) then
    match view s with
    | queue =>
        let q :=
          if (MAX_SCREENSHOTS <=? length (screenshotQueue s))%nat
          then snd (shift (screenshotQueue s))
          else screenshotQueue s in
        mk (push q filepath) (extraScreenshotQueue s) (view s)
    | _ =>
        mk (screenshotQueue s) (push (extraScreenshotQueue s) filepath) (view s)
    end
  else s.

(** [forEach(p => fs.unlink(p, err => { if (err) console.error(...) }))]:
    every path is handed to [unlink]; a failure only produces a console line. *)
Fixpoint unlinkEach (label : string) (fs : Fs.t) (q : list string)
  : Fs.t * list string :=
  match q with
  | [] => (fs, [])
  | p :: r =>
      match Fs.unlink fs p with
      | inr fs' => unlinkEach label fs' r
      | inl e =>
          let '(fs'', log) := unlinkEach label fs r in
          (fs'', (label +:+ p +:+ ": " +:+ message e) :: log)
      end
  end.

(** [clearQueues()]: the new helper state, the file system after the
    deletions have settled, and the lines written with [console.error]. *)
Definition clearQueues (fs : Fs.t) (s : t) : t * Fs.t * list string :=
  let '(fs1, log1) :=
    unlinkEach "Error deleting screenshot at " fs (screenshotQueue s) in
  let s1 := mk [] (extraScreenshotQueue s) (view s) in
  let '(fs2, log2) :=
    unlinkEach "Error deleting extra screenshot at " fs1 (extraScreenshotQueue s1) in
  let s2 := mk (screenshotQueue s1) [] (view s1) in
  (s2, fs2, log1 ++ log2).

Definition clearExtraScreenshotQueue (fs : Fs.t) (s : t) : t * Fs.t * list string :=
  let '(fs1, log1) :=
    unlinkEach "Error deleting extra screenshot at " fs (extraScreenshotQueue s) in
  (mk (screenshotQueue s) [] (view s), fs1, log1).

(** The value [{ success: boolean; error?: string }]. *)
Record Outcome := mkOutcome { success : bool; error : option string }.

Definition removePath (path : string) (q : list string) : list string :=
  filter (fun filePath => filePath ≠ path) q.

Definition deleteScreenshot (fs : Fs.t) (s : t) (path : string)
  : Outcome * t * Fs.t :=
  match Fs.unlink fs path with
  | inr fs' =>
      let s' :=
        match view s with
        | queue =>
            mk (removePath path (screenshotQueue s)) (extraScreenshotQueue s) (view s)
        | _ =>
            mk (screenshotQueue s) (removePath path (extraScreenshotQueue s)) (view s)
        end in
      (mkOutcome true None, s', fs')
  | inl e => (mkOutcome false (Some (message e)), s, fs)
  end.

(** The value [{ success: boolean; filePath?: string; error?: string }]. *)
Record Capture := mkCapture {
  captured  : bool;
  filePath  : option string;
  captureError : option string
}.

Definition getScreenshotsDir (os : Os.t) : string := Path.join (Os.userData os) "screenshots".
Definition getNormalizedDir (os : Os.t) : string := Path.join (Os.userData os) "normalized".

(** The body of the inner [try] of the static [normalizeImage]: ImageMagick,
    then the check that the output exists and is not empty. *)
Definition magickStrategy (os : Os.t) (inputPath normalizedPath : string) : IO string :=
  (dimensions <- Io.exec os ("magick identify -format " +:+ quoted "%wx%h" +:+ " "
                              +:+ quoted inputPath) ;;
   let dims := map Number (Js.split dimensions "x") in
   let width := nth 0 dims None in
   let height := nth 1 dims None in
   let targetSize := 896 in
   (if atMost width targetSize && atMost height targetSize then
      Io.exec os ("magick " +:+ quoted inputPath
                  +:+ " -background white -gravity center -extent 896x896 "
                  +:+ quoted normalizedPath)
    else
      Io.exec os ("magick " +:+ quoted inputPath
                  +:+ " -resize 896x896 -background white -gravity center -extent 896x896"
                  +:+ " -sharpen 0x1.0 -quality 100 " +:+ quoted normalizedPath)) ;;
   present <- Io.existsSync normalizedPath ;;
   if present then
     size <- Io.statSync_size normalizedPath ;;
     if (0 <? size)%nat then Io.ret normalizedPath
     else Io.raise "Normalized image file does not exist or is empty"
   else Io.raise "Normalized image file does not exist or is empty")%io.

(** [static async normalizeImage(inputPath)] *)
Definition normalizeImage (os : Os.t) (inputPath : string) : IO string :=
  Io.tryCatch
    (let normalizedDir := getNormalizedDir os in
     let filename := Path.basename inputPath in
     let normalizedPath := Path.join normalizedDir filename in
     present <- Io.existsSync normalizedPath ;;
     if present then Io.ret normalizedPath
     else
       Io.tryCatch
         (magickStrategy os inputPath normalizedPath)
         (fun magickError =>
            Io.copyFileSync inputPath normalizedPath ;;
            Io.ret normalizedPath))%io
    (fun error => Io.ret inputPath).

(** [static async takeScreenshot()]; [filename] stands for the name made of
    the time stamp and a fresh UUID. *)
Definition takeScreenshot (os : Os.t) (filename : string) : IO Capture :=
  let outputPath := Path.join (getScreenshotsDir os) filename in
  Io.tryCatch
    (let cmd := "screencapture -x " +:+ quoted outputPath in
     r <- Io.tryCatch
            (Io.exec os cmd ;;
             present <- Io.existsSync outputPath ;;
             if present then
               size <- Io.statSync_size outputPath ;;
               if (0 <? size)%nat then
                 normalizedPath <- normalizeImage os outputPath ;;
                 Io.ret (inl (mkCapture true (Some normalizedPath) None))
               else Io.ret (inr "Screenshot file is empty (0 bytes)")
             else Io.ret (inr "Screenshot file was not created"))
            (fun execErr => Io.ret (inr (message execErr))) ;;
     match r with
     | inl done => Io.ret done
     | inr error =>
         Io.ret (mkCapture false None
                   (Some (Js.orElse error "Unknown error taking screenshot")))
     end)%io
    (fun e => Io.ret (mkCapture false None (Some (message e)))).

End ScreenshotHelper.

(** ** JavaScript values, as far as the pipeline looks into them

    The payload of a number is carried along but never inspected, apart from
    the test for zero that truthiness needs. *)

#[warnings="-register-all"]
Inductive JsVal :=
| JNull
| JBool (b : bool)
| JNum (z : Z)
| JStr (s : string)
| JArr (l : list JsVal)
| JObj (fields : gmap string JsVal).

Definition truthy (v : JsVal) : bool :=
  match v with
  | JNull => false
  | JBool b => b
  | JNum z => negb (Z.eqb z 0)
  | JStr s => Js.truthy s
  | JArr _ | JObj _ => true
  end.

(** An object literal [{ k1: v1, ... }]; a later key overrides an earlier one. *)
Definition object (kvs : list (string * JsVal)) : JsVal :=
  JObj (fold_left (fun acc kv => <[kv.1 := kv.2]> acc) kvs ∅).

(** [v.k] for a value that is known to be non-null. *)
Definition field (v : JsVal) (k : string) : option JsVal :=
  match v with
  | JObj fs => fs !! k
  | _ => None
  end.

Fixpoint decimal_go (fuel n : nat) (acc : string) : string :=
  match fuel with
  | 0 => acc
  | S fuel' =>
      let acc' := String (ascii_of_nat (48 + n mod 10)) acc in
      if (n <? 10)%nat then acc' else decimal_go fuel' (n / 10) acc'
  end.

(** [String(n)] for an array index. *)
Definition decimal (n : nat) : string := decimal_go (S n) n "".

(** The own enumerable properties that [{ ...v }] copies. *)
Definition spread (v : JsVal) : gmap string JsVal :=
  match v with
  | JObj fs => fs
  | JArr l => list_to_map (imap (fun i x => (decimal i, x)) l)
  | JStr s =>
      list_to_map (imap (fun i c => (decimal i, JStr (String c ""))) (Js.chars s))
  | _ => ∅
  end.

(** ** The throwing computations of the interpreters *)

Definition tbind {A B} (m : Throws A) (f : A -> Throws B) : Throws B :=
  match m with
  | inl e => inl e
  | inr a => f a
  end.

(** [try { body } catch (e) { handler }] *)
Definition tryCatch {A} (body : Throws A) (handler : Error -> Throws A) : Throws A :=
  match body with
  | inl e => handler e
  | inr a => inr a
  end.

Declare Scope throws_scope.
Delimit Scope throws_scope with throws.
Notation "x <- c1 ;; c2" := (tbind c1 (fun x => c2))
  (at level 100, c1 at next level, right associativity) : throws_scope.

(** ** ProcessingHelper.ts: the response interpreter *)

Module Interpreter.
Import RegExp.

Section WithJSON.

(** [JSON.parse], which either yields a value or throws a [SyntaxError]. *)
Variable JSON_parse : string -> Throws JsVal.

(** /"?${fieldName}"?\s*:\s*"?(.*?)"?[,}]/i *)
Definition fieldRegex (fieldName : string) : Re :=
  SeqL [Opt (Chr dq); Lit fieldName; Opt (Chr dq); Star (Cls false [Space]);
        Chr ":"; Star (Cls false [Space]); Opt (Chr dq);
        Group 1 (LazyStar Dot); Opt (Chr dq); Cls false [Ch ","; Ch "}"]].

Definition extractField (text fieldName : string) : option string :=
  match match_ flag_i (fieldRegex fieldName) text with
  | Some mt => Some (Js.trim (default "" (group mt 1)))
  | None => None
  end.

(** /examples.*?:.*?\[(.*?)\]/is *)
Definition examplesArrayRegex : Re :=
  SeqL [Lit "examples"; LazyStar Dot; Chr ":"; LazyStar Dot; Chr "[";
        Group 1 (LazyStar Dot); Chr "]"].

(** /example\s*\d*\s*:?\s*\n?input\s*:([^]*?)output\s*:([^]*?)(?:explanation\s*:([^]*?))?(?=example|\n\n|$)/gi *)
Definition exampleRegex : Re :=
  SeqL [Lit "example"; Star (Cls false [Space]); Star (Cls false [Digit]);
        Star (Cls false [Space]); Opt (Chr ":"); Star (Cls false [Space]);
        Opt (Chr lf); Lit "input"; Star (Cls false [Space]); Chr ":";
        Group 1 (LazyStar AnyChar);
        Lit "output"; Star (Cls false [Space]); Chr ":";
        Group 2 (LazyStar AnyChar);
        Opt (SeqL [Lit "explanation"; Star (Cls false [Space]); Chr ":";
                   Group 3 (LazyStar AnyChar)]);
        Ahead (AltL [Lit "example"; Seq (Chr lf) (Chr lf); Eol])].

(** [match[i]?.trim() || ""] *)
Definition trimmedGroup (mt : Match) (i : nat) : string :=
  match group mt i with
  | Some g => Js.trim g
  | None => ""
  end.

Definition exampleOf (mt : Match) : JsVal :=
  object [("input", JStr (trimmedGroup mt 1));
          ("output", JStr (trimmedGroup mt 2));
          ("explanation", JStr (trimmedGroup mt 3))].

Definition defaultExamples : JsVal :=
  JArr [object [("input", JStr "Example input"); ("output", JStr "Example output")]].

Definition examplesByRegex (text : string) : JsVal :=
  let examples := map exampleOf (matchAll flag_i exampleRegex text) in
  if (0 <? length examples)%nat then JArr examples else defaultExamples.

Definition extractExamples (text : string) : Throws JsVal :=
  match match_ flag_is examplesArrayRegex text with
  | Some mt =>
      if Js.truthy (default "" (group mt 1)) then
        tryCatch (JSON_parse ("[" +:+ default "" (group mt 1) +:+ "]"))
                 (fun _ => ok (examplesByRegex text))
      else ok (examplesByRegex text)
  | None => ok (examplesByRegex text)
  end.

(** /"?${fieldName}"?\s*:\s*\[(.*?)\]/is *)
Definition listArrayRegex (fieldName : string) : Re :=
  SeqL [Opt (Chr dq); Lit fieldName; Opt (Chr dq); Star (Cls false [Space]);
        Chr ":"; Star (Cls false [Space]); Chr "["; Group 1 (LazyStar Dot); Chr "]"].

(** /(?:\d+[\.\)\-]|[\.\*\-])\s*([^\n]+)/ *)
Definition bulletRegex : Re :=
  SeqL [Alt (Seq (Plus (Cls false [Digit])) (Cls false [Ch "."; Ch ")"; Ch "-"]))
            (Cls false [Ch "."; Ch "*"; Ch "-"]);
        Star (Cls false [Space]);
        Group 1 (Plus (Cls true [Ch lf]))].

(** /${fieldName}[^]*?(?:(?:\d+[\.\)\-]|[\.\*\-])\s*([^\n]+))+/i *)
Definition listRegex (fieldName : string) : Re :=
  SeqL [Lit fieldName; LazyStar AnyChar; Plus bulletRegex].

(** /^["']|["']$/g *)
Definition quoteEndsRegex : Re :=
  Alt (Seq Bol (Cls false [Ch dq; Ch sq])) (Seq (Cls false [Ch dq; Ch sq]) Eol).

(** /^\d+[\.\)\-]|[\.\*\-]\s*/ *)
Definition bulletMarkRegex : Re :=
  Alt (SeqL [Bol; Plus (Cls false [Digit]); Cls false [Ch "."; Ch ")"; Ch "-"]])
      (Seq (Cls false [Ch "."; Ch "*"; Ch "-"]) (Star (Cls false [Space]))).

Definition extractList (text fieldName : string) : Throws JsVal :=
  let bulleted :=
    match match_ flag_i (listRegex fieldName) text with
    | Some _ =>
        match matchAll noFlags bulletRegex text with
        | [] => JArr []
        | listItems =>
            JArr (map (fun mt => JStr (Js.trim (removeFirst noFlags bulletMarkRegex (matched mt))))
                      listItems)
        end
    | None => JArr []
    end in
  match match_ flag_is (listArrayRegex fieldName) text with
  | Some mt =>
      let inner := default "" (group mt 1) in
      if Js.truthy inner then
        tryCatch (JSON_parse ("[" +:+ inner +:+ "]"))
                 (fun _ =>
                    ok (JArr (map (fun item =>
                                     JStr (removeAll noFlags quoteEndsRegex (Js.trim item)))
                                  (Js.split inner ","))))
      else ok bulleted
  | None => ok bulleted
  end.

(** /\{[\s\S]*\}/ *)
Definition jsonObjectRegex : Re := SeqL [Chr "{"; Star AnyChar; Chr "}"].

(** [null] is [None]. *)
Definition extractJSONFromResponse (text : string) : Throws (option JsVal) :=
  match match_ noFlags jsonObjectRegex text with
  | Some jsonMatch =>
      tryCatch (tbind (JSON_parse (matched jsonMatch)) (fun v => ok (Some v)))
               (fun _ => ok None)
  | None => ok None
  end.

(** /(?:Title:|Problem:|Question:|Exercise:)\s*([^\n]+)/i *)
Definition titleRegex : Re :=
  SeqL [AltL [Lit "Title:"; Lit "Problem:"; Lit "Question:"; Lit "Exercise:"];
        Star (Cls false [Space]); Group 1 (Plus (Cls true [Ch lf]))].

Definition headerLine (lines : list string) : option string :=
  List.find (fun line => Js.truthy line && (String.length line <? 100)%nat
                         && (10 <? String.length line)%nat)
            (map Js.trim (firstn 3 lines)).

Definition extractTitle (text : string) : option string :=
  match match_ flag_i titleRegex text with
  | Some mt =>
      if Js.truthy (default "" (group mt 1)) then Some (Js.trim (default "" (group mt 1)))
      else headerLine (Js.split text nl)
  | None => headerLine (Js.split text nl)
  end.

(** /(?:Description:|Problem Statement:|Instructions:)\s*([^]*?)(?=Examples:|Input:|Output:|Constraints:|Code:|Function|$)/is *)
Definition descRegex : Re :=
  SeqL [AltL [Lit "Description:"; Lit "Problem Statement:"; Lit "Instructions:"];
        Star (Cls false [Space]); Group 1 (LazyStar AnyChar);
        Ahead (AltL [Lit "Examples:"; Lit "Input:"; Lit "Output:"; Lit "Constraints:";
                     Lit "Code:"; Lit "Function"; Eol])].

(** /Examples:|Example \d+:|Input:|Output:/i *)
Definition examplesMarkRegex : Re :=
  AltL [Lit "Examples:"; SeqL [Lit "Example "; Plus (Cls false [Digit]); Chr ":"];
        Lit "Input:"; Lit "Output:"].

(** [if (i > 0) endIndex = Math.min(endIndex, i)], with [None] for -1. *)
Definition clampEnd (endIndex : nat) (i : option nat) : nat :=
  match i with
  | Some n => if (0 <? n)%nat then Nat.min endIndex n else endIndex
  | None => endIndex
  end.

Definition extractDescription (text : string) : string :=
  let leading :=
    let codeIndex := Js.indexOf text fence in
    let examplesIndex := search flag_i examplesMarkRegex text in
    let endIndex := clampEnd (clampEnd (String.length text) codeIndex) examplesIndex in
    Js.trim (Js.substring text 0 endIndex) in
  match match_ flag_is descRegex text with
  | Some mt =>
      if Js.truthy (default "" (group mt 1)) then Js.trim (default "" (group mt 1))
      else leading
  | None => leading
  end.

(** /```(?:[\w\-+.]+)?\s*([^]*?)```/gs *)
Definition codeBlockRegex : Re :=
  SeqL [Lit fence; Opt (Plus (Cls false [Word; Ch "-"; Ch "+"; Ch "."]));
        Star (Cls false [Space]); Group 1 (LazyStar AnyChar); Lit fence].

(** /[{};=\[\]<>]/ *)
Definition codishRegex : Re :=
  Cls false [Ch "{"; Ch "}"; Ch ";"; Ch "="; Ch "["; Ch "]"; Ch "<"; Ch ">"].

(** The state of the scan for indented code: [inCodeBlock], the finished
    [codeBlocks] and the lines of [currentBlock], both oldest first. *)
Record Scan := mkScan {
  inCodeBlock  : bool;
  codeBlocks   : list string;
  currentBlock : list string
}.

Definition scanLine (sc : Scan) (line : string) : Scan :=
  let isIndented := Js.startsWith line "    " || Js.startsWith line (String tab "") in
  let looksCodish := test noFlags codishRegex line in
  if isIndented || looksCodish then
    mkScan true (codeBlocks sc) (currentBlock sc ++ [line])
  else if inCodeBlock sc && String.eqb (Js.trim line) "" then
    mkScan (inCodeBlock sc) (codeBlocks sc) (currentBlock sc ++ [line])
  else if inCodeBlock sc then
    mkScan false
           (if (1 <? length (currentBlock sc))%nat
            then codeBlocks sc ++ [Js.join nl (currentBlock sc)]
            else codeBlocks sc)
           []
  else sc.

Definition extractCodeBlocks (text : string) : string :=
  match matchAll flag_s codeBlockRegex text with
  | [] =>
      let sc := fold_left scanLine (Js.split text nl) (mkScan false [] []) in
      let blocks :=
        if inCodeBlock sc && (1 <? length (currentBlock sc))%nat
        then codeBlocks sc ++ [Js.join nl (currentBlock sc)]
        else codeBlocks sc in
      Js.join (nl +:+ nl) blocks
  | matches =>
      Js.join (nl +:+ nl) (map (fun mt => Js.trim (default "" (group mt 1))) matches)
  end.

(** The structured object built from raw text when no JSON was found. *)
Definition fromRawText (responseText : string) : Throws JsVal :=
  (let title := Js.orElse (default "" (extractTitle responseText)) "Code Analysis" in
   let description := Js.orElse (extractDescription responseText) responseText in
   let code := Js.orElse (extractCodeBlocks responseText) "" in
   examples <- extractExamples responseText ;;
   constraints <- extractList responseText "constraints" ;;
   ok (object [("title", JStr title);
               ("description", JStr description);
               ("code", JStr code);
               ("examples", examples);
               ("constraints", constraints);
               ("function_signature",
                 JStr (Js.orElse (default "" (extractField responseText "function_signature")) ""));
               ("original_problem", JStr responseText)]))%throws.

(** The first part of the [try] block of [processScreenshots]: from the
    response text to [problemInfo]. *)
Definition interpret (responseText : string) : Throws JsVal :=
  (parsed <- extractJSONFromResponse responseText ;;
   match parsed with
   | Some problemInfo =>
       if truthy problemInfo then ok problemInfo else fromRawText responseText
   | None => fromRawText responseText
   end)%throws.

(** The object built in the [catch] block: the last resort. *)
Definition lastResort (responseText : string) : JsVal :=
  object [("title", JStr "Code Analysis");
          ("description", JStr (Js.substring responseText 0 1000));
          ("code", JStr "");
          ("examples", JArr []);
          ("constraints", JArr []);
          ("function_signature", JStr "");
          ("original_problem", JStr responseText)].

End WithJSON.

End Interpreter.

(** ** _pages/Solutions.tsx: the solution interpreter *)

Module Solutions.
Import RegExp.

(** The message of [SOLUTION_SUCCESS]. *)
Record SolutionPayload := mkPayload {
  solution : string;
  language : string;
  problem  : JsVal
}.

Record SolutionData := mkSolutionData {
  code             : string;
  thoughts         : list string;
  time_complexity  : string;
  space_complexity : string
}.

(** /(```[\w\s]*\n)([\s\S]*?)(```)/g *)
Definition codePattern : Re :=
  SeqL [Group 1 (SeqL [Lit fence; Star (Cls false [Word; Space]); Chr lf]);
        Group 2 (LazyStar AnyChar);
        Group 3 (Lit fence)].

(** [match[2]] of a match of [codePattern]. *)
Definition body (mt : Match) : string := default "" (group mt 2).

(** [codeMatches.reduce((largest, match) =>
      match[2].length > largest.length ? match[2] : largest, "")] *)
Definition largestBlock (codeMatches : list Match) : string :=
  fold_left
    (fun largest mt =>
       if (String.length largest <? String.length (body mt))%nat then body mt else largest)
    codeMatches "".

(** The patterns [[Tt]ime [Cc]omplexity:?\s*] and [[Ss]pace [Cc]omplexity:?\s*],
    each followed by the capture group [[^\.]*]. *)
Definition complexityLabel (upper lower : ascii) (word : string) : Re :=
  SeqL [Cls false [Ch upper; Ch lower]; Lit word; Chr " ";
        Cls false [Ch "C"; Ch "c"]; Lit "omplexity"].

Definition complexityPattern (label : Re) : Re :=
  SeqL [label; Opt (Chr ":"); Star (Cls false [Space]);
        Group 1 (Star (Cls true [Ch "."]))].

Definition timeLabel : Re := complexityLabel "T" "t" "ime".
Definition spaceLabel : Re := complexityLabel "S" "s" "pace".

(** [m ? m[1].trim() : "O(n)"] *)
Definition complexityOf (label : Re) (solutionText : string) : string :=
  match match_ noFlags (complexityPattern label) solutionText with
  | Some mt => Js.trim (default "" (group mt 1))
  | None => "O(n)"
  end.

(** /```[\w\s]*\n[\s\S]*?```/ *)
Definition fencedBlock : Re :=
  SeqL [Lit fence; Star (Cls false [Word; Space]); Chr lf; LazyStar AnyChar; Lit fence].

(** /\n\s*\n/ *)
Definition blankLine : Re := SeqL [Chr lf; Star (Cls false [Space]); Chr lf].

(** The text in front of the first fenced block: [split(...)[0]]; reading
    index 0 of an empty array gives [undefined], on which [.split] throws. *)
Definition preCode (solutionText : string) : Throws string :=
  match split noFlags fencedBlock solutionText with
  | first :: _ => ok first
  | [] => throw "TypeError: Cannot read properties of undefined (reading 'split')"
  end.

Definition paragraphs (prose : string) : list string := split noFlags blankLine prose.

Definition nonTrivial (t : string) : bool := (10 <? String.length (Js.trim t))%nat.

(** The parsing part of the [onSolutionSuccess] handler. *)
Definition parseSolution (solutionText : string) : Throws SolutionData :=
  (let codeMatches := matchAll noFlags codePattern solutionText in
   let code := if (0 <? length codeMatches)%nat then largestBlock codeMatches else "" in
   let timeComplexity := complexityOf timeLabel solutionText in
   let spaceComplexity := complexityOf spaceLabel solutionText in
   prose <- preCode solutionText ;;
   let thoughts := map Js.trim (List.filter nonTrivial (paragraphs prose)) in
   ok (mkSolutionData (Js.orElse code solutionText)
                      thoughts
                      (Js.orElse timeComplexity "O(n)")
                      (Js.orElse spaceComplexity "O(n)")))%throws.

(** [onSolutionSuccess(data)]: what is stored under the ["solution"] key;
    nothing is stored for a missing payload. *)
Definition onSolutionSuccess (data : option SolutionPayload) : Throws (option SolutionData) :=
  match data with
  | None => ok None
  | Some d => tbind (parseSolution (Js.orElse (solution d) "")) (fun sd => ok (Some sd))
  end.

End Solutions.

(** ** The main process: state, messages, asynchronous code *)

(** What [webContents.send] delivers to the renderer
    ([PROCESSING_EVENTS] of main.ts). *)
Inductive Event :=
| INITIAL_START
| PROBLEM_EXTRACTED (problemInfo : JsVal)
| SOLUTION_SUCCESS (data : Solutions.SolutionPayload)
| INITIAL_SOLUTION_ERROR (msg : string)
| DEBUG_START
| DEBUG_SUCCESS (problemInfo : JsVal)
| DEBUG_ERROR (msg : string)
| NO_SCREENSHOTS
| SCREENSHOT_IN_PROGRESS (inProgress : bool).

(** A [BrowserWindow]; window identity is not modelled, so a reference taken
    earlier is usable exactly when the window of the state is. *)
Record Window := mkWindow { isDestroyed : bool }.

(** The [state] object of main.ts, the fields of the [ProcessingHelper]
    instance, and the runtime around them: the [AbortController]s created so
    far and those aborted, a clock that ticks at every suspension, the file
    system, and the messages sent to the renderer (oldest first). *)
Record Sys := mkSys {
  mainWindow : option Window;
  isWindowVisible : bool;
  view : View;
  problemInfo : option JsVal;
  hasDebugged : bool;
  screenshotInProgress : bool;
  screenshotHelper : option ScreenshotHelper.t;
  currentProcessingAbortController : option nat;
  currentExtraProcessingAbortController : option nat;
  aborted : list nat;
  controllers : nat;
  clock : nat;
  disk : Fs.t;
  ipc : list Event
}.

Definition set_mainWindow (x : option Window) (s : Sys) : Sys :=
  mkSys x (isWindowVisible s) (view s) (problemInfo s) (hasDebugged s)
    (screenshotInProgress s) (screenshotHelper s)
    (currentProcessingAbortController s)
    (currentExtraProcessingAbortController s) (aborted s) (controllers s)
    (clock s) (disk s) (ipc s).
Definition set_isWindowVisible (x : bool) (s : Sys) : Sys :=
  mkSys (mainWindow s) x (view s) (problemInfo s) (hasDebugged s)
    (screenshotInProgress s) (screenshotHelper s)
    (currentProcessingAbortController s)
    (currentExtraProcessingAbortController s) (aborted s) (controllers s)
    (clock s) (disk s) (ipc s).
Definition set_view (x : View) (s : Sys) : Sys :=
  mkSys (mainWindow s) (isWindowVisible s) x (problemInfo s) (hasDebugged s)
    (screenshotInProgress s) (screenshotHelper s)
    (currentProcessingAbortController s)
    (currentExtraProcessingAbortController s) (aborted s) (controllers s)
    (clock s) (disk s) (ipc s).
Definition set_problemInfo (x : option JsVal) (s : Sys) : Sys :=
  mkSys (mainWindow s) (isWindowVisible s) (view s) x (hasDebugged s)
    (screenshotInProgress s) (screenshotHelper s)
    (currentProcessingAbortController s)
    (currentExtraProcessingAbortController s) (aborted s) (controllers s)
    (clock s) (disk s) (ipc s).
Definition set_hasDebugged (x : bool) (s : Sys) : Sys :=
  mkSys (mainWindow s) (isWindowVisible s) (view s) (problemInfo s) x
    (screenshotInProgress s) (screenshotHelper s)
    (currentProcessingAbortController s)
    (currentExtraProcessingAbortController s) (aborted s) (controllers s)
    (clock s) (disk s) (ipc s).
Definition set_screenshotInProgress (x : bool) (s : Sys) : Sys :=
  mkSys (mainWindow s) (isWindowVisible s) (view s) (problemInfo s)
    (hasDebugged s) x (screenshotHelper s)
    (currentProcessingAbortController s)
    (currentExtraProcessingAbortController s) (aborted s) (controllers s)
    (clock s) (disk s) (ipc s).
Definition set_screenshotHelper (x : option ScreenshotHelper.t) (s : Sys) : Sys :=
  mkSys (mainWindow s) (isWindowVisible s) (view s) (problemInfo s)
    (hasDebugged s) (screenshotInProgress s) x
    (currentProcessingAbortController s)
    (currentExtraProcessingAbortController s) (aborted s) (controllers s)
    (clock s) (disk s) (ipc s).
Definition set_currentProcessingAbortController (x : option nat) (s : Sys) : Sys :=
  mkSys (mainWindow s) (isWindowVisible s) (view s) (problemInfo s)
    (hasDebugged s) (screenshotInProgress s) (screenshotHelper s) x
    (currentExtraProcessingAbortController s) (aborted s) (controllers s)
    (clock s) (disk s) (ipc s).
Definition set_currentExtraProcessingAbortController (x : option nat) (s : Sys) : Sys :=
  mkSys (mainWindow s) (isWindowVisible s) (view s) (problemInfo s)
    (hasDebugged s) (screenshotInProgress s) (screenshotHelper s)
    (currentProcessingAbortController s) x (aborted s) (controllers s)
    (clock s) (disk s) (ipc s).
Definition set_aborted (x : list nat) (s : Sys) : Sys :=
  mkSys (mainWindow s) (isWindowVisible s) (view s) (problemInfo s)
    (hasDebugged s) (screenshotInProgress s) (screenshotHelper s)
    (currentProcessingAbortController s)
    (currentExtraProcessingAbortController s) x (controllers s) (clock s)
    (disk s) (ipc s).
Definition set_controllers (x : nat) (s : Sys) : Sys :=
  mkSys (mainWindow s) (isWindowVisible s) (view s) (problemInfo s)
    (hasDebugged s) (screenshotInProgress s) (screenshotHelper s)
    (currentProcessingAbortController s)
    (currentExtraProcessingAbortController s) (aborted s) x (clock s) (disk s)
    (ipc s).
Definition set_clock (x : nat) (s : Sys) : Sys :=
  mkSys (mainWindow s) (isWindowVisible s) (view s) (problemInfo s)
    (hasDebugged s) (screenshotInProgress s) (screenshotHelper s)
    (currentProcessingAbortController s)
    (currentExtraProcessingAbortController s) (aborted s) (controllers s) x
    (disk s) (ipc s).
Definition set_disk (x : Fs.t) (s : Sys) : Sys :=
  mkSys (mainWindow s) (isWindowVisible s) (view s) (problemInfo s)
    (hasDebugged s) (screenshotInProgress s) (screenshotHelper s)
    (currentProcessingAbortController s)
    (currentExtraProcessingAbortController s) (aborted s) (controllers s)
    (clock s) x (ipc s).
Definition set_ipc (x : list Event) (s : Sys) : Sys :=
  mkSys (mainWindow s) (isWindowVisible s) (view s) (problemInfo s)
    (hasDebugged s) (screenshotInProgress s) (screenshotHelper s)
    (currentProcessingAbortController s)
    (currentExtraProcessingAbortController s) (aborted s) (controllers s)
    (clock s) (disk s) x.

(** The body of a request to the local Ollama server. *)
Record Payload := mkPayload {
  model       : string;
  prompt      : option string;
  images      : list string;
  temperature : option string;
  num_predict : option N
}.

(** The promises the code awaits; the index is the type of the value a
    promise is fulfilled with. *)
Inductive Req : Type -> Type :=
| Sleep (ms : nat) : Req unit
| ExecuteJavaScript (code : string) : Req bool
| CreateWorker (lang : string) : Req nat
| SetParameters (worker : nat) : Req unit
| Recognize (worker : nat) (path : string) : Req string
| Terminate (worker : nat) : Req unit
| AxiosPost (url : string) (payload : Payload) (signal : option nat) (timeout : N)
    : Req string
| CaptureScreen : Req ScreenshotHelper.Capture
| NormalizeImage (inputPath : string) : Req string.

(** An [async] function: it returns, throws, reads or writes the state, or
    is suspended on a promise and continues with its outcome. *)
Inductive Proc (A : Type) : Type :=
| Ret (a : A)
| Throw (e : Error)
| Get (k : Sys -> Proc A)
| Put (s : Sys) (k : Proc A)
| Await {R : Type} (r : Req R) (k : Throws R -> Proc A).

Arguments Ret {A} a.
Arguments Throw {A} e.
Arguments Get {A} k.
Arguments Put {A} s k.
Arguments Await {A R} r k.

Module Async.

Fixpoint bind {A B} (p : Proc A) (f : A -> Proc B) : Proc B :=
  match p with
  | Ret a => f a
  | Throw e => Throw e
  | Get k => Get (fun s => bind (k s) f)
  | Put s k => Put s (bind k f)
  | Await r k => Await r (fun x => bind (k x) f)
  end.

(** [try { body } catch (e) { handler }] *)
Fixpoint tryCatch {A} (body : Proc A) (handler : Error -> Proc A) : Proc A :=
  match body with
  | Ret a => Ret a
  | Throw e => handler e
  | Get k => Get (fun s => tryCatch (k s) handler)
  | Put s k => Put s (tryCatch k handler)
  | Await r k => Await r (fun x => tryCatch (k x) handler)
  end.

(** [try { body } finally { final }] *)
Fixpoint tryFinally {A} (body : Proc A) (final : Proc unit) : Proc A :=
  match body with
  | Ret a => bind final (fun _ => Ret a)
  | Throw e => bind final (fun _ => Throw e)
  | Get k => Get (fun s => tryFinally (k s) final)
  | Put s k => Put s (tryFinally k final)
  | Await r k => Await r (fun x => tryFinally (k x) final)
  end.

Definition error {A} (msg : string) : Proc A := Throw (mkError msg None).

Definition get : Proc Sys := Get (fun s => Ret s).
Definition gets {A} (f : Sys -> A) : Proc A := Get (fun s => Ret (f s)).
Definition modify (f : Sys -> Sys) : Proc unit := Get (fun s => Put (f s) (Ret tt)).

(** [await promise] *)
Definition await {R} (r : Req R) : Proc R :=
  Await r (fun x => match x with inl e => Throw e | inr v => Ret v end).

(** A synchronous call that may throw. *)
Definition lift {A} (x : Throws A) : Proc A :=
  match x with
  | inl e => Throw e
  | inr a => Ret a
  end.

(** A computation on the file system, run in one go on the disk of the state. *)
Definition io {A} (c : IO A) : Proc A :=
  Get (fun s =>
         match c (disk s) with
         | (inr a, d) => Put (set_disk d s) (Ret a)
         | (inl e, d) => Put (set_disk d s) (Throw e)
         end).

(** [mainWindow.webContents.send(channel, payload)] *)
Definition send (ev : Event) : Proc unit :=
  Get (fun s =>
         match mainWindow s with
         | Some w =>
             if isDestroyed w then error "Object has been destroyed"
             else Put (set_ipc (ipc s ++ [ev]) s) (Ret tt)
         | None => error "TypeError: Cannot read properties of null (reading 'webContents')"
         end).

(** [new AbortController()]: the identifier of the new controller. *)
Definition newAbortController : Proc nat :=
  Get (fun s => Put (set_controllers (S (controllers s)) s) (Ret (controllers s))).

(** [controller.abort()] *)
Definition abort (c : nat) : Proc unit :=
  modify (fun s => set_aborted (c :: aborted s) s).

(** [signal.aborted] *)
Definition isAborted (c : nat) (s : Sys) : bool := existsb (Nat.eqb c) (aborted s).

End Async.

Declare Scope proc_scope.
Delimit Scope proc_scope with proc.
Notation "x <- c1 ;; c2" := (Async.bind c1 (fun x => c2))
  (at level 100, c1 at next level, right associativity) : proc_scope.
Notation "c1 ;; c2" := (Async.bind c1 (fun _ => c2))
  (at level 100, right associativity) : proc_scope.

(** ** main.ts *)

Module Main.
Import Async.

Definition getMainWindow (s : Sys) : option Window := mainWindow s.
Definition getView (s : Sys) : View := view s.

Definition setView (v : View) (s : Sys) : Sys :=
  set_screenshotHelper
    ((fun h => ScreenshotHelper.setView h v) <$> screenshotHelper s)
    (set_view v s).

Definition getProblemInfo (s : Sys) : option JsVal := problemInfo s.
Definition setProblemInfo (info : option JsVal) (s : Sys) : Sys := set_problemInfo info s.

(** [if (!problemInfo)]: [null] and the falsy values count as missing. *)
Definition present (info : option JsVal) : option JsVal :=
  match info with
  | Some v => if truthy v then Some v else None
  | None => None
  end.

Definition getScreenshotQueue (s : Sys) : list string :=
  match screenshotHelper s with
  | Some h => ScreenshotHelper.getScreenshotQueue h
  | None => []
  end.

Definition getExtraScreenshotQueue (s : Sys) : list string :=
  match screenshotHelper s with
  | Some h => ScreenshotHelper.getExtraScreenshotQueue h
  | None => []
  end.

Definition setHasDebugged (value : bool) (s : Sys) : Sys := set_hasDebugged value s.
Definition getHasDebugged (s : Sys) : bool := hasDebugged s.

Definition isVisible (s : Sys) : bool := isWindowVisible s.

(** [clearQueues()]: the console lines of the helper are dropped here. *)
Definition clearQueues (s : Sys) : Sys :=
  let s1 :=
    match screenshotHelper s with
    | Some h =>
        let '(h', d, _) := ScreenshotHelper.clearQueues (disk s) h in
        set_disk d (set_screenshotHelper (Some h') s)
    | None => s
    end in
  setView queue (set_problemInfo None s1).

(** [notifyRenderer(event, data)] *)
Definition notifyRenderer (ev : Event) : Proc unit :=
  Get (fun s =>
         match mainWindow s with
         | Some w => if isDestroyed w then Ret tt else send ev
         | None => Ret tt
         end).

(** [hideMainWindow()]: with no window at all, [state.mainWindow.isFullScreen]
    is read from [null]. *)
Definition hideMainWindow : Proc unit :=
  Get (fun s =>
         match mainWindow s with
         | Some w =>
             if isDestroyed w then Ret tt
             else Put (set_isWindowVisible false s) (Ret tt)
         | None => error "TypeError: Cannot read properties of null (reading 'isFullScreen')"
         end).

(** [showMainWindow()].  A missing window is created anew, and the first,
    synchronous stretch of [createWindow] already shows it.  For a window
    that has been destroyed but is still referenced, [createWindow] reads
    [isMinimized()] of it and rejects, so that nothing changes.  A live
    window is shown. *)
Definition showMainWindow : Proc unit :=
  (s <- get ;;
   match mainWindow s with
   | None =>
       modify (fun s => set_isWindowVisible true (set_mainWindow (Some (mkWindow false)) s))
   | Some w =>
       if isDestroyed w then Ret tt else modify (set_isWindowVisible true)
   end)%proc.

Definition addToScreenshotQueue (filepath : string) (s : Sys) : Sys :=
  set_screenshotHelper
    ((fun h => ScreenshotHelper.addToScreenshotQueue h filepath) <$> screenshotHelper s) s.

(** [async function takeScreenshot(): Promise<string>] *)
Definition takeScreenshot : Proc string :=
  (s <- get ;;
   if screenshotInProgress s then Ret ""
   else
     tryCatch
       (notifyRenderer (SCREENSHOT_IN_PROGRESS true) ;;
        modify (set_screenshotInProgress true) ;;
        wasVisible <- gets isVisible ;;
        (if wasVisible then hideMainWindow ;; await (Sleep 200) else Ret tt) ;;
        result <- await CaptureScreen ;;
        (if wasVisible then showMainWindow else Ret tt) ;;
        match ScreenshotHelper.filePath result with
        | Some filePath =>
            if ScreenshotHelper.captured result && Js.truthy filePath then
              modify (addToScreenshotQueue filePath) ;;
              modify (set_screenshotInProgress false) ;;
              notifyRenderer (SCREENSHOT_IN_PROGRESS false) ;;
              Ret filePath
            else
              modify (set_screenshotInProgress false) ;;
              notifyRenderer (SCREENSHOT_IN_PROGRESS false) ;;
              error (Js.orElse (default "" (ScreenshotHelper.captureError result))
                               "Screenshot failed")
        | None =>
            modify (set_screenshotInProgress false) ;;
            notifyRenderer (SCREENSHOT_IN_PROGRESS false) ;;
            error (Js.orElse (default "" (ScreenshotHelper.captureError result))
                             "Screenshot failed")
        end)
       (fun e =>
          modify (set_screenshotInProgress false) ;;
          notifyRenderer (SCREENSHOT_IN_PROGRESS false) ;;
          Throw e))%proc.

(** [async function deleteScreenshot(path)]: the answer of the helper, or
    a failure when there is no helper. *)
Definition deleteScreenshot (path : string) (s : Sys) : ScreenshotHelper.Outcome * Sys :=
  match screenshotHelper s with
  | Some h =>
      let '(r, h', d) := ScreenshotHelper.deleteScreenshot (disk s) h path in
      (r, set_disk d (set_screenshotHelper (Some h') s))
  | None =>
      (ScreenshotHelper.mkOutcome false (Some "Screenshot helper not initialized"), s)
  end.

(** [toggleMainWindow()] *)
Definition toggleMainWindow : Proc unit :=
  Get (fun s =>
         match mainWindow s with
         | Some w =>
             if isDestroyed w then Ret tt
             else if isWindowVisible s then hideMainWindow else showMainWindow
         | None => Ret tt
         end).

(** The state once [initializeHelpers] and [createWindow] have run. *)
Definition initial (d : Fs.t) : Sys :=
  mkSys (Some (mkWindow false)) true queue None false false
        (Some (ScreenshotHelper.new queue)) None None [] 0 0 d [].

End Main.

(** ** ProcessingHelper.ts: the two pipelines *)

(** [Buffer.toString("base64")] *)
Module Base64.

Definition alphabet : list ascii :=
  Js.chars "ABCDEFGHIJKLMNOPQRSTUVWXYZabcdefghijklmnopqrstuvwxyz0123456789+/".

Definition digit (n : N) : ascii := nth (N.to_nat (n mod 64)) alphabet "A"%char.

Definition byte (c : ascii) : N := N.of_nat (Js.code c).

Fixpoint encodeL (l : list ascii) : list ascii :=
  match l with
  | [] => []
  | [a] =>
      let n := (byte a * 65536)%N in
      [digit (n / 262144); digit (n / 4096); "="%char; "="%char]
  | [a; b] =>
      let n := (byte a * 65536 + byte b * 256)%N in
      [digit (n / 262144); digit (n / 4096); digit (n / 64); "="%char]
  | a :: b :: c :: r =>
      let n := (byte a * 65536 + byte b * 256 + byte c)%N in
      digit (n / 262144) :: digit (n / 4096) :: digit (n / 64) :: digit n :: encodeL r
  end.

Definition encode (s : string) : string := Js.str (encodeL (Js.chars s)).

End Base64.

Module ProcessingHelper.
Import Async RegExp.

Definition OLLAMA_API_URL : string := "http://localhost:11434/api".
Definition OLLAMA_MODEL : string := "SudoSaturn/Shellper".

(** The body of the inner [try] of [normalizeImage]: ImageMagick tuned for
    text, then the check that the output exists and is not empty. *)
Definition magickStrategy (os : Os.t) (inputPath normalizedPath : string) : IO string :=
  (dimensions <- Io.exec os ("magick identify -format " +:+ quoted "%wx%h" +:+ " "
                              +:+ quoted inputPath) ;;
   let dims := map Number (Js.split dimensions "x") in
   let width := nth 0 dims None in
   let height := nth 1 dims None in
   let targetSize := 1600 in
   (if atMost width targetSize && atMost height targetSize then
      Io.exec os ("magick " +:+ quoted inputPath
                  +:+ " -colorspace gray -auto-level -sharpen 0x1.2"
                  +:+ " -contrast-stretch 0%x25% -despeckle " +:+ quoted normalizedPath)
    else
      Io.exec os ("magick " +:+ quoted inputPath
                  +:+ " -resize 1600x1600 -colorspace gray -auto-level -sharpen 0x1.5"
                  +:+ " -contrast-stretch 0%x30% -despeckle " +:+ quoted normalizedPath)) ;;
   present <- Io.existsSync normalizedPath ;;
   if present then
     size <- Io.statSync_size normalizedPath ;;
     if (0 <? size)%nat then Io.ret normalizedPath
     else Io.raise "Normalized image file does not exist or is empty"
   else Io.raise "Normalized image file does not exist or is empty")%io.

(** The simpler processing tried when [magickStrategy] has thrown. *)
Definition simplifiedStrategy (os : Os.t) (inputPath normalizedPath : string) : IO string :=
  (Io.exec os ("magick " +:+ quoted inputPath
               +:+ " -resize 1000x1000 -colorspace gray -contrast -sharpen 0x1.0 "
               +:+ quoted normalizedPath) ;;
   Io.ret normalizedPath)%io.

(** The last resort: the original is copied. *)
Definition copyStrategy (inputPath normalizedPath : string) : IO string :=
  (Io.copyFileSync inputPath normalizedPath ;;
   Io.ret normalizedPath)%io.

Definition normalizedPathOf (os : Os.t) (inputPath : string) : string :=
  Path.join (ScreenshotHelper.getNormalizedDir os) (Path.basename inputPath).

(** [private async normalizeImage(inputPath)] *)
Definition normalizeImage (os : Os.t) (inputPath : string) : IO string :=
  Io.tryCatch
    (let normalizedPath := normalizedPathOf os inputPath in
     present <- Io.existsSync normalizedPath ;;
     if present then Io.ret normalizedPath
     else
       Io.tryCatch
         (magickStrategy os inputPath normalizedPath)
         (fun magickError =>
            Io.tryCatch
              (simplifiedStrategy os inputPath normalizedPath)
              (fun fallbackError => copyStrategy inputPath normalizedPath)))%io
    (fun error => Io.ret inputPath).

(** The patterns of [removeMyThoughtsSection]:
    /# My Thoughts[\s\S]*?(?=# |## |$)/i, /## My Thoughts[\s\S]*?(?=# |## |$)/i,
    and /LABEL[\s\S]*?(?=\n\n|$)/i for the six labels below. *)
Definition headingSection (heading : string) : Re :=
  SeqL [Lit heading; LazyStar AnyChar; Ahead (AltL [Lit "# "; Lit "## "; Eol])].

Definition labelSection (label : string) : Re :=
  SeqL [Lit label; LazyStar AnyChar; Ahead (AltL [Seq (Chr lf) (Chr lf); Eol])].

Definition myThoughtsPatterns : list Re :=
  [headingSection "# My Thoughts"; headingSection "## My Thoughts";
   labelSection "My Thoughts:"; labelSection "My Analysis:"; labelSection "My Approach:";
   labelSection "Thoughts:"; labelSection "Problem Understanding:";
   labelSection "Problem Analysis:"].

Definition removeMyThoughtsSection (solution : string) : string :=
  Js.trim (fold_left (fun cleaned pattern => removeFirst flag_i pattern cleaned)
                     myThoughtsPatterns solution).

Section WithJSON.

Variable JSON_parse : string -> Throws JsVal.
Variable JSON_stringify : JsVal -> string.

(** [private async waitForInitialization(mainWindow)]; [attempts] counts
    down from [maxAttempts]. *)
Fixpoint waitFor (attempts : nat) : Proc unit :=
  match attempts with
  | 0 => error "App failed to initialize after 5 seconds"
  | S attempts' =>
      (isInitialized <- await (ExecuteJavaScript "window.__IS_INITIALIZED__") ;;
       if isInitialized : bool then Ret tt
       else await (Sleep 100) ;; waitFor attempts')%proc
  end.

Definition waitForInitialization : Proc unit := waitFor 50.

(** [private async getLanguage()] *)
Definition getLanguage : Proc string := Ret "auto".

(** One turn of the OCR loop of [processScreenshots]: the work of a
    Tesseract worker on one image. *)
Definition ocr (path : string) : Proc string :=
  (worker <- await (CreateWorker "eng") ;;
   await (SetParameters worker) ;;
   text <- await (Recognize worker path) ;;
   await (Terminate worker) ;;
   Ret text)%proc.

Definition ocrScreenshot (path : string) : Proc (string * string) :=
  (let originalPath := Js.replaceFirst path "/normalized/" "/screenshots/" in
   s <- get ;;
   if negb (Fs.existsSync (disk s) originalPath) then
     text <- ocr path ;;
     Ret (path, text)
   else
     text <- ocr originalPath ;;
     Ret (originalPath, text))%proc.

(** [for (const path of screenshotQueue) { ... screenshotDataArray.push(...) }] *)
Fixpoint ocrAll (screenshotQueue : list string) : Proc (list (string * string)) :=
  match screenshotQueue with
  | [] => Ret []
  | path :: rest =>
      (item <- ocrScreenshot path ;;
       items <- ocrAll rest ;;
       Ret (item :: items))%proc
  end.

(** [{ title: problemInfo.title, description: ..., code: ... }]; a property
    that is [undefined] is left out by [JSON.stringify]. *)
Definition minimalContext (problemInfo : JsVal) : JsVal :=
  object (flat_map (fun k => match field problemInfo k with
                             | Some v => [(k, v)]
                             | None => []
                             end)
                   ["title"; "description"; "code"]).

(** [error?.response?.data?.error || error.message || fallback] *)
Definition describe (e : Error) (fallback : string) : string :=
  Js.orElse (default "" (response_data_error e)) (Js.orElse (message e) fallback).

(** [private async generateSolutionsHelper(signal)] *)
Definition generateSolutionsHelper (signal : nat) : Proc unit :=
  (s <- get ;;
   if isAborted signal s then Ret tt
   else
     match Main.getMainWindow s with
     | None => Ret tt
     | Some _ =>
         tryCatch
           (s <- get ;;
            match Main.present (Main.getProblemInfo s) with
            | Some problemInfo =>
                language <- getLanguage ;;
                let contextJson := JSON_stringify (minimalContext problemInfo) in
                response <- await (AxiosPost (OLLAMA_API_URL +:+ "/generate")
                                     (mkPayload OLLAMA_MODEL (Some contextJson) []
                                                (Some "0.7") (Some 2048%N))
                                     (Some signal) 180000%N) ;;
                let generatedSolution := removeMyThoughtsSection response in
                send (SOLUTION_SUCCESS
                        (Solutions.mkPayload generatedSolution language problemInfo)) ;;
                modify (Main.setView solutions)
            | None =>
                send (INITIAL_SOLUTION_ERROR
                        "No problem information available. Please process screenshots first.")
            end)
           (fun error =>
              s <- get ;;
              if isAborted signal s then Ret tt
              else send (INITIAL_SOLUTION_ERROR (describe error "Unknown error")))
     end)%proc.

(** What [processScreenshots] does with a problem description: notify,
    store, switch the view, go on to the solution. *)
Definition publish (problemInfo : JsVal) (signal : nat) : Proc unit :=
  (send (PROBLEM_EXTRACTED problemInfo) ;;
   modify (Main.setProblemInfo (Some problemInfo)) ;;
   modify (Main.setView solutions) ;;
   generateSolutionsHelper signal)%proc.

(** The [try] block of [processScreenshots] from the analysis request on:
    the OCR text goes to the model, the answer is interpreted and published,
    with the last resort in the inner [catch]. *)
Definition analyseAndPublish (combinedText : string) (signal : nat) : Proc unit :=
  (responseText <- await (AxiosPost (OLLAMA_API_URL +:+ "/generate")
                            (mkPayload OLLAMA_MODEL (Some combinedText) []
                                       (Some "0.1") None)
                            (Some signal) 90000%N) ;;
   tryCatch
     (problemInfo <- lift (Interpreter.interpret JSON_parse responseText) ;;
      publish problemInfo signal)
     (fun error => publish (Interpreter.lastResort responseText) signal))%proc.

(** The outer [catch] block of [processScreenshots]. *)
Definition reportFailure (error : Error) : Proc unit :=
  (s <- get ;;
   match Main.getMainWindow s with
   | Some _ => send (INITIAL_SOLUTION_ERROR (message error))
   | None => Ret tt
   end)%proc.

(** [public async processScreenshots()] *)
Definition processScreenshots : Proc unit :=
  (s <- get ;;
   match currentProcessingAbortController s with
   | Some c => abort c
   | None => Ret tt
   end ;;
   signal <- newAbortController ;;
   modify (set_currentProcessingAbortController (Some signal)) ;;
   s <- get ;;
   match Main.getMainWindow s with
   | None => Ret tt
   | Some _ =>
       tryCatch
         (s <- get ;;
          let screenshotQueue := Main.getScreenshotQueue s in
          if (length screenshotQueue =? 0)%nat then send NO_SCREENSHOTS
          else
            send INITIAL_START ;;
            screenshotDataArray <- ocrAll screenshotQueue ;;
            let combinedText := Js.join (nl +:+ nl) (map snd screenshotDataArray) in
            analyseAndPublish combinedText signal)
         reportFailure
   end)%proc.

(** [public cancelOngoingRequests()] *)
Definition cancelOngoingRequests : Proc unit :=
  (s <- get ;;
   match currentProcessingAbortController s with
   | Some c => abort c ;; modify (set_currentProcessingAbortController None)
   | None => Ret tt
   end ;;
   s' <- get ;;
   match currentExtraProcessingAbortController s' with
   | Some c => abort c ;; modify (set_currentExtraProcessingAbortController None)
   | None => Ret tt
   end ;;
   let wasCancelled :=
     bool_decide (is_Some (currentProcessingAbortController s)) ||
     bool_decide (is_Some (currentExtraProcessingAbortController s')) in
   modify (Main.setHasDebugged false) ;;
   modify (Main.setProblemInfo None) ;;
   s'' <- get ;;
   match Main.getMainWindow s'' with
   | Some w =>
       if wasCancelled && negb (isDestroyed w) then send NO_SCREENSHOTS else Ret tt
   | None => Ret tt
   end)%proc.

(** One turn of the loop of [processExtraScreenshotsHelper]: the analysis
    of one capture. *)
Definition analyse (path : string) (signal : nat) : Proc (string * string) :=
  (normalizedPath <- await (NormalizeImage path) ;;
   s <- get ;;
   raw <- lift (Fs.readFileSync (disk s) normalizedPath) ;;
   let imageData := Base64.encode raw in
   analysisResult <- await (AxiosPost (OLLAMA_API_URL +:+ "/generate")
                              (mkPayload OLLAMA_MODEL None [imageData] (Some "0.1") None)
                              (Some signal) 90000%N) ;;
   Ret (normalizedPath, analysisResult))%proc.

Fixpoint analyseAll (screenshots : list (string * string)) (signal : nat)
  : Proc (list (string * string)) :=
  match screenshots with
  | [] => Ret []
  | (path, _) :: rest =>
      (info <- analyse path signal ;;
       infos <- analyseAll rest signal ;;
       Ret (info :: infos))%proc
  end.

(** [{ ...currentProblemInfo, extraInfo: combinedExtraInfo }] *)
Definition withExtraInfo (currentProblemInfo : JsVal) (combinedExtraInfo : string) : JsVal :=
  JObj (<["extraInfo" := JStr combinedExtraInfo]> (spread currentProblemInfo)).

(** [private async processExtraScreenshotsHelper(screenshots, signal)] *)
Definition processExtraScreenshotsHelper (screenshots : list (string * string))
  (signal : nat) : Proc unit :=
  (s <- get ;;
   if isAborted signal s then Ret tt
   else
     match Main.getMainWindow s with
     | None => Ret tt
     | Some _ =>
         tryCatch
           (s <- get ;;
            match Main.present (Main.getProblemInfo s) with
            | Some currentProblemInfo =>
                extraInfoResults <- analyseAll screenshots signal ;;
                let combinedExtraInfo := Js.join (nl +:+ nl) (map snd extraInfoResults) in
                let updatedProblemInfo := withExtraInfo currentProblemInfo combinedExtraInfo in
                modify (Main.setProblemInfo (Some updatedProblemInfo)) ;;
                send (DEBUG_SUCCESS updatedProblemInfo)
            | None =>
                send (DEBUG_ERROR "No problem information available to enhance.")
            end)
           (fun error =>
              s <- get ;;
              if isAborted signal s then Ret tt
              else send (DEBUG_ERROR (describe error "Error processing extra screenshots")))
     end)%proc.

(** [fs.readFileSync(screenshotPath, "base64")], an unreadable file giving
    empty data. *)
Definition readScreenshot (d : Fs.t) (screenshotPath : string) : string * string :=
  match Fs.readFileSync d screenshotPath with
  | inr raw => (screenshotPath, Base64.encode raw)
  | inl _ => (screenshotPath, "")
  end.

(** [public async processExtraScreenshots()] *)
Definition processExtraScreenshots : Proc unit :=
  (cancelOngoingRequests ;;
   s <- get ;;
   match Main.getMainWindow s with
   | None => Ret tt
   | Some _ =>
       tryFinally
         (tryCatch
            (waitForInitialization ;;
             s <- get ;;
             let extraScreenshots := Main.getExtraScreenshotQueue s in
             if (length extraScreenshots =? 0)%nat then
               send (DEBUG_ERROR
                 "No extra screenshots to process. Please take additional screenshots first.")
             else
               controller <- newAbortController ;;
               modify (set_currentExtraProcessingAbortController (Some controller)) ;;
               send DEBUG_START ;;
               s <- get ;;
               let screenshotsData := map (readScreenshot (disk s)) extraScreenshots in
               processExtraScreenshotsHelper
                 (List.filter (fun sd => Js.truthy (snd sd)) screenshotsData) controller)
            (fun error =>
               send (DEBUG_ERROR (Js.orElse (message error)
                                            "Unknown error processing extra screenshots"))))
         (modify (set_currentExtraProcessingAbortController None))
   end)%proc.

End WithJSON.

End ProcessingHelper.

(** *** The world that answers the promises *)

Record World := mkWorld {
  os          : Os.t;
  (** the time stamp and UUID in the name of the next capture *)
  freshName   : nat -> string;
  (** [window.__IS_INITIALIZED__] as seen by the poll made at a given time *)
  initialized : nat -> bool;
  (** the text Tesseract reads from an image *)
  recognize   : nat -> string -> Fs.t -> Throws string;
  (** the [response] field of the answer of [POST /api/generate] *)
  generate    : nat -> Payload -> Throws string
}.

(** The outcome of a promise and the file system it leaves.  A request that
    carries the signal of an aborted controller is rejected by axios. *)
Definition answer (w : World) {R} (r : Req R) (s : Sys) : Throws R * Fs.t :=
  match r in Req T return Throws T * Fs.t with
  | Sleep _ => (inr tt, disk s)
  | ExecuteJavaScript _ =>
      (match mainWindow s with
       | Some win =>
           if isDestroyed win then throw "Object has been destroyed"
           else inr (initialized w (clock s))
       | None => throw "Object has been destroyed"
       end, disk s)
  | CreateWorker _ => (inr (clock s), disk s)
  | SetParameters _ => (inr tt, disk s)
  | Recognize _ path => (recognize w (clock s) path (disk s), disk s)
  | Terminate _ => (inr tt, disk s)
  | AxiosPost _ payload signal _ =>
      (match signal with
       | Some c =>
           if Async.isAborted c s then throw "canceled" else generate w (clock s) payload
       | None => generate w (clock s) payload
       end, disk s)
  | CaptureScreen =>
      ScreenshotHelper.takeScreenshot (os w) (freshName w (clock s)) (disk s)
  | NormalizeImage inputPath => ProcessingHelper.normalizeImage (os w) inputPath (disk s)
  end.

Definition settle (d : Fs.t) (s : Sys) : Sys := set_clock (S (clock s)) (set_disk d s).

(** Running an asynchronous function to its end, nothing else being
    interleaved: every promise is answered as soon as it is awaited. *)
Fixpoint run {A} (w : World) (p : Proc A) (s : Sys) : Throws A * Sys :=
  match p with
  | Ret a => (inr a, s)
  | Throw e => (inl e, s)
  | Get k => run w (k s) s
  | Put s' k => run w k s'
  | Await r k => let '(x, d) := answer w r s in run w (k x) (settle d s)
  end.

(** A function at rest: settled, or suspended on a promise. *)
Inductive Paused (A : Type) : Type :=
| Settled (r : Throws A)
| Pending {R : Type} (r : Req R) (k : Throws R -> Proc A).

Arguments Settled {A} r.
Arguments Pending {A R} r k.

(** The synchronous stretch up to the next suspension. *)
Fixpoint advance {A} (p : Proc A) (s : Sys) : Paused A * Sys :=
  match p with
  | Ret a => (Settled (inr a), s)
  | Throw e => (Settled (inl e), s)
  | Get k => advance (k s) s
  | Put s' k => advance k s'
  | Await r k => (Pending r k, s)
  end.

(** The promise a function waits for is settled by the world and the
    function runs on to its next suspension. *)
Definition resume {A} (w : World) (p : Paused A) (s : Sys) : Paused A * Sys :=
  match p with
  | Settled r => (Settled r, s)
  | Pending r k => let '(x, d) := answer w r s in advance (k x) (settle d s)
  end.

(** [n] resumptions in a row. *)
Fixpoint resumeN {A} (w : World) (n : nat) (p : Paused A) (s : Sys) : Paused A * Sys :=
  match n with
  | 0 => (p, s)
  | S n' => let '(p', s') := resume w p s in resumeN w n' p' s'
  end.

(** ** A small world for worked examples *)

Module Scenario.

(** A machine without ImageMagick, on which every command fails. *)
Definition bareMachine : Os.t :=
  Os.mk "/userData" (fun cmd d => (throw "/bin/sh: magick: command not found", d)).

Definition emptyDisk : Fs.t := Fs.mk ∅ ∅.

(** A machine on which [magick identify] fails and every other command
    ends with exit code 0 without writing anything. *)
Definition idleMachine : Os.t :=
  Os.mk "/userData"
        (fun cmd d =>
           match Js.indexOf cmd "identify" with
           | Some _ => (throw "magick: unable to open image", d)
           | None => (inr "", d)
           end).

(** A disk on which the normalized file of [a.png] exists and is empty. *)
Definition staleDisk : Fs.t :=
  Fs.mk {[ "/userData/screenshots/a.png" := "PNG-A";
           "/userData/normalized/a.png" := "" ]} ∅.

(** One capture of each kind on disk. *)
Definition disk0 : Fs.t :=
  Fs.mk {[ "/userData/screenshots/a.png" := "PNG-A";
           "/userData/screenshots/b.png" := "PNG-B" ]} ∅.

(** Tesseract reads a line of code; the model answers in plain prose. *)
Definition world : World :=
  mkWorld bareMachine
          (fun t => "screenshot-" +:+ decimal t +:+ ".png")
          (fun t => true)
          (fun t path d => inr "func foo(n): return n*2")
          (fun t payload => inr "Given n, return twice n.").

(** Stand-ins for [JSON.parse] and [JSON.stringify]: the texts of this
    world contain neither braces nor brackets, and the body of a request
    does not influence the answer. *)
Definition parse (text : string) : Throws JsVal :=
  throw "SyntaxError: Unexpected token".
Definition stringify (v : JsVal) : string := "{}".

(** A parser that knows the empty object only. *)
Definition parseEmptyObject (text : string) : Throws JsVal :=
  if String.eqb text "{}" then inr (JObj ∅) else throw "SyntaxError: Unexpected token".

(** After start-up, one capture in the primary queue. *)
Definition oneCapture : Sys :=
  Main.addToScreenshotQueue "/userData/screenshots/a.png" (Main.initial disk0).

Definition processScreenshots : Proc unit :=
  ProcessingHelper.processScreenshots parse stringify.

(** The name of the promise a function is suspended on. *)
Definition waitingFor {A} (p : Paused A) : string :=
  match p with
  | Settled (inr _) => "returned"
  | Settled (inl _) => "thrown"
  | Pending r _ =>
      match r with
      | Sleep _ => "Sleep"
      | ExecuteJavaScript _ => "ExecuteJavaScript"
      | CreateWorker _ => "CreateWorker"
      | SetParameters _ => "SetParameters"
      | Recognize _ _ => "Recognize"
      | Terminate _ => "Terminate"
      | AxiosPost _ _ _ _ => "AxiosPost"
      | CaptureScreen => "CaptureScreen"
      | NormalizeImage _ => "NormalizeImage"
      end
  end.

(** Run A of the initial pipeline, started on [oneCapture] and resumed [n]
    times. *)
Definition runA (n : nat) : Paused unit * Sys :=
  let '(p, s) := advance processScreenshots oneCapture in
  resumeN world n p s.

(** Run B starts while run A is where [n] resumptions have taken it; then
    the promise run A waits for is settled.  The result: where run A
    stands, the messages sent before run A went on, and those sent after. *)
Definition supersede (n : nat) : string * list Event * list Event :=
  let '(pA, s1) := runA n in
  let '(pB, s2) := advance processScreenshots s1 in
  let '(pA', s3) := resumeN world 8 pA s2 in
  (waitingFor pA', ipc s2, skipn (length (ipc s2)) (ipc s3)).

(** The solutions view with a problem description and one follow-up capture. *)
Definition problem : JsVal :=
  object [("title", JStr "Double"); ("description", JStr "Return twice n.");
          ("code", JStr "")].

Definition debugging : Sys :=
  Main.addToScreenshotQueue "/userData/screenshots/b.png"
    (Main.setView solutions (Main.setProblemInfo (Some problem) (Main.initial disk0))).

(** A capture is under way. *)
Definition busy : Sys := set_screenshotInProgress true (Main.initial emptyDisk).

(** A solution with prose, one fenced block and no complexity label. *)
Definition sample : string :=
  "Double the argument with one multiplication." +:+ nl +:+ nl
  +:+ fence +:+ "python" +:+ nl +:+ "def foo(n):" +:+ nl +:+ "    return n * 2" +:+ nl
  +:+ fence.

End Scenario.

(** ** Vocabulary of the statements *)

(** A burst of captures: [addToScreenshotQueue] called once per path. *)
Definition enqueueAll (s : ScreenshotHelper.t) (ps : list string) : ScreenshotHelper.t :=
  fold_left ScreenshotHelper.addToScreenshotQueue ps s.

(** The queue that the current view routes to, and the other one. *)
Definition targetQueue (s : ScreenshotHelper.t) : list string :=
  match ScreenshotHelper.view s with
  | queue => ScreenshotHelper.screenshotQueue s
  | _ => ScreenshotHelper.extraScreenshotQueue s
  end.

Definition otherQueue (s : ScreenshotHelper.t) : list string :=
  match ScreenshotHelper.view s with
  | queue => ScreenshotHelper.extraScreenshotQueue s
  | _ => ScreenshotHelper.screenshotQueue s
  end.

(** What [console.error] prints for the deletion of [p] on the file system
    [fs]: one line when [unlink] fails, nothing when it succeeds. *)
Definition complaint (label : string) (fs : Fs.t) (p : string) : list string :=
  match Fs.unlink fs p with
  | inl e => [label +:+ p +:+ ": " +:+ message e]
  | inr _ => []
  end.

(** The lines for the paths of [q], each deleted on [fs] by itself. *)
Definition failures (label : string) (fs : Fs.t) (q : list string) : list string :=
  flat_map (complaint label fs) q.

(** [description] of an interpretation, when there is one. *)
Definition descriptionOf (r : Throws JsVal) : option JsVal :=
  match r with
  | inr v => field v "description"
  | inl _ => None
  end.

(** [Keeps Q p]: every state that [p] installs satisfies [Q], provided the
    states it reads do. *)
Inductive Keeps (Q : Sys -> Prop) {A : Type} : Proc A -> Prop :=
| Keeps_Ret (a : A) : Keeps Q (Ret a)
| Keeps_Throw (e : Error) : Keeps Q (Throw e)
| Keeps_Get (k : Sys -> Proc A) : (forall s, Q s -> Keeps Q (k s)) -> Keeps Q (Get k)
| Keeps_Put (s : Sys) (k : Proc A) : Q s -> Keeps Q k -> Keeps Q (Put s k)
| Keeps_Await {R : Type} (r : Req R) (k : Throws R -> Proc A) :
    (forall x, Keeps Q (k x)) -> Keeps Q (Await r k).

Definition notDebugSuccess (e : Event) : Prop := forall info, e <> DEBUG_SUCCESS info.

(** The description is gone and nothing sent since the trace [t0] is a
    [DEBUG_SUCCESS]. *)
Definition Dropped (t0 : list Event) (s : Sys) : Prop :=
  problemInfo s = None /\
  exists evs, ipc s = t0 ++ evs /\ Forall notDebugSuccess evs.

(** A matcher that succeeds under one continuation succeeds under every
    continuation that accepts at least as much. *)
Definition Mono (f : RegExp.MState -> (RegExp.MState -> option RegExp.MState)
                     -> option RegExp.MState) : Prop :=
  forall (st : RegExp.MState) (k k' : RegExp.MState -> option RegExp.MState),
    (forall s, is_Some (k s) -> is_Some (k' s)) ->
    is_Some (f st k) -> is_Some (f st k').

(** ** Call sequences, state invariants and traces *)

(** The public methods of a [ScreenshotHelper], called one after the other
    on the helper and the file system. *)
Module Api.

Inductive Call :=
| addToScreenshotQueue (filepath : string)
| setView (v : View)
| deleteScreenshot (path : string)
| clearQueues
| clearExtraScreenshotQueue.

Definition call (st : ScreenshotHelper.t * Fs.t) (c : Call) : ScreenshotHelper.t * Fs.t :=
  match c with
  | addToScreenshotQueue filepath =>
      (ScreenshotHelper.addToScreenshotQueue (fst st) filepath, snd st)
  | setView v => (ScreenshotHelper.setView (fst st) v, snd st)
  | deleteScreenshot path =>
      let '(_, h, fs) := ScreenshotHelper.deleteScreenshot (snd st) (fst st) path in (h, fs)
  | clearQueues =>
      let '(h, fs, _) := ScreenshotHelper.clearQueues (snd st) (fst st) in (h, fs)
  | clearExtraScreenshotQueue =>
      let '(h, fs, _) := ScreenshotHelper.clearExtraScreenshotQueue (snd st) (fst st) in
      (h, fs)
  end.

Definition calls (st : ScreenshotHelper.t * Fs.t) (cs : list Call)
  : ScreenshotHelper.t * Fs.t :=
  fold_left call cs st.

End Api.

(** The primary queue is within its capacity and holds no path twice. *)
Definition Bounded (h : ScreenshotHelper.t) : Prop :=
  length (ScreenshotHelper.screenshotQueue h) <= ScreenshotHelper.MAX_SCREENSHOTS /\
  List.NoDup (ScreenshotHelper.screenshotQueue h).


(** The texts that open a thoughts section, in the order in which
    [removeMyThoughtsSection] looks for them. *)
Definition thoughtsMarkers : list string :=
  ["# My Thoughts"; "## My Thoughts"; "My Thoughts:"; "My Analysis:"; "My Approach:";
   "Thoughts:"; "Problem Understanding:"; "Problem Analysis:"].

(** The labels that introduce a title: (?:Title:|Problem:|Question:|Exercise:). *)
Definition titleLabels : RegExp.Re :=
  RegExp.AltL [RegExp.Lit "Title:"; RegExp.Lit "Problem:"; RegExp.Lit "Question:";
               RegExp.Lit "Exercise:"].

(** The main window exists and has not been destroyed. *)
Definition alive (s : Sys) : Prop := mainWindow s = Some (mkWindow false).

(** The same as a test: [mainWindow && !mainWindow.isDestroyed()]. *)
Definition usableWindow (s : Sys) : bool :=
  match mainWindow s with
  | Some w => negb (isDestroyed w)
  | None => false
  end.

(** The view of the main state and the view of the helper agree. *)
Definition Synced (s : Sys) : Prop :=
  forall h, screenshotHelper s = Some h -> ScreenshotHelper.view h = view s.

(** Both queues are what they were. *)
Definition SameQueues (primary secondary : list string) (s : Sys) : Prop :=
  Main.getScreenshotQueue s = primary /\ Main.getExtraScreenshotQueue s = secondary.

(** A file that [unlink] removes: it is there and the call is not refused. *)
Definition deletable (fs : Fs.t) (p : string) : Prop :=
  is_Some (Fs.files fs !! p) /\ p ∉ Fs.denied fs.


(** The state that [cancelOngoingRequests] leaves behind. *)
Definition cancelled (s : Sys) : Sys :=
  mkSys (mainWindow s) (isWindowVisible s) (view s) None false
        (screenshotInProgress s) (screenshotHelper s) None None
        (option_list (currentExtraProcessingAbortController s) ++
         option_list (currentProcessingAbortController s) ++ aborted s)
        (controllers s) (clock s) (disk s)
        (if (bool_decide (is_Some (currentProcessingAbortController s)) ||
             bool_decide (is_Some (currentExtraProcessingAbortController s)))
            && usableWindow s
         then ipc s ++ [NO_SCREENSHOTS] else ipc s).

(** The clock of a state moved on by [n] suspensions that left the file
    system alone. *)
Definition later (n : nat) (s : Sys) : Sys := set_clock (clock s + n) s.

(** ** A world in which the capture works

    [screencapture] writes its output file; ImageMagick is not installed, so
    that a capture is normalized by copying it. *)
Module Studio.

Definition machine : Os.t :=
  Os.mk "/userData"
        (fun cmd d =>
           if Js.startsWith cmd "screencapture -x " then
             (inr "",
              Fs.mk (<[Js.substring cmd 18 (String.length cmd - 1) := "PNG"]> (Fs.files d))
                    (Fs.denied d))
           else (throw "/bin/sh: magick: command not found", d)).

(** Tesseract reads a line of code; the model answers in plain prose; the
    renderer is initialized from the third poll on. *)
Definition world : World :=
  mkWorld machine
          (fun t => "screenshot-" +:+ decimal t +:+ ".png")
          (fun t => (4 <=? t)%nat)
          (fun t path d => inr "func foo(n): return n*2")
          (fun t payload => inr "Given n, return twice n.").

(** A renderer that never reports itself initialized. *)
Definition frozen : World :=
  mkWorld machine
          (fun t => "screenshot-" +:+ decimal t +:+ ".png")
          (fun t => false)
          (fun t path d => inr "")
          (fun t payload => inr "").

End Studio.

(* ================================================================== *)
(** * Properties *)
(* ================================================================== *)

(** ** The capture queues *)

Module QueueFacts.
Import ScreenshotHelper.

Lemma includes_true_iff (q : list string) (p : string) :
  includes q p = true <-> In p q.
Proof.
  unfold includes. rewrite existsb_exists. split.
  - intros (x & Hin & Heq). apply String.eqb_eq in Heq. now subst.
  - intros Hin. exists p. split; [assumption | apply String.eqb_refl].
Qed.

Lemma includes_false_iff (q : list string) (p : string) :
  includes q p = false <-> ~ In p q.
Proof.
  rewrite <- includes_true_iff. destruct (includes q p); split; intros; congruence.
Qed.

Lemma add_view (s : t) (p : string) : view (addToScreenshotQueue s p) = view s.
Proof.
  unfold addToScreenshotQueue.
  destruct (negb _); [destruct (view s) eqn:E; simpl; congruence | reflexivity].
Qed.

Lemma add_primary_length (s : t) (p : string) :
  view s = queue ->
  length (screenshotQueue s) <= MAX_SCREENSHOTS ->
  length (screenshotQueue (addToScreenshotQueue s p)) <= MAX_SCREENSHOTS.
Proof.
  intros Hv Hlen. unfold addToScreenshotQueue, push, MAX_SCREENSHOTS in *.
  destruct (negb _); [ | assumption ].
  rewrite Hv. simpl.
  destruct (screenshotQueue s) as [ | a [ | b [ | c r ] ] ]; simpl in *; lia.
Qed.

Lemma enqueueAll_view (ps : list string) (s : t) : view (enqueueAll s ps) = view s.
Proof.
  revert s. induction ps as [ | p ps IH ]; intros s; simpl; [ reflexivity | ].
  unfold enqueueAll in *. simpl. rewrite IH. apply add_view.
Qed.

Lemma enqueueAll_primary_length (ps : list string) (s : t) :
  view s = queue ->
  length (screenshotQueue s) <= MAX_SCREENSHOTS ->
  length (screenshotQueue (enqueueAll s ps)) <= MAX_SCREENSHOTS.
Proof.
  revert s. induction ps as [ | p ps IH ]; intros s Hv Hlen; [ exact Hlen | ].
  unfold enqueueAll in *. simpl. apply IH.
  - rewrite add_view. exact Hv.
  - now apply add_primary_length.
Qed.

Lemma add_full_evicts_front (s : t) (a b p : string) :
  view s = queue ->
  screenshotQueue s = [a; b] ->
  p <> a -> p <> b ->
  addToScreenshotQueue s p = mk [b; p] (extraScreenshotQueue s) queue.
Proof.
  intros Hv Hq Ha Hb. unfold addToScreenshotQueue.
  assert (Hinc : includes (screenshotQueue s) p = false).
  { apply includes_false_iff. rewrite Hq. simpl. intuition congruence. }
  rewrite Hinc, Hv, Hq. reflexivity.
Qed.

(** C3. While the view is [queue], whatever paths are enqueued, the primary
    queue never holds more than [MAX_SCREENSHOTS] = 2 entries; and a new path
    (one that is not in the queue yet) arriving at a full queue [[a; b]]
    drops the front entry [a] and is appended behind [b], so that the
    entries stay in the order of their arrival; the secondary queue is left
    alone. *)
Theorem primary_queue_bounded_fifo (s : t) (ps : list string) :
  view s = queue ->
  length (screenshotQueue s) <= MAX_SCREENSHOTS ->
  let s' := enqueueAll s ps in
  length (screenshotQueue s') <= 2 /\
  forall a b p,
    screenshotQueue s' = [a; b] -> p <> a -> p <> b ->
    screenshotQueue (addToScreenshotQueue s' p) = [b; p] /\
    extraScreenshotQueue (addToScreenshotQueue s' p) = extraScreenshotQueue s'.
Proof.
  intros Hv Hlen s'. split.
  - now apply enqueueAll_primary_length.
  - intros a b p Hq Ha Hb.
    rewrite (add_full_evicts_front s' a b p); auto.
    subst s'. rewrite enqueueAll_view. exact Hv.
Qed.

Lemma primary_queue_bounded_fifo_witness :
  let s := new queue in
  let ps := ["/s/1.png"; "/s/2.png"; "/s/3.png"] in
  screenshotQueue (enqueueAll s ps) = ["/s/2.png"; "/s/3.png"] /\
  (length (screenshotQueue (enqueueAll s ps)) <= 2 /\
   forall a b p,
     screenshotQueue (enqueueAll s ps) = [a; b] -> p <> a -> p <> b ->
     screenshotQueue (addToScreenshotQueue (enqueueAll s ps) p) = [b; p] /\
     extraScreenshotQueue (addToScreenshotQueue (enqueueAll s ps) p)
       = extraScreenshotQueue (enqueueAll s ps)).
Proof.
  split; [ reflexivity | ].
  apply (primary_queue_bounded_fifo (new queue) ["/s/1.png"; "/s/2.png"; "/s/3.png"]).
  - reflexivity.
  - simpl. unfold MAX_SCREENSHOTS. lia.
Defined.

(** Fresh, pairwise distinct captures enqueued from the empty queue: what
    remains is exactly the last two, in arrival order. *)
Lemma add_fresh_primary (s : t) (p : string) :
  view s = queue -> ~ In p (screenshotQueue s) ->
  screenshotQueue (addToScreenshotQueue s p) =
    (if (MAX_SCREENSHOTS <=? length (screenshotQueue s))%nat
     then tl (screenshotQueue s) else screenshotQueue s) ++ [p].
Proof.
  intros Hv Hn. unfold addToScreenshotQueue.
  apply includes_false_iff in Hn. rewrite Hn, Hv. simpl.
  destruct (screenshotQueue s); reflexivity.
Qed.

(** Pairwise distinct captures enqueued from the empty queue: what remains
    is exactly the last two, in the order of arrival. *)
Lemma enqueueAll_snoc (s : t) (ps : list string) (p : string) :
  enqueueAll s (ps ++ [p]) = addToScreenshotQueue (enqueueAll s ps) p.
Proof. unfold enqueueAll. now rewrite fold_left_app. Qed.

Lemma tl_skipn (l : list string) : forall n, tl (skipn n l) = skipn (S n) l.
Proof.
  induction l as [ | x l IH ]; intros [ | n ]; try reflexivity.
  simpl skipn at 1. rewrite IH. reflexivity.
Qed.

Lemma in_skipn (l : list string) (p : string) : forall n, In p (skipn n l) -> In p l.
Proof.
  induction l as [ | x l IH ]; intros [ | n ] H; simpl in *; auto.
  right. eapply IH. exact H.
Qed.

Lemma enqueue_distinct_keeps_last_two (ps : list string) :
  List.NoDup ps ->
  screenshotQueue (enqueueAll (new queue) ps) = skipn (length ps - 2) ps.
Proof.
  induction ps as [ | p ps IH ] using rev_ind; intros Hnd; [ reflexivity | ].
  apply NoDup_remove in Hnd. rewrite app_nil_r in Hnd. destruct Hnd as [Hnd Hp].
  specialize (IH Hnd). rewrite enqueueAll_snoc.
  rewrite add_fresh_primary.
  - rewrite IH. rewrite length_app, length_skipn. simpl length.
    unfold MAX_SCREENSHOTS.
    destruct (Nat.leb_spec 2 (length ps - (length ps - 2))) as [ Hle | Hlt ].
    + assert (Hlen : 2 <= length ps) by lia.
      replace (length ps + 1 - 2) with (S (length ps - 2)) by lia.
      rewrite skipn_app.
      replace (S (length ps - 2) - length ps) with 0 by lia.
      rewrite tl_skipn. reflexivity.
    + assert (Hlen : length ps < 2) by lia.
      replace (length ps - 2) with 0 by lia.
      replace (length ps + 1 - 2) with 0 by lia. reflexivity.
  - rewrite enqueueAll_view. reflexivity.
  - rewrite IH. intros Hin. apply Hp. eapply in_skipn. exact Hin.
Qed.

(** A path already in the primary queue is rejected in every view. *)
Lemma add_duplicate_of_primary_noop (s : t) (p : string) :
  In p (screenshotQueue s) -> addToScreenshotQueue s p = s.
Proof.
  intros Hin. unfold addToScreenshotQueue.
  apply includes_true_iff in Hin. now rewrite Hin.
Qed.

Lemma NoDup_snoc (q : list string) (p : string) :
  List.NoDup q -> ~ In p q -> List.NoDup (q ++ [p]).
Proof.
  intros Hq Hp. induction q as [ | x q IH ]; simpl.
  - constructor; [ intros [] | constructor ].
  - inversion Hq as [ | ? ? Hx Hq' ]; subst. constructor.
    + rewrite in_app_iff. simpl. intros [ H | [ H | [] ] ]; [ auto | ].
      subst. apply Hp. now left.
    + apply IH; [ assumption | ]. intros H. apply Hp. now right.
Qed.

Lemma add_primary_NoDup (s : t) (p : string) :
  List.NoDup (screenshotQueue s) ->
  List.NoDup (screenshotQueue (addToScreenshotQueue s p)).
Proof.
  intros Hnd. unfold addToScreenshotQueue.
  destruct (includes (screenshotQueue s) p) eqn:Hinc; cbn [negb]; [ assumption | ].
  apply includes_false_iff in Hinc.
  destruct (view s); cbn [screenshotQueue]; try assumption.
  revert Hnd Hinc. generalize (screenshotQueue s). intros q0 Hnd Hinc.
  unfold push. destruct (MAX_SCREENSHOTS <=? length q0)%nat.
  - destruct q0 as [ | x q ]; simpl.
    + constructor; [ intros [] | constructor ].
    + inversion Hnd; subst. apply NoDup_snoc; [ assumption | ].
      intros H. apply Hinc. now right.
  - now apply NoDup_snoc.
Qed.

(** C4. In a view other than [queue] the duplicate test still looks at the
    primary queue only: a path already in the secondary queue is appended to
    it a second time, and after a view change the same path can sit in both
    queues. *)
Theorem extra_queue_accepts_duplicates :
  addToScreenshotQueue (mk [] ["/x/a.png"] solutions) "/x/a.png"
    = mk [] ["/x/a.png"; "/x/a.png"] solutions /\
  addToScreenshotQueue (setView (mk [] ["/x/a.png"] solutions) queue) "/x/a.png"
    = mk ["/x/a.png"] ["/x/a.png"] queue.
Proof. split; reflexivity. Qed.

Lemma unlinkEach_total (label : string) (q : list string) (fs : Fs.t) :
  exists fs' log, unlinkEach label fs q = (fs', log).
Proof. destruct (unlinkEach label fs q) as [fs' log]. eauto. Qed.

(** *** Deletions, the file system and the console *)

Lemma unlink_spec (fs : Fs.t) (p : string) :
  match Fs.unlink fs p with
  | inr fs' =>
      deletable fs p /\
      Fs.files fs' = delete p (Fs.files fs) /\ Fs.denied fs' = Fs.denied fs
  | inl e => ~ deletable fs p /\ message e <> ""
  end.
Proof.
  unfold Fs.unlink, deletable.
  destruct (bool_decide (p ∈ Fs.denied fs)) eqn:Hd.
  - apply bool_decide_eq_true in Hd. simpl. split; [ tauto | discriminate ].
  - apply bool_decide_eq_false in Hd.
    destruct (Fs.files fs !! p) as [ c | ] eqn:Hf; simpl.
    + repeat split; eauto.
    + split; [ | discriminate ]. intros [[c Hc] _]. discriminate.
Qed.

Lemma unlinkEach_files (label : string) (q : list string) :
  forall fs,
    Fs.denied (fst (unlinkEach label fs q)) = Fs.denied fs /\
    forall p,
      Fs.files (fst (unlinkEach label fs q)) !! p =
        if bool_decide (p ∈ q /\ p ∉ Fs.denied fs) then None else Fs.files fs !! p.
Proof.
  induction q as [ | x q IH ]; intros fs.
  - cbn [unlinkEach fst]. split; [ reflexivity | ]. intros p.
    destruct (bool_decide (p ∈ [] /\ p ∉ Fs.denied fs)) eqn:E; [ | reflexivity ].
    apply bool_decide_eq_true in E. destruct E as [H _]. now apply elem_of_nil in H.
  - cbn [unlinkEach]. pose proof (unlink_spec fs x) as Hx.
    destruct (Fs.unlink fs x) as [ e | fs1 ].
    + destruct Hx as [Hnot _]. destruct (IH fs) as [IHd IHf].
      destruct (unlinkEach label fs q) as [fs2 log]. simpl in *.
      split; [ exact IHd | ]. intros p. rewrite IHf.
      destruct (decide (p = x)) as [ -> | Hne ].
      * destruct (decide (x ∉ Fs.denied fs)) as [ Hnd | Hd ].
        -- assert (Hnone : Fs.files fs !! x = None).
           { destruct (Fs.files fs !! x) eqn:E; [ | reflexivity ].
             exfalso. apply Hnot. split; eauto. }
           rewrite Hnone. now destruct (bool_decide _), (bool_decide _).
        -- rewrite !bool_decide_eq_false_2 by tauto. reflexivity.
      * apply (f_equal (fun b : bool => if b then None else Fs.files fs !! p)).
        apply bool_decide_ext. rewrite elem_of_cons. tauto.
    + destruct Hx as (Hdel & Hfiles & Hden). destruct (IH fs1) as [IHd IHf].
      destruct (unlinkEach label fs1 q) as [fs2 log]. simpl in *.
      split; [ congruence | ]. intros p. rewrite IHf, Hden, Hfiles.
      destruct (decide (p = x)) as [ -> | Hne ].
      * rewrite lookup_delete_eq. destruct Hdel as [_ Hnd].
        rewrite (bool_decide_eq_true_2 (x ∈ x :: q /\ x ∉ Fs.denied fs));
          [ now destruct (bool_decide _) | ].
        split; [ apply elem_of_cons; now left | exact Hnd ].
      * rewrite lookup_delete_ne by congruence.
        apply (f_equal (fun b : bool => if b then None else Fs.files fs !! p)).
        apply bool_decide_ext. rewrite elem_of_cons. tauto.
Qed.

(** A deletion depends on the path it is given and on nothing else: file
    systems that agree on the path give the same console line. *)
Lemma complaint_frame (label : string) (fs fs' : Fs.t) (p : string) :
  Fs.denied fs' = Fs.denied fs ->
  Fs.files fs' !! p = Fs.files fs !! p ->
  complaint label fs' p = complaint label fs p.
Proof.
  unfold complaint, Fs.unlink. intros -> ->.
  destruct (bool_decide (p ∈ Fs.denied fs)); [ reflexivity | ].
  destruct (Fs.files fs !! p); reflexivity.
Qed.

(** A deletion that fails keeps failing, with the same error, after other
    files have been deleted. *)
Lemma unlink_fails_stable (fs0 fs : Fs.t) (p : string) (e : Error) :
  Fs.denied fs = Fs.denied fs0 ->
  (Fs.files fs !! p = None \/ Fs.files fs !! p = Fs.files fs0 !! p) ->
  Fs.unlink fs0 p = inl e -> Fs.unlink fs p = inl e.
Proof.
  unfold Fs.unlink. intros -> Hf.
  destruct (bool_decide (p ∈ Fs.denied fs0)); [ auto | ].
  destruct (Fs.files fs0 !! p) eqn:E; [ discriminate | ].
  intros H. destruct Hf as [ -> | -> ]; rewrite ?E; exact H.
Qed.

(** Paths that are all different are deleted independently of each other:
    the console holds the line of each failure, in the order of the queue. *)
Lemma unlinkEach_log (label : string) (fs0 : Fs.t) (q : list string) :
  List.NoDup q ->
  forall fs,
    Fs.denied fs = Fs.denied fs0 ->
    (forall p, In p q -> Fs.files fs !! p = Fs.files fs0 !! p) ->
    snd (unlinkEach label fs q) = failures label fs0 q.
Proof.
  induction 1 as [ | x q Hx Hnd IH ]; intros fs Hd Hf; [ reflexivity | ].
  assert (Hc : complaint label fs0 x = complaint label fs x).
  { symmetry. apply complaint_frame; [ exact Hd | apply Hf; now left ]. }
  unfold failures in *. cbn [unlinkEach flat_map]. rewrite Hc. unfold complaint.
  pose proof (unlink_spec fs x) as Hu.
  destruct (Fs.unlink fs x) as [ e | fs1 ].
  - specialize (IH fs Hd (fun p Hp => Hf p (or_intror Hp))).
    destruct (unlinkEach label fs q) as [fs2 log]. simpl in *. now rewrite IH.
  - destruct Hu as (_ & Hfiles & Hden). simpl. apply IH; [ congruence | ].
    intros p Hp. rewrite Hfiles, lookup_delete_ne; [ apply Hf; now right | ].
    intros ->. contradiction.
Qed.

(** Whatever the queue holds, a path whose deletion fails gets its line. *)
Lemma unlinkEach_reports (label : string) (fs0 : Fs.t) (p : string) (e : Error)
  (q : list string) :
  Fs.unlink fs0 p = inl e ->
  In p q ->
  forall fs,
    Fs.denied fs = Fs.denied fs0 ->
    (forall x, Fs.files fs !! x = None \/ Fs.files fs !! x = Fs.files fs0 !! x) ->
    In (label +:+ p +:+ ": " +:+ message e) (snd (unlinkEach label fs q)).
Proof.
  intros He. induction q as [ | x q IH ]; intros Hin fs Hd Hf; [ destruct Hin | ].
  cbn [unlinkEach]. pose proof (unlink_spec fs x) as Hu.
  destruct (Fs.unlink fs x) as [ e' | fs1 ] eqn:Hx.
  - destruct (unlinkEach label fs q) as [fs2 log] eqn:Hq. simpl.
    destruct Hin as [ -> | Hin ].
    + left. rewrite (unlink_fails_stable fs0 fs p e Hd (Hf p) He) in Hx.
      now inversion Hx.
    + right. specialize (IH Hin fs Hd Hf). now rewrite Hq in IH.
  - destruct Hin as [ -> | Hin ].
    + rewrite (unlink_fails_stable fs0 fs p e Hd (Hf p) He) in Hx. discriminate.
    + destruct Hu as (_ & Hfiles & Hden). apply IH; [ assumption | congruence | ].
      intros y. rewrite Hfiles. destruct (decide (y = x)) as [ -> | Hne ].
      * left. apply lookup_delete_eq.
      * rewrite lookup_delete_ne by congruence. apply Hf.
Qed.

(** C6. [clearQueues] leaves both queues empty, and the view as it was,
    for every file system, that is however the deletions end.  The deletions
    themselves are carried out: when they have settled, every queued file
    whose deletion is not refused is gone and every other file is as it was.
    A deletion that fails costs nothing but a line on the console: every
    queued path that [unlink] rejects is reported under the label of its
    queue with the error's message; and when no path is queued twice, these
    lines, in the order of the queues, are all that is printed. *)
Theorem clearQueues_empties_both (fs : Fs.t) (s : t) :
  let s' := fst (fst (clearQueues fs s)) in
  let fs' := snd (fst (clearQueues fs s)) in
  let log := snd (clearQueues fs s) in
  screenshotQueue s' = [] /\
  extraScreenshotQueue s' = [] /\
  view s' = view s /\
  Fs.denied fs' = Fs.denied fs /\
  (forall p,
     Fs.files fs' !! p =
       if bool_decide ((p ∈ screenshotQueue s \/ p ∈ extraScreenshotQueue s)
                       /\ p ∉ Fs.denied fs)
       then None else Fs.files fs !! p) /\
  (forall p e,
     In p (screenshotQueue s) -> Fs.unlink fs p = inl e ->
     In ("Error deleting screenshot at " +:+ p +:+ ": " +:+ message e) log) /\
  (forall p e,
     In p (extraScreenshotQueue s) -> Fs.unlink fs p = inl e ->
     In ("Error deleting extra screenshot at " +:+ p +:+ ": " +:+ message e) log) /\
  (List.NoDup (screenshotQueue s ++ extraScreenshotQueue s) ->
   log = failures "Error deleting screenshot at " fs (screenshotQueue s) ++
         failures "Error deleting extra screenshot at " fs (extraScreenshotQueue s)).
Proof.
  cbv zeta. unfold clearQueues.
  destruct (unlinkEach_files "Error deleting screenshot at " (screenshotQueue s) fs)
    as [Hd1 Hf1].
  assert (Hlog1 : List.NoDup (screenshotQueue s) ->
            snd (unlinkEach "Error deleting screenshot at " fs (screenshotQueue s))
            = failures "Error deleting screenshot at " fs (screenshotQueue s)).
  { intros Hnd. now apply unlinkEach_log. }
  assert (Hrep1 : forall p e,
            In p (screenshotQueue s) -> Fs.unlink fs p = inl e ->
            In ("Error deleting screenshot at " +:+ p +:+ ": " +:+ message e)
               (snd (unlinkEach "Error deleting screenshot at " fs (screenshotQueue s)))).
  { intros p e Hin He. eapply unlinkEach_reports; eauto. }
  destruct (unlinkEach _ fs (screenshotQueue s)) as [fs1 log1]. cbn [fst snd] in *.
  destruct (unlinkEach_files "Error deleting extra screenshot at "
              (extraScreenshotQueue s) fs1) as [Hd2 Hf2].
  assert (Hlog2 : List.NoDup (screenshotQueue s ++ extraScreenshotQueue s) ->
            snd (unlinkEach "Error deleting extra screenshot at " fs1
                   (extraScreenshotQueue s))
            = failures "Error deleting extra screenshot at " fs (extraScreenshotQueue s)).
  { intros Hnd. apply NoDup_ListNoDup, NoDup_app in Hnd.
    destruct Hnd as (_ & Hdisj & Hnd2). apply NoDup_ListNoDup in Hnd2.
    apply unlinkEach_log; [ exact Hnd2 | exact Hd1 | ].
    intros p Hp. rewrite Hf1. rewrite bool_decide_eq_false_2; [ reflexivity | ].
    intros [Hq1 _]. apply (Hdisj p Hq1). now apply list_elem_of_In. }
  assert (Hrep2 : forall p e,
            In p (extraScreenshotQueue s) -> Fs.unlink fs p = inl e ->
            In ("Error deleting extra screenshot at " +:+ p +:+ ": " +:+ message e)
               (snd (unlinkEach "Error deleting extra screenshot at " fs1
                       (extraScreenshotQueue s)))).
  { intros p e Hin He. eapply unlinkEach_reports; eauto.
    intros x. rewrite Hf1. destruct (bool_decide _); auto. }
  cbn [extraScreenshotQueue screenshotQueue view].
  destruct (unlinkEach _ fs1 (extraScreenshotQueue s)) as [fs2 log2]. cbn [fst snd] in *.
  split; [ reflexivity | ]. split; [ reflexivity | ]. split; [ reflexivity | ].
  split; [ congruence | ]. split; [ | split; [ | split ] ].
  - intros p. rewrite Hf2, Hf1, Hd1.
    destruct (decide (p ∉ Fs.denied fs)) as [ Hnd | Hden ].
    + destruct (decide (p ∈ extraScreenshotQueue s)) as [ He | He ].
      * rewrite !bool_decide_eq_true_2 by tauto. reflexivity.
      * rewrite (bool_decide_eq_false_2 (p ∈ extraScreenshotQueue s /\ _)) by tauto.
        apply (f_equal (fun b : bool => if b then None else Fs.files fs !! p)).
        apply bool_decide_ext. tauto.
    + rewrite !bool_decide_eq_false_2 by tauto. reflexivity.
  - intros p e Hin He. apply in_or_app. left. now apply Hrep1.
  - intros p e Hin He. apply in_or_app. right. now apply Hrep2.
  - intros Hnd. rewrite Hlog2 by exact Hnd. rewrite Hlog1; [ reflexivity | ].
    apply NoDup_ListNoDup, NoDup_app in Hnd. apply NoDup_ListNoDup. tauto.
Qed.

(** Three captures on a disk that holds the first and the third and lets
    nobody delete the third: the first goes, the other two are reported. *)
Lemma clearQueues_empties_both_witness :
  let fs := Fs.mk {[ "/s/a.png" := "PNG"; "/s/c.png" := "PNG" ]} {[ "/s/c.png" ]} in
  let s := mk ["/s/a.png"; "/s/b.png"] ["/s/c.png"] solutions in
  fst (fst (clearQueues fs s)) = mk [] [] solutions /\
  Fs.files (snd (fst (clearQueues fs s))) !! "/s/a.png" = None /\
  Fs.files (snd (fst (clearQueues fs s))) !! "/s/c.png" = Some "PNG" /\
  snd (clearQueues fs s) =
    ["Error deleting screenshot at /s/b.png: ENOENT: no such file or directory, unlink";
     "Error deleting extra screenshot at /s/c.png: EACCES: permission denied, unlink"].
Proof.
  cbv zeta.
  pose proof (clearQueues_empties_both
                (Fs.mk {[ "/s/a.png" := "PNG"; "/s/c.png" := "PNG" ]} {[ "/s/c.png" ]})
                (mk ["/s/a.png"; "/s/b.png"] ["/s/c.png"] solutions))
    as (H1 & H2 & H3 & _ & Hfiles & _ & _ & Hlog).
  split; [ | split; [ | split ] ].
  - destruct (fst (fst (clearQueues _ _))) as [q e v]. simpl in *. congruence.
  - rewrite Hfiles. vm_compute. reflexivity.
  - rewrite Hfiles. vm_compute. reflexivity.
  - rewrite Hlog; [ vm_compute; reflexivity | ].
    simpl. repeat (constructor; [ simpl; intuition discriminate | ]). constructor.
Defined.

(** Deletions that fail are reported on the console, one line per path. *)
Lemma unlinkEach_all_fail (label : string) (fs : Fs.t) (q : list string) :
  (forall p, In p q -> exists e, Fs.unlink fs p = inl e) ->
  fst (unlinkEach label fs q) = fs /\
  length (snd (unlinkEach label fs q)) = length q.
Proof.
  induction q as [ | p q IH ]; intros Hall; simpl; [ auto | ].
  destruct (Hall p (or_introl eq_refl)) as [e He]. rewrite He.
  destruct IH as [IH1 IH2]; [ intros; apply Hall; now right | ].
  destruct (unlinkEach label fs q) as [fs'' log]. simpl in *. auto.
Qed.

(** C5 (as amended). [deleteScreenshot] touches the queues only after
    [unlink] has succeeded, and then filters the path out of the queue the
    current view selects, leaving the other queue as it was; when [unlink]
    throws, queues and file system are unchanged and the result carries
    [success = false] with the error message. *)
Theorem deleteScreenshot_gated_on_unlink (fs : Fs.t) (s : t) (path : string) :
  match Fs.unlink fs path with
  | inr fs1 =>
      let '(r, s', fs') := deleteScreenshot fs s path in
      success r = true /\ error r = None /\ fs' = fs1 /\
      view s' = view s /\
      targetQueue s' = removePath path (targetQueue s) /\
      ~ In path (targetQueue s') /\
      otherQueue s' = otherQueue s
  | inl e =>
      deleteScreenshot fs s path = (mkOutcome false (Some (message e)), s, fs)
  end.
Proof.
  unfold deleteScreenshot. destruct (Fs.unlink fs path) as [e | fs1]; [ reflexivity | ].
  assert (Hrm : forall q, ~ In path (removePath path q)).
  { intros q Hin. unfold removePath in Hin.
    apply list_elem_of_In, list_elem_of_filter in Hin. destruct Hin as [Hne _].
    now apply Hne. }
  unfold targetQueue, otherQueue.
  destruct (view s) eqn:Hv; simpl; rewrite ?Hv; repeat split; auto.
Qed.

(** C5, the claim as worded fails: in [queue] view a capture held by the
    secondary queue is deleted from disk, the call reports success, and the
    reference stays in the secondary queue. *)
Lemma deleteScreenshot_ignores_other_queue :
  let fs := Fs.mk {[ "/x/a.png" := "PNG" ]} ∅ in
  let s := mk [] ["/x/a.png"] queue in
  let '(r, s', fs') := deleteScreenshot fs s "/x/a.png" in
  success r = true /\
  Fs.existsSync fs' "/x/a.png" = false /\
  extraScreenshotQueue s' = ["/x/a.png"].
Proof. vm_compute. auto. Qed.

End QueueFacts.

(** ** The image preprocessor *)

Module ImageFacts.

Lemma existsSync_true (d : Fs.t) (p : string) :
  Fs.existsSync d p = true <-> exists c, Fs.files d !! p = Some c.
Proof.
  unfold Fs.existsSync. rewrite bool_decide_eq_true. reflexivity.
Qed.

(** When the ImageMagick strategy returns, it returns the normalized path
    and that file exists and is not empty. *)
Lemma magickStrategy_checked (os : Os.t) (inputPath np q : string) (d d1 : Fs.t) :
  ProcessingHelper.magickStrategy os inputPath np d = (inr q, d1) ->
  q = np /\ Fs.usable d1 np.
Proof.
  unfold ProcessingHelper.magickStrategy, Io.bind, Io.exec.
  destruct (Os.exec os _ d) as [[e | dims] d0]; [ discriminate | ].
  set (small := atMost _ _ && atMost _ _).
  destruct small;
    (match goal with
     | |- context [Os.exec os ?c ?d0] =>
         destruct (Os.exec os c d0) as [[e | out] d2]; [ discriminate | ]
     end);
    unfold Io.existsSync, Io.statSync_size, Io.ret, Io.raise, Fs.statSync_size;
    (destruct (Fs.existsSync d2 np) eqn:Hex; [ | discriminate ]);
    apply existsSync_true in Hex; destruct Hex as [c Hc]; rewrite Hc; simpl;
    (destruct (0 <? String.length c)%nat eqn:Hsz; [ | discriminate ]);
    intros H; inversion H; subst; (split; [ reflexivity | ]);
    exists c; (split; [ assumption | ]); now apply Nat.ltb_lt.
Qed.

(** C9 (as amended). [normalizeImage] never throws.  A normalized file that
    is already there is returned as it is; otherwise the result of the
    ImageMagick strategy is returned only after the check that the output
    exists and is not empty, the simplified processing and the verbatim copy
    are returned unchecked, and when all three have thrown the answer is the
    input path itself. *)
Theorem normalizeImage_never_throws (os : Os.t) (inputPath : string) (d : Fs.t) :
  let np := ProcessingHelper.normalizedPathOf os inputPath in
  exists p d',
    ProcessingHelper.normalizeImage os inputPath d = (inr p, d') /\
    if Fs.existsSync d np then p = np /\ d' = d
    else
      match ProcessingHelper.magickStrategy os inputPath np d with
      | (inr _, d1) => p = np /\ d' = d1 /\ Fs.usable d1 np
      | (inl _, d1) =>
          match ProcessingHelper.simplifiedStrategy os inputPath np d1 with
          | (inr _, d2) => p = np /\ d' = d2
          | (inl _, d2) =>
              match Fs.copyFileSync d2 inputPath np with
              | inr d3 =>
                  p = np /\ d' = d3 /\ Fs.files d3 !! np = Fs.files d2 !! inputPath
              | inl _ => p = inputPath /\ d' = d2
              end
          end
      end.
Proof.
  intros np. unfold ProcessingHelper.normalizeImage, Io.tryCatch, Io.bind, Io.existsSync.
  fold np. destruct (Fs.existsSync d np) eqn:Hex.
  - exists np, d. simpl. auto.
  - destruct (ProcessingHelper.magickStrategy os inputPath np d) as [[e | q] d1] eqn:Hm.
    + destruct (ProcessingHelper.simplifiedStrategy os inputPath np d1)
        as [[e2 | q2] d2] eqn:Hs.
      * unfold ProcessingHelper.copyStrategy, Io.bind, Io.copyFileSync, Io.ret.
        destruct (Fs.copyFileSync d2 inputPath np) as [e3 | d3] eqn:Hc.
        -- exists inputPath, d2. auto.
        -- exists np, d3. repeat split; auto.
           unfold Fs.copyFileSync in Hc.
           destruct (Fs.files d2 !! inputPath) as [c | ] eqn:Hin; [ | discriminate ].
           destruct (bool_decide _); [ discriminate | ].
           inversion Hc; subst. simpl. apply lookup_insert_eq.
      * exists q2, d2. split; [ reflexivity | ].
        unfold ProcessingHelper.simplifiedStrategy, Io.bind, Io.exec, Io.ret in Hs.
        destruct (Os.exec os _ d1) as [[e3 | out] d3]; inversion Hs; subst. auto.
    + exists q, d1. split; [ reflexivity | ].
      destruct (magickStrategy_checked os inputPath np q d d1 Hm) as [-> Hu]. auto.
Qed.

(** The static [ScreenshotHelper.normalizeImage] has two strategies and the
    same outer [catch]. *)
Lemma static_normalizeImage_never_throws (os : Os.t) (inputPath : string) (d : Fs.t) :
  exists p d', ScreenshotHelper.normalizeImage os inputPath d = (inr p, d').
Proof.
  unfold ScreenshotHelper.normalizeImage, Io.tryCatch, Io.bind, Io.existsSync, Io.ret.
  destruct (Fs.existsSync d _); [ eauto | ].
  destruct (ScreenshotHelper.magickStrategy os inputPath _ d) as [[e | q] d1]; [ | eauto ].
  unfold Io.copyFileSync. destruct (Fs.copyFileSync d1 _ _); eauto.
Qed.

(** C9, the claim as worded fails.  (1) All three strategies throw (no
    ImageMagick, and the capture to copy is missing), yet [normalizeImage]
    answers normally, with a path at which there is no file.  (2) A
    normalized file that exists but is empty is answered as it is.  (3) When
    the simplified processing ends normally without writing its output, the
    normalized path is answered although no file is there. *)
Lemma normalizeImage_swallows_total_failure :
  (let r := ProcessingHelper.normalizeImage Scenario.bareMachine
              "/userData/screenshots/a.png" Scenario.emptyDisk in
   fst r = inr "/userData/screenshots/a.png" /\
   Fs.existsSync (snd r) "/userData/screenshots/a.png" = false /\
   (exists e, fst (ProcessingHelper.magickStrategy Scenario.bareMachine
                     "/userData/screenshots/a.png" "/userData/normalized/a.png"
                     Scenario.emptyDisk) = inl e) /\
   (exists e, fst (ProcessingHelper.simplifiedStrategy Scenario.bareMachine
                     "/userData/screenshots/a.png" "/userData/normalized/a.png"
                     Scenario.emptyDisk) = inl e) /\
   (exists e, fst (ProcessingHelper.copyStrategy "/userData/screenshots/a.png"
                     "/userData/normalized/a.png" Scenario.emptyDisk) = inl e)) /\
  (let r := ProcessingHelper.normalizeImage Scenario.bareMachine
              "/userData/screenshots/a.png" Scenario.staleDisk in
   fst r = inr "/userData/normalized/a.png" /\
   Fs.statSync_size (snd r) "/userData/normalized/a.png" = inr 0) /\
  (let r := ProcessingHelper.normalizeImage Scenario.idleMachine
              "/userData/screenshots/a.png" Scenario.disk0 in
   fst r = inr "/userData/normalized/a.png" /\
   Fs.existsSync (snd r) "/userData/normalized/a.png" = false).
Proof.
  vm_compute. repeat split; eauto.
Qed.

End ImageFacts.

(** ** Asynchronous code: equations of [run] and [advance] *)

Module AsyncFacts.
Import Async.

Lemma run_bind {A B} (w : World) (p : Proc A) (f : A -> Proc B) (s : Sys) :
  run w (bind p f) s =
    match run w p s with
    | (inr a, s') => run w (f a) s'
    | (inl e, s') => (inl e, s')
    end.
Proof.
  revert s. induction p as [ a | e | k IH | s0 k IH | R r k IH ]; intros s; simpl; auto.
  destruct (answer w r s) as [x d]. apply IH.
Qed.

Lemma run_tryCatch {A} (w : World) (p : Proc A) (h : Error -> Proc A) (s : Sys) :
  run w (tryCatch p h) s =
    match run w p s with
    | (inr a, s') => (inr a, s')
    | (inl e, s') => run w (h e) s'
    end.
Proof.
  revert s. induction p as [ a | e | k IH | s0 k IH | R r k IH ]; intros s; simpl; auto.
  destruct (answer w r s) as [x d]. apply IH.
Qed.

Lemma run_tryFinally {A} (w : World) (p : Proc A) (final : Proc unit) (s : Sys) :
  run w (tryFinally p final) s =
    match run w p s with
    | (inr a, s') =>
        match run w final s' with
        | (inr _, s'') => (inr a, s'')
        | (inl e, s'') => (inl e, s'')
        end
    | (inl e, s') =>
        match run w final s' with
        | (inr _, s'') => (inl e, s'')
        | (inl e', s'') => (inl e', s'')
        end
    end.
Proof.
  revert s. induction p as [ a | e | k IH | s0 k IH | R r k IH ]; intros s; simpl; auto.
  - rewrite run_bind. destruct (run w final s) as [[e | []] s']; reflexivity.
  - rewrite run_bind. destruct (run w final s) as [[e' | []] s']; reflexivity.
  - destruct (answer w r s) as [x d]. apply IH.
Qed.

(** *** State invariants of asynchronous code *)
Section Invariant.

Variable Q : Sys -> Prop.

Local Abbreviation Keeps := (@Keeps Q _).

Hypothesis Q_settle : forall d s, Q s -> Q (settle d s).

Lemma Keeps_run {A} (w : World) (p : Proc A) (s : Sys) :
  Keeps p -> Q s -> Q (snd (run w p s)).
Proof.
  intros Hp. revert s.
  induction Hp as [ a | e | k Hk IH | s0 k Hs Hk IH | R r k Hk IH ]; intros s Hs'; simpl; auto.
  destruct (answer w r s) as [x d]. apply IH. now apply Q_settle.
Qed.

Lemma Keeps_bind {A B} (p : Proc A) (f : A -> Proc B) :
  Keeps p -> (forall a, Keeps (f a)) -> Keeps (bind p f).
Proof.
  intros Hp Hf.
  induction Hp as [ a | e | k Hk IH | s0 k Hs Hk IH | R r k Hk IH ]; simpl; auto;
    constructor; auto.
Qed.

Lemma Keeps_tryCatch {A} (p : Proc A) (h : Error -> Proc A) :
  Keeps p -> (forall e, Keeps (h e)) -> Keeps (tryCatch p h).
Proof.
  intros Hp Hh.
  induction Hp as [ a | e | k Hk IH | s0 k Hs Hk IH | R r k Hk IH ]; simpl; auto;
    constructor; auto.
Qed.

Lemma Keeps_tryFinally {A} (p : Proc A) (final : Proc unit) :
  Keeps p -> Keeps final -> Keeps (tryFinally p final).
Proof.
  intros Hp Hf.
  induction Hp as [ a | e | k Hk IH | s0 k Hs Hk IH | R r k Hk IH ]; simpl;
    try (constructor; now auto).
  - apply Keeps_bind; [ assumption | intros; constructor ].
  - apply Keeps_bind; [ assumption | intros; constructor ].
Qed.

Lemma Keeps_get_bind {A} (f : Sys -> Proc A) :
  (forall s, Q s -> Keeps (f s)) -> Keeps (bind get f).
Proof. intros Hf. simpl. constructor. exact Hf. Qed.

Lemma Keeps_modify (f : Sys -> Sys) :
  (forall s, Q s -> Q (f s)) -> Keeps (modify f).
Proof. intros Hf. constructor. intros s Hs. constructor; [ auto | constructor ]. Qed.

Lemma Keeps_await {R} (r : Req R) : Keeps (await r).
Proof. constructor. intros [e | v]; constructor. Qed.

Lemma Keeps_lift {A} (x : Throws A) : Keeps (lift x).
Proof. destruct x; constructor. Qed.

Lemma Keeps_send (ev : Event) :
  (forall s, Q s -> Q (set_ipc (ipc s ++ [ev]) s)) -> Keeps (send ev).
Proof.
  intros Hev. constructor. intros s Hs.
  destruct (mainWindow s) as [ [ [ | ] ] | ]; repeat constructor; auto.
Qed.

End Invariant.

End AsyncFacts.

(** ** Capturing the screen *)

Module CaptureFacts.
Import Async.

(** C10. With [screenshotInProgress] set, [takeScreenshot] settles in its
    first synchronous stretch: it returns the empty string, no promise is
    awaited at all (so the capture is never started), it does not throw, and
    the state, the queues and the messages sent included, is what it was. *)
Theorem takeScreenshot_debounced (s : Sys) :
  screenshotInProgress s = true ->
  advance Main.takeScreenshot s = (Settled (inr ""), s) /\
  forall w, run w Main.takeScreenshot s = (inr "", s).
Proof.
  intros H. unfold Main.takeScreenshot, get.
  cbn [bind advance run]. rewrite H. split; reflexivity.
Qed.

Lemma takeScreenshot_debounced_witness :
  advance Main.takeScreenshot Scenario.busy = (Settled (inr ""), Scenario.busy) /\
  forall w, run w Main.takeScreenshot Scenario.busy = (inr "", Scenario.busy).
Proof. apply (takeScreenshot_debounced Scenario.busy). reflexivity. Defined.

(** The flag is raised before the first suspension, so a second call made
    while the first waits for the capture takes the path above. *)
Lemma takeScreenshot_raises_flag (s : Sys) :
  screenshotInProgress s = false ->
  mainWindow s = Some (mkWindow false) ->
  exists R (r : Req R) k s',
    advance Main.takeScreenshot s = (Pending r k, s') /\
    screenshotInProgress s' = true.
Proof.
  intros Hf Hw. destruct s as [mw vis v pi hd inprog sh c1 c2 ab ctl clk d msgs].
  simpl in Hf, Hw. subst inprog mw.
  destruct vis; simpl; eauto 10.
Qed.

End CaptureFacts.

(** ** The debug pipeline *)

Module DebugFacts.
Import Async AsyncFacts.

Lemma Dropped_settle (t0 : list Event) (d : Fs.t) (s : Sys) :
  Dropped t0 s -> Dropped t0 (settle d s).
Proof. intros H. exact H. Qed.

Lemma Dropped_frame (t0 : list Event) (s s' : Sys) :
  problemInfo s' = problemInfo s -> ipc s' = ipc s -> Dropped t0 s -> Dropped t0 s'.
Proof. unfold Dropped. intros -> ->. auto. Qed.

Lemma Dropped_send (t0 : list Event) (ev : Event) (s : Sys) :
  notDebugSuccess ev -> Dropped t0 s -> Dropped t0 (set_ipc (ipc s ++ [ev]) s).
Proof.
  intros Hev [Hp (evs & Hi & Hall)]. split; [ exact Hp | ].
  exists (evs ++ [ev]). simpl. rewrite Hi, <- app_assoc. split; [ reflexivity | ].
  apply Forall_app. split; [ assumption | ]. constructor; [ assumption | constructor ].
Qed.

Lemma cancelOngoingRequests_drops (w : World) (s : Sys) :
  exists s1,
    run w ProcessingHelper.cancelOngoingRequests s = (inr tt, s1) /\
    Dropped (ipc s) s1.
Proof.
  destruct s as [mw vis v pi hd inprog sh c1 c2 ab ctl clk d msgs].
  assert (Hn : notDebugSuccess NO_SCREENSHOTS) by (intros info; discriminate).
  destruct c1 as [ c1 | ], c2 as [ c2 | ], mw as [ [ [ | ] ] | ]; simpl;
    eexists; (split; [ reflexivity | ]); (split; [ reflexivity | ]); simpl;
    first [ exists []; rewrite app_nil_r; split; [ reflexivity | constructor ]
          | exists [NO_SCREENSHOTS]; split; [ reflexivity | repeat constructor; assumption ] ].
Qed.

Section Kept.

Variable t0 : list Event.

Let K {A} := @Keeps (Dropped t0) A.

Lemma Keeps_waitFor (n : nat) : K (ProcessingHelper.waitFor n).
Proof.
  induction n as [ | n IH ]; simpl; [ constructor | ].
  constructor. intros [ e | [ | ] ]; simpl; try constructor.
  intros [ e | [] ]; simpl; [ constructor | exact IH ].
Qed.

Lemma Keeps_debugError (msg : string) : K (send (DEBUG_ERROR msg)).
Proof.
  apply Keeps_send. intros s Hs. apply Dropped_send; [ | assumption ].
  intros info. discriminate.
Qed.

(** With the description gone, the helper can only report an error. *)
Lemma Keeps_helper (screenshots : list (string * string)) (signal : nat) :
  K (ProcessingHelper.processExtraScreenshotsHelper screenshots signal).
Proof.
  unfold ProcessingHelper.processExtraScreenshotsHelper.
  apply Keeps_get_bind. intros s Hs.
  destruct (isAborted signal s); [ constructor | ].
  destruct (Main.getMainWindow s); [ | constructor ].
  apply Keeps_tryCatch.
  - apply Keeps_get_bind. intros s1 [Hp1 Hev1].
    unfold Main.getProblemInfo. rewrite Hp1. cbn [Main.present].
    apply Keeps_debugError.
  - intros e. apply Keeps_get_bind. intros s1 Hs1.
    destruct (isAborted signal s1); [ constructor | apply Keeps_debugError ].
Qed.

Lemma Keeps_afterCancel :
  K (s <- get ;;
            match Main.getMainWindow s with
            | None => Ret tt
            | Some _ =>
                tryFinally
                  (tryCatch
                     (ProcessingHelper.waitForInitialization ;;
                      s <- get ;;
                      let extraScreenshots := Main.getExtraScreenshotQueue s in
                      if (length extraScreenshots =? 0)%nat then
                        send (DEBUG_ERROR
                          "No extra screenshots to process. Please take additional screenshots first.")
                      else
                        controller <- newAbortController ;;
                        modify (set_currentExtraProcessingAbortController (Some controller)) ;;
                        send DEBUG_START ;;
                        s <- get ;;
                        let screenshotsData :=
                          map (ProcessingHelper.readScreenshot (disk s)) extraScreenshots in
                        ProcessingHelper.processExtraScreenshotsHelper
                          (List.filter (fun sd => Js.truthy (snd sd)) screenshotsData)
                          controller)
                     (fun error =>
                        send (DEBUG_ERROR
                                (Js.orElse (message error)
                                   "Unknown error processing extra screenshots"))))
                  (modify (set_currentExtraProcessingAbortController None))
            end)%proc.
Proof.
  apply Keeps_get_bind. intros s Hs. destruct (Main.getMainWindow s); [ | constructor ].
  apply Keeps_tryFinally; [ | apply Keeps_modify; intros s1; now apply Dropped_frame ].
  apply Keeps_tryCatch; [ | intros e; apply Keeps_debugError ].
  apply Keeps_bind; [ apply Keeps_waitFor | intros _ ].
  apply Keeps_get_bind. intros s1 Hs1. cbv zeta.
  destruct (length (Main.getExtraScreenshotQueue s1) =? 0)%nat; [ apply Keeps_debugError | ].
  apply Keeps_bind.
  { constructor. intros s2 Hs2. constructor; [ | constructor ].
    revert Hs2. now apply Dropped_frame. }
  intros controller.
  apply Keeps_bind; [ apply Keeps_modify; intros s2; now apply Dropped_frame | intros _ ].
  apply Keeps_bind.
  { apply Keeps_send. intros s2 Hs2. apply Dropped_send; [ | assumption ].
    intros info. discriminate. }
  intros _. apply Keeps_get_bind. intros s2 Hs2. cbv zeta.
  apply Keeps_helper.
Qed.

End Kept.

(** C1. Whatever the world answers, [processExtraScreenshots] ends with no
    problem description at all and never sends [DEBUG_SUCCESS]: its first
    statement, [cancelOngoingRequests], stores [null], and the helper that
    would merge the analyses then finds nothing to merge into. *)
Theorem processExtraScreenshots_drops_problemInfo (w : World) (s : Sys) :
  let s' := snd (run w ProcessingHelper.processExtraScreenshots s) in
  problemInfo s' = None /\
  exists evs, ipc s' = ipc s ++ evs /\ Forall notDebugSuccess evs.
Proof.
  intros s'. subst s'. unfold ProcessingHelper.processExtraScreenshots.
  rewrite run_bind.
  destruct (cancelOngoingRequests_drops w s) as (s1 & Hrun & Hd). rewrite Hrun.
  apply (Keeps_run (Dropped (ipc s)) (Dropped_settle (ipc s))); [ | exact Hd ].
  apply Keeps_afterCancel.
Qed.

(** The failing input of C1, evaluated: a description is stored, a
    follow-up capture is queued and readable, the model answers. *)
Example processExtraScreenshots_on_existing_problem :
  let s' := snd (run Scenario.world ProcessingHelper.processExtraScreenshots
                     Scenario.debugging) in
  problemInfo Scenario.debugging = Some Scenario.problem /\
  problemInfo s' = None /\
  ipc s' = [DEBUG_START; DEBUG_ERROR "No problem information available to enhance."].
Proof. vm_compute. auto. Qed.

(** What the helper does when it is given a description: the merge that
    the claim describes. *)
Lemma withExtraInfo_frame (fields : gmap string JsVal) (extra k : string) :
  field (ProcessingHelper.withExtraInfo (JObj fields) extra) k =
    if String.eqb k "extraInfo" then Some (JStr extra) else fields !! k.
Proof.
  unfold ProcessingHelper.withExtraInfo, field, spread.
  destruct (String.eqb_spec k "extraInfo") as [ -> | Hne ].
  - apply lookup_insert_eq.
  - apply lookup_insert_ne. congruence.
Qed.

Example helper_merges_when_description_present :
  let s := Scenario.debugging in
  let s' := snd (run Scenario.world
                   (ProcessingHelper.processExtraScreenshotsHelper
                      [("/userData/screenshots/b.png", "UE5HLUI=")] 0) s) in
  problemInfo s' =
    Some (ProcessingHelper.withExtraInfo Scenario.problem "Given n, return twice n.") /\
  ipc s' =
    [DEBUG_SUCCESS (ProcessingHelper.withExtraInfo Scenario.problem "Given n, return twice n.")].
Proof. vm_compute. auto. Qed.

End DebugFacts.

(** ** The initial pipeline and its cancellation *)

Module SupersedeFacts.
Import AsyncFacts.

(** Run A, resumed four times, has finished the OCR of its only capture and
    waits for the analysis. *)
Example runA_waits_for_analysis :
  Scenario.waitingFor (fst (Scenario.runA 4)) = "AxiosPost" /\
  ipc (snd (Scenario.runA 4)) = [INITIAL_START].
Proof. vm_compute. auto. Qed.

(** C2. Run B starts while run A waits for the analysis: axios rejects the
    request of run A, and the outer [catch] of [processScreenshots], which
    does not look at [signal.aborted], sends [INITIAL_SOLUTION_ERROR].  The
    same happens when run A is still in the OCR of its capture. *)
Theorem superseded_run_reports_error :
  Scenario.supersede 4 =
    ("returned", [INITIAL_START; INITIAL_START], [INITIAL_SOLUTION_ERROR "canceled"]) /\
  Scenario.supersede 2 =
    ("returned", [INITIAL_START; INITIAL_START], [INITIAL_SOLUTION_ERROR "canceled"]).
Proof. vm_compute. auto. Qed.

(** The OCR loop only waits: window, signals and messages are as before. *)
Lemma run_ocrAll_frame (w : World) (q : list string) :
  forall s,
    let s' := snd (run w (ProcessingHelper.ocrAll q) s) in
    mainWindow s' = mainWindow s /\ aborted s' = aborted s /\ ipc s' = ipc s.
Proof.
  induction q as [ | path q IH ]; intros s; [ simpl; auto | ].
  cbn [ProcessingHelper.ocrAll]. rewrite run_bind.
  assert (Hone : forall s0,
            let s1 := snd (run w (ProcessingHelper.ocrScreenshot path) s0) in
            mainWindow s1 = mainWindow s0 /\ aborted s1 = aborted s0 /\ ipc s1 = ipc s0).
  { intros s0. unfold ProcessingHelper.ocrScreenshot, ProcessingHelper.ocr, Async.get,
      Async.await. simpl.
    destruct (negb _); simpl;
      destruct (recognize w _ _ _) as [ e | text ]; simpl; auto. }
  specialize (Hone s).
  destruct (run w (ProcessingHelper.ocrScreenshot path) s) as [ [ e | item ] s1 ];
    simpl in Hone; [ exact Hone | ].
  rewrite run_bind. specialize (IH s1).
  destruct (run w (ProcessingHelper.ocrAll q) s1) as [ [ e | items ] s2 ];
    simpl in IH |- *; destruct Hone as (H1 & H2 & H3), IH as (H4 & H5 & H6);
    repeat split; congruence.
Qed.

(** A run whose signal is aborted before its analysis request is issued or
    settled, wherever it stands in the OCR of a queue [q], ends by sending
    [INITIAL_SOLUTION_ERROR], whatever the world answers. *)
Lemma aborted_run_reports_error (JSON_parse : string -> Throws JsVal)
  (JSON_stringify : JsVal -> string) (w : World) (q : list string)
  (signal : nat) (s : Sys) :
  mainWindow s = Some (mkWindow false) ->
  Async.isAborted signal s = true ->
  exists msg s',
    run w (Async.tryCatch
             (screenshotDataArray <- ProcessingHelper.ocrAll q ;;
              ProcessingHelper.analyseAndPublish JSON_parse JSON_stringify
                (Js.join (nl +:+ nl) (map snd screenshotDataArray)) signal)%proc
             ProcessingHelper.reportFailure) s = (inr tt, s') /\
    ipc s' = ipc s ++ [INITIAL_SOLUTION_ERROR msg].
Proof.
  intros Hw Hab. rewrite run_tryCatch, run_bind.
  destruct (run_ocrAll_frame w q s) as (H1 & H2 & H3).
  destruct (run w (ProcessingHelper.ocrAll q) s) as [ [ e | data ] s1 ]; simpl in H1, H2, H3.
  - assert (Hw1 : mainWindow s1 = Some (mkWindow false)) by congruence.
    exists (message e). unfold ProcessingHelper.reportFailure, Async.get, Main.getMainWindow,
      Async.send.
    cbn [Async.bind run]. rewrite Hw1. cbn [Async.bind run]. rewrite Hw1.
    cbn [isDestroyed run]. eexists. split; [ reflexivity | ].
    simpl. now rewrite H3.
  - assert (Hw1 : mainWindow s1 = Some (mkWindow false)) by congruence.
    assert (Hab1 : Async.isAborted signal s1 = true).
    { unfold Async.isAborted in *. now rewrite H2. }
    exists "canceled". unfold ProcessingHelper.analyseAndPublish, Async.await.
    cbn [Async.bind Async.tryCatch run answer]. rewrite Hab1.
    cbn [Async.bind Async.tryCatch run throw].
    unfold ProcessingHelper.reportFailure, Async.get, Main.getMainWindow, Async.send.
    cbn [Async.bind run settle set_clock set_disk mainWindow]. rewrite Hw1.
    cbn [run settle set_clock set_disk mainWindow]. rewrite Hw1. cbn [isDestroyed run].
    eexists. split; [ reflexivity | ]. simpl. now rewrite H3.
Qed.

(** Superseded while it waits for the solution, run A stays silent: the
    [catch] of [generateSolutionsHelper] does test [signal.aborted]. *)
Example superseded_during_solution_is_silent :
  Scenario.waitingFor (fst (Scenario.runA 5)) = "AxiosPost" /\
  (exists info, ipc (snd (Scenario.runA 5)) = [INITIAL_START; PROBLEM_EXTRACTED info]) /\
  fst (Scenario.supersede 5) = ("returned", ipc (snd (Scenario.runA 5)) ++ [INITIAL_START]) /\
  snd (Scenario.supersede 5) = [].
Proof. vm_compute. eauto 10. Qed.

End SupersedeFacts.

(** ** The regular-expression matcher *)

Module RegExpFacts.
Import RegExp.

Lemma orTry_is_Some {A} (a : option A) (b : unit -> option A) :
  is_Some (orTry a b) <-> is_Some a \/ is_Some (b tt).
Proof.
  destruct a as [ x | ]; simpl; split; intros H; eauto.
  - destruct H as [ [y Hy] | H ]; [ discriminate | exact H ].
Qed.

Lemma repeat_mono atom greedy mn mx gs :
  Mono atom ->
  forall fuel count, Mono (fun st k => repeat_ atom greedy mn mx gs k fuel count st).
Proof.
  intros Hatom fuel.
  induction fuel as [ | fuel IHf ]; intros count st k k' Hk; cbn [repeat_];
    destruct greedy; rewrite !orTry_is_Some;
    (intros [ H | H ]; [ left | right ]); revert H;
    try (destruct (mn <=? count)%nat; now auto);
    try (intros [y Hy]; discriminate);
    (destruct (reached mx count); [ now auto | ]);
    apply Hatom; intros s;
    (destruct ((mn <=? count)%nat && (idx s =? idx st)%nat); [ now auto | ]);
    apply (IHf (S count) s k k' Hk).
Qed.

(** A match that succeeds under one continuation succeeds under every
    continuation that accepts at least as much. *)
Lemma m_mono (fl : Flags) (r : Re) : Mono (m fl r).
Proof.
  induction r as [ | c | neg items | | a IHa b IHb | a IHa b IHb
                 | greedy mn mx a IHa | i a IHa | a IHa | | ];
    intros st k k' Hk; simpl.
  - apply Hk.
  - destruct (rest st) as [ | x t ]; [ auto | ]. destruct (chrEq fl c x); auto.
  - destruct (rest st) as [ | x t ]; [ auto | ].
    destruct (xorb neg (itemsHave fl items x)); auto.
  - destruct (rest st) as [ | x t ]; [ auto | ].
    destruct (dotAll fl || negb (isLineTerminator x)); auto.
  - apply IHa. intros s. apply IHb. exact Hk.
  - rewrite !orTry_is_Some. intros [ H | H ]; [ left | right ]; revert H.
    + now apply IHa.
    + now apply IHb.
  - apply (repeat_mono (m fl a) greedy mn mx (groupsOf a) IHa
             (S (length (rest st) + mn)) 0 st k k' Hk).
  - apply IHa. intros s. apply Hk.
  - destruct (m fl a st Some); auto.
  - destruct (idx st =? 0)%nat; auto.
  - destruct (rest st); auto.
Qed.

(** Where a pattern [a] followed by [b] matches, [a] alone matches. *)
Lemma matchAt_Seq (fl : Flags) (a b : Re) (i : nat) (l : list ascii) :
  is_Some (matchAt fl (Seq a b) i l) -> is_Some (matchAt fl a i l).
Proof.
  unfold matchAt. simpl.
  destruct (m fl a (mkState i l []) (fun st' => m fl b st' Some)) as [ st' | ] eqn:H.
  - intros _.
    assert (Hs : is_Some (m fl a (mkState i l []) Some)).
    { apply (m_mono fl a _ (fun st' => m fl b st' Some)); [ eauto | rewrite H; eauto ]. }
    destruct Hs as [st'' ->]. eauto.
  - intros [x Hx]. discriminate.
Qed.

Lemma execFrom_Seq (fl : Flags) (a b : Re) (l : list ascii) :
  forall i, is_Some (execFrom fl (Seq a b) i l) -> is_Some (execFrom fl a i l).
Proof.
  induction l as [ | c l IH ]; intros i; simpl.
  - destruct (matchAt fl (Seq a b) i []) eqn:H; [ | intros [x Hx]; discriminate ].
    intros _. destruct (matchAt_Seq fl a b i []) as [y ->]; [ rewrite H | ]; eauto.
  - destruct (matchAt fl (Seq a b) i (c :: l)) eqn:H.
    + intros _. destruct (matchAt_Seq fl a b i (c :: l)) as [y ->]; [ rewrite H | ]; eauto.
    + intros Hs. destruct (matchAt fl a i (c :: l)); [ eauto | apply IH, Hs ].
Qed.

(** A pattern whose first part occurs nowhere in the text has no match. *)
Lemma match_Seq_none (fl : Flags) (a b : Re) (s : string) :
  test fl a s = false -> match_ fl (Seq a b) s = None.
Proof.
  unfold test, match_. rewrite bool_decide_eq_false. intros Hn.
  destruct (execFrom fl (Seq a b) 0 (Js.chars s)) eqn:H; [ | reflexivity ].
  exfalso. apply Hn. apply (execFrom_Seq fl a b). rewrite H. eauto.
Qed.

Lemma splitFrom_nonempty (fl : Flags) (r : Re) (fuel : nat) :
  forall p q piece l, splitFrom fl r p q piece l fuel <> [].
Proof.
  induction fuel as [ | fuel IH ]; intros p q piece l; simpl; [ discriminate | ].
  destruct l as [ | c t ]; [ discriminate | ].
  destruct (matchAt fl r q (c :: t)) as [ mt | ]; [ | apply IH ].
  destruct (idx (after mt) =? p)%nat; [ apply IH | discriminate ].
Qed.

End RegExpFacts.

(** ** JavaScript strings *)

Module JsFacts.

Lemma str_chars (s : string) : Js.str (Js.chars s) = s.
Proof. apply string_of_list_ascii_of_string. Qed.

Lemma truthy_true (s : string) : Js.truthy s = true <-> s <> "".
Proof.
  unfold Js.truthy. destruct (String.eqb_spec s ""); simpl; split; congruence.
Qed.

Lemma orElse_nonempty_l (a b : string) : a <> "" -> Js.orElse a b = a.
Proof. intros H. unfold Js.orElse. apply truthy_true in H. now rewrite H. Qed.

(** [a || b] is empty only when [b] is. *)
Lemma orElse_nonempty (a b : string) : b <> "" -> Js.orElse a b <> "".
Proof.
  intros Hb. unfold Js.orElse. destruct (Js.truthy a) eqn:Ha; [ | exact Hb ].
  now apply truthy_true.
Qed.

Lemma substring_nonempty (s : string) (n : nat) :
  s <> "" -> 0 < n -> Js.substring s 0 n <> "".
Proof.
  intros Hs Hn. unfold Js.substring, Js.chars, Js.str.
  destruct s as [ | c s ]; [ congruence | ].
  destruct n as [ | n ]; [ lia | ]. simpl. discriminate.
Qed.

End JsFacts.

(** ** The response interpreter *)

Module InterpreterFacts.
Import Interpreter.

Section WithJSON.

Variable JSON_parse : string -> Throws JsVal.

Lemma extractJSONFromResponse_total (text : string) :
  exists o, extractJSONFromResponse JSON_parse text = inr o.
Proof.
  unfold extractJSONFromResponse.
  destruct (RegExp.match_ _ _ text) as [ mt | ]; [ | eauto ].
  destruct (JSON_parse _) as [ e | v ]; simpl; eauto.
Qed.

Lemma extractExamples_total (text : string) :
  exists v, extractExamples JSON_parse text = inr v.
Proof.
  unfold extractExamples.
  destruct (RegExp.match_ _ _ text) as [ mt | ]; [ | eauto ].
  destruct (Js.truthy _); [ | eauto ].
  destruct (JSON_parse _) as [ e | v ]; simpl; eauto.
Qed.

Lemma extractList_total (text fieldName : string) :
  exists v, extractList JSON_parse text fieldName = inr v.
Proof.
  unfold extractList.
  destruct (RegExp.match_ RegExp.flag_is _ text) as [ mt | ]; [ | eauto ].
  destruct (Js.truthy _); [ | eauto ].
  destruct (JSON_parse _) as [ e | v ]; simpl; eauto.
Qed.

Lemma fromRawText_total (responseText : string) :
  exists v,
    fromRawText JSON_parse responseText = inr v /\
    truthy v = true /\
    field v "description" =
      Some (JStr (Js.orElse (extractDescription responseText) responseText)).
Proof.
  unfold fromRawText.
  destruct (extractExamples_total responseText) as [ex ->].
  destruct (extractList_total responseText "constraints") as [cs ->].
  cbn [tbind]. eexists. split; [ reflexivity | ]. split; [ reflexivity | ].
  unfold object, field. cbn [fold_left fst snd].
  rewrite !lookup_insert_ne by discriminate. apply lookup_insert_eq.
Qed.

(** A parsed JSON object is published as it is. *)
Lemma interpret_passes_json_through (responseText : string) (j : JsVal) :
  extractJSONFromResponse JSON_parse responseText = inr (Some j) ->
  truthy j = true ->
  interpret JSON_parse responseText = inr j.
Proof. intros H Ht. unfold interpret. rewrite H. cbn [tbind]. now rewrite Ht. Qed.

(** C7 (as amended). Interpretation never throws and its result is never
    [null]: it is the parsed JSON object when one is found, as it is;
    otherwise it is a structured object whose description, the extracted
    description or else the whole response, is not empty as soon as the
    response is not empty.  The last resort of the [catch] block has the
    first 1000 characters of the response as description, empty structured
    fields, and a description that is empty only for the empty response. *)
Theorem interpret_best_effort (responseText : string) :
  exists problemInfo,
    interpret JSON_parse responseText = inr problemInfo /\
    truthy problemInfo = true /\
    (forall j, extractJSONFromResponse JSON_parse responseText = inr (Some j) ->
               truthy j = true -> problemInfo = j) /\
    (extractJSONFromResponse JSON_parse responseText = inr None ->
     responseText <> "" ->
     exists d, field problemInfo "description" = Some (JStr d) /\ d <> "") /\
    truthy (lastResort responseText) = true /\
    field (lastResort responseText) "description"
      = Some (JStr (Js.substring responseText 0 1000)) /\
    field (lastResort responseText) "code" = Some (JStr "") /\
    field (lastResort responseText) "examples" = Some (JArr []) /\
    field (lastResort responseText) "constraints" = Some (JArr []) /\
    field (lastResort responseText) "function_signature" = Some (JStr "") /\
    (responseText <> "" -> Js.substring responseText 0 1000 <> "").
Proof.
  assert (Hlast :
    truthy (lastResort responseText) = true /\
    field (lastResort responseText) "description"
      = Some (JStr (Js.substring responseText 0 1000)) /\
    field (lastResort responseText) "code" = Some (JStr "") /\
    field (lastResort responseText) "examples" = Some (JArr []) /\
    field (lastResort responseText) "constraints" = Some (JArr []) /\
    field (lastResort responseText) "function_signature" = Some (JStr "") /\
    (responseText <> "" -> Js.substring responseText 0 1000 <> "")).
  { unfold lastResort, object, field. cbn [fold_left fst snd].
    repeat split;
      try (rewrite !lookup_insert_ne by discriminate; apply lookup_insert_eq).
    intros Hne. apply JsFacts.substring_nonempty; [ assumption | lia ]. }
  destruct (fromRawText_total responseText) as (raw & Hraw & Htr & Hdesc).
  unfold interpret.
  destruct (extractJSONFromResponse_total responseText) as [ [ j | ] Hj ]; rewrite Hj;
    cbn [tbind].
  - destruct (truthy j) eqn:Htj.
    + exists j. split; [ reflexivity | ]. split; [ exact Htj | ].
      split; [ intros j' H _; congruence | ].
      split; [ intros H; discriminate | exact Hlast ].
    + exists raw. split; [ exact Hraw | ]. split; [ exact Htr | ].
      split; [ intros j' H Ht; congruence | ].
      split; [ intros H; discriminate | exact Hlast ].
  - exists raw. split; [ exact Hraw | ]. split; [ exact Htr | ].
    split; [ intros j' H; discriminate | ].
    split; [ | exact Hlast ].
    intros _ Hne. eexists. split; [ exact Hdesc | ].
    now apply JsFacts.orElse_nonempty.
Qed.

(** The empty response is interpreted without a call of [JSON.parse], and
    its description is empty. *)
Lemma interpret_empty_response_any_parser :
  descriptionOf (interpret JSON_parse "") = Some (JStr "").
Proof. vm_compute. reflexivity. Qed.

End WithJSON.

Lemma interpret_best_effort_witness :
  exists d,
    descriptionOf (interpret Scenario.parse "Given n, return twice n.") = Some (JStr d) /\
    d <> "".
Proof.
  destruct (interpret_best_effort Scenario.parse "Given n, return twice n.")
    as (v & Hv & _ & _ & Hd & _).
  destruct Hd as (d & Hf & Hne); [ vm_compute; reflexivity | discriminate | ].
  exists d. rewrite Hv. simpl. auto.
Defined.

(** C7, the claim as worded fails.  (1) The empty response has no JSON
    object and no code fence, and its interpretation has the empty
    description.  (2) With any [JSON.parse] under which the text [{}] is the
    empty object, the response [{}] is interpreted as that object, which has
    no description at all. *)
Lemma interpret_empty_response_empty_description :
  (RegExp.match_ RegExp.noFlags jsonObjectRegex "" = None /\
   Js.indexOf "" fence = None /\
   descriptionOf (interpret Scenario.parse "") = Some (JStr "")) /\
  (forall JSON_parse : string -> Throws JsVal,
     JSON_parse "{}" = inr (JObj ∅) ->
     interpret JSON_parse "{}" = inr (JObj ∅) /\
     descriptionOf (interpret JSON_parse "{}") = None).
Proof.
  split; [ vm_compute; auto | ].
  intros JSON_parse H.
  assert (Hi : interpret JSON_parse "{}" = inr (JObj ∅)).
  { apply interpret_passes_json_through; [ | reflexivity ].
    unfold extractJSONFromResponse.
    assert (Hm : RegExp.matched <$> RegExp.match_ RegExp.noFlags jsonObjectRegex "{}"
                 = Some "{}") by (vm_compute; reflexivity).
    destruct (RegExp.match_ RegExp.noFlags jsonObjectRegex "{}") as [ mt | ];
      [ | discriminate ].
    simpl in Hm. inversion Hm as [Hmt]. rewrite Hmt, H. reflexivity. }
  split; [ exact Hi | ]. rewrite Hi. reflexivity.
Qed.

End InterpreterFacts.

(** ** The solution interpreter *)

Module SolutionFacts.
Import RegExp Solutions.

(** The fold behind [largestBlock], started from any accumulator: the
    result is at least as long as the accumulator and as every block, and it
    is the accumulator or one of the blocks. *)
Lemma largest_from (ms : list Match) :
  forall acc,
    let res :=
      fold_left
        (fun largest mt =>
           if (String.length largest <? String.length (body mt))%nat
           then body mt else largest) ms acc in
    String.length acc <= String.length res /\
    (forall mt, In mt ms -> String.length (body mt) <= String.length res) /\
    (res = acc \/ exists mt, In mt ms /\ body mt = res).
Proof.
  induction ms as [ | x ms IH ]; intros acc; simpl.
  - repeat split; auto. intros mt [].
  - set (acc' := if (String.length acc <? String.length (body x))%nat
                 then body x else acc).
    destruct (IH acc') as (Hlen & Hall & Hin).
    assert (Hacc : String.length acc <= String.length acc' /\
                   String.length (body x) <= String.length acc' /\
                   (acc' = acc \/ acc' = body x)).
    { subst acc'. destruct (Nat.ltb_spec (String.length acc) (String.length (body x)));
        repeat split; auto; lia. }
    destruct Hacc as (H1 & H2 & H3).
    repeat split.
    + lia.
    + intros mt [ <- | Hmt ]; [ lia | now apply Hall ].
    + destruct Hin as [ Hres | (mt & Hmt & Hb) ].
      * destruct H3 as [ H3 | H3 ]; [ left; congruence | right ].
        exists x. split; [ now left | congruence ].
      * right. exists mt. split; [ now right | assumption ].
Qed.

Lemma largestBlock_spec (ms : list Match) :
  (forall mt, In mt ms -> String.length (body mt) <= String.length (largestBlock ms)) /\
  (largestBlock ms = "" \/ exists mt, In mt ms /\ body mt = largestBlock ms).
Proof.
  destruct (largest_from ms "") as (_ & Hall & Hin). split; [ exact Hall | ].
  destruct Hin as [ H | H ]; [ left | right ]; assumption.
Qed.

Lemma preCode_total (solutionText : string) :
  exists prose, preCode solutionText = inr prose.
Proof.
  unfold preCode, split.
  destruct (Js.chars solutionText) as [ | c l ] eqn:Hc.
  - assert (Hm : matchAt noFlags fencedBlock 0 [] = None) by (vm_compute; reflexivity).
    rewrite Hm. eauto.
  - destruct (splitFrom noFlags fencedBlock 0 0 [] (c :: l) (S (length (c :: l)))) eqn:Hs.
    + exfalso. revert Hs. apply RegExpFacts.splitFrom_nonempty.
    + eauto.
Qed.

Lemma complexityOf_default (label : Re) (solutionText : string) :
  test noFlags label solutionText = false ->
  complexityOf label solutionText = "O(n)".
Proof.
  intros H. unfold complexityOf, complexityPattern.
  change (SeqL [label; Opt (Chr ":"); Star (Cls false [Space]);
                Group 1 (Star (Cls true [Ch "."]))])
    with (Seq label (SeqL [Opt (Chr ":"); Star (Cls false [Space]);
                           Group 1 (Star (Cls true [Ch "."]))])).
  now rewrite RegExpFacts.match_Seq_none.
Qed.

Lemma thoughts_nonTrivial (ps : list string) :
  Forall (fun t => 10 < String.length t) (map Js.trim (List.filter nonTrivial ps)).
Proof.
  induction ps as [ | p ps IH ]; simpl; [ constructor | ].
  destruct (nonTrivial p) eqn:Hp; [ | exact IH ].
  simpl. constructor; [ | exact IH ].
  unfold nonTrivial in Hp. now apply Nat.ltb_lt in Hp.
Qed.

(** What the parsing does for every response.  It never throws.  The code
    is the longest second group among the matches of [codePattern] as soon as
    one of them is not empty, and the whole response otherwise.  A complexity
    whose label, [Time complexity] or [Space complexity] in either
    capitalisation, occurs nowhere is ["O(n)"].  The thoughts are the
    paragraphs of the text before the first match, trimmed, those kept whose
    trimmed length exceeds 10. *)
Lemma parseSolution_outline (solutionText : string) :
  exists d prose,
    parseSolution solutionText = inr d /\
    preCode solutionText = inr prose /\
    (let blocks := matchAll noFlags codePattern solutionText in
     (forall mt, In mt blocks ->
        String.length (body mt) <= String.length (largestBlock blocks)) /\
     (largestBlock blocks <> "" ->
        code d = largestBlock blocks /\
        exists mt, In mt blocks /\ body mt = code d) /\
     (largestBlock blocks = "" -> code d = solutionText)) /\
    (test noFlags timeLabel solutionText = false -> time_complexity d = "O(n)") /\
    (test noFlags spaceLabel solutionText = false -> space_complexity d = "O(n)") /\
    thoughts d = map Js.trim (List.filter nonTrivial (paragraphs prose)) /\
    Forall (fun t => 10 < String.length t) (thoughts d).
Proof.
  destruct (preCode_total solutionText) as [prose Hprose].
  unfold parseSolution. rewrite Hprose. cbn [tbind].
  eexists. exists prose. split; [ reflexivity | ]. split; [ reflexivity | ].
  cbn [code thoughts time_complexity space_complexity].
  set (blocks := matchAll noFlags codePattern solutionText).
  destruct (largestBlock_spec blocks) as [Hmax Hin].
  split; [ | split; [ | split; [ | split ] ] ].
  - cbv zeta. split; [ exact Hmax | ].
    assert (Hcode : (if (0 <? length blocks)%nat then largestBlock blocks else "")
                    = largestBlock blocks).
    { destruct blocks; reflexivity. }
    rewrite Hcode. split.
    + intros Hne. rewrite (JsFacts.orElse_nonempty_l _ _ Hne). split; [ reflexivity | ].
      destruct Hin as [ H | H ]; [ contradiction | exact H ].
    + intros ->. reflexivity.
  - intros H. now rewrite (complexityOf_default _ _ H).
  - intros H. now rewrite (complexityOf_default _ _ H).
  - reflexivity.
  - apply thoughts_nonTrivial.
Qed.

(** A response whose block opens with [def foo(n):]: the colon stops the
    first group at the end of the fence line, and the code is the block. *)
Lemma parseSolution_sample :
  exists d,
    parseSolution Scenario.sample = inr d /\
    code d = "def foo(n):" +:+ nl +:+ "    return n * 2" +:+ nl /\
    time_complexity d = "O(n)" /\
    space_complexity d = "O(n)" /\
    thoughts d = ["Double the argument with one multiplication."].
Proof.
  destruct (parseSolution_outline Scenario.sample)
    as (d & prose & Hd & Hp & Hcode & Ht & Hs & Hth & _).
  exists d. split; [ exact Hd | ].
  destruct Hcode as (_ & Hlargest & _).
  destruct Hlargest as [Hc _]; [ vm_compute; discriminate | ].
  assert (Hprose : prose = "Double the argument with one multiplication." +:+ nl +:+ nl).
  { assert (H : preCode Scenario.sample =
                inr ("Double the argument with one multiplication." +:+ nl +:+ nl))
      by (vm_compute; reflexivity).
    rewrite Hp in H. now inversion H. }
  repeat split.
  - rewrite Hc. vm_compute. reflexivity.
  - apply Ht. vm_compute. reflexivity.
  - apply Hs. vm_compute. reflexivity.
  - rewrite Hth, Hprose. vm_compute. reflexivity.
Qed.

(** A block with nothing between its fences leaves the whole response as the
    code, and a paragraph of 14 characters of which 10 remain after trimming
    is not among the thoughts. *)
Lemma parseSolution_empty_block :
  (let text := fence +:+ nl +:+ fence in
   map body (matchAll noFlags codePattern text) = [""] /\
   tbind (parseSolution text) (fun d => ok (code d)) = inr text) /\
  (let text := "  abcdefghij  " in
   String.length text = 14 /\
   tbind (parseSolution text) (fun d => ok (thoughts d)) = inr []).
Proof. vm_compute. auto. Qed.

(** C8. The code that is stored is not the fenced block.  The class
    [[\w\s]] of the first group of [codePattern] admits line feeds, so the
    group does not stop at the end of the fence line: it runs on over every
    following line that is made of word characters and white space, and the
    second group, which is taken as the code, begins behind them.  (1) For a
    block that holds the one line [return x], the first group is the opening
    fence together with that line, the second group is empty, and the code
    is the whole response, fences included.  (2) For a [python] block of the
    two lines [import os] and [x = 1], the first group takes the import line
    with it and the code is [x = 1] alone. *)
Theorem parseSolution_drops_leading_lines :
  (let text := fence +:+ nl +:+ "return x" +:+ nl +:+ fence in
   map (fun mt => group mt 1) (matchAll noFlags codePattern text)
     = [Some (fence +:+ nl +:+ "return x" +:+ nl)] /\
   map body (matchAll noFlags codePattern text) = [""] /\
   tbind (parseSolution text) (fun d => ok (code d)) = inr text) /\
  (let text := fence +:+ "python" +:+ nl +:+ "import os" +:+ nl +:+ "x = 1" +:+ nl
               +:+ fence in
   map (fun mt => group mt 1) (matchAll noFlags codePattern text)
     = [Some (fence +:+ "python" +:+ nl +:+ "import os" +:+ nl)] /\
   tbind (parseSolution text) (fun d => ok (code d)) = inr ("x = 1" +:+ nl)).
Proof. vm_compute. auto. Qed.

End SolutionFacts.
(** ** The capture queues under sequences of calls *)

Module QueueLaws.
Import ScreenshotHelper.

Lemma add_queue_view_extra (s : t) (p : string) :
  view s = queue ->
  extraScreenshotQueue (addToScreenshotQueue s p) = extraScreenshotQueue s.
Proof.
  intros Hv. unfold addToScreenshotQueue. destruct (negb _); [ | reflexivity ].
  rewrite Hv. reflexivity.
Qed.

Lemma enqueueAll_queue_view_extra (ps : list string) (s : t) :
  view s = queue ->
  extraScreenshotQueue (enqueueAll s ps) = extraScreenshotQueue s.
Proof.
  revert s. induction ps as [ | p ps IH ]; intros s Hv; [ reflexivity | ].
  unfold enqueueAll in *. simpl. rewrite IH.
  - now apply add_queue_view_extra.
  - now rewrite QueueFacts.add_view.
Qed.

Lemma skipn_short (l : list string) (n : nat) : n = 0 -> skipn n l = l.
Proof. intros ->. reflexivity. Qed.

(** X1. In [queue] view the primary queue is a sliding window: when the
    paths already queued (at most two) and the paths that arrive are
    pairwise distinct, the queue ends up holding exactly the last two of
    them all, in the order of arrival, and the secondary queue is not
    touched. *)
Theorem primary_queue_holds_last_two (s : t) (ps : list string) :
  view s = queue ->
  length (screenshotQueue s) <= MAX_SCREENSHOTS ->
  List.NoDup (screenshotQueue s ++ ps) ->
  screenshotQueue (enqueueAll s ps) =
    skipn (length (screenshotQueue s ++ ps) - 2) (screenshotQueue s ++ ps) /\
  extraScreenshotQueue (enqueueAll s ps) = extraScreenshotQueue s.
Proof.
  intros Hv Hlen Hnd. split; [ | now apply enqueueAll_queue_view_extra ].
  revert Hnd. induction ps as [ | p ps IH ] using rev_ind; intros Hnd.
  - rewrite app_nil_r. unfold MAX_SCREENSHOTS in Hlen.
    rewrite skipn_short by lia. reflexivity.
  - rewrite app_assoc in Hnd. apply NoDup_remove in Hnd.
    rewrite app_nil_r in Hnd. destruct Hnd as [Hnd Hp].
    specialize (IH Hnd). rewrite QueueFacts.enqueueAll_snoc.
    rewrite QueueFacts.add_fresh_primary.
    + rewrite IH. rewrite app_assoc.
      set (all := screenshotQueue s ++ ps) in *.
      rewrite (length_app all [p]), length_skipn. simpl length.
      unfold MAX_SCREENSHOTS.
      destruct (Nat.leb_spec 2 (length all - (length all - 2))) as [ Hle | Hlt ].
      * replace (length all + 1 - 2) with (S (length all - 2)) by lia.
        rewrite skipn_app.
        replace (S (length all - 2) - length all) with 0 by lia.
        rewrite QueueFacts.tl_skipn. reflexivity.
      * replace (length all - 2) with 0 by lia.
        replace (length all + 1 - 2) with 0 by lia. reflexivity.
    + rewrite QueueFacts.enqueueAll_view. exact Hv.
    + rewrite IH. intros Hin. apply Hp. eapply QueueFacts.in_skipn. exact Hin.
Qed.

Lemma primary_queue_holds_last_two_witness :
  screenshotQueue (enqueueAll (mk ["/s/1.png"] ["/s/0.png"] queue)
                     ["/s/2.png"; "/s/3.png"; "/s/4.png"])
    = ["/s/3.png"; "/s/4.png"] /\
  extraScreenshotQueue (enqueueAll (mk ["/s/1.png"] ["/s/0.png"] queue)
                          ["/s/2.png"; "/s/3.png"; "/s/4.png"])
    = ["/s/0.png"].
Proof.
  apply (primary_queue_holds_last_two (mk ["/s/1.png"] ["/s/0.png"] queue)
           ["/s/2.png"; "/s/3.png"; "/s/4.png"]).
  - reflexivity.
  - simpl. unfold MAX_SCREENSHOTS. lia.
  - simpl. repeat (constructor; [ simpl; intuition discriminate | ]). constructor.
Defined.

(** Outside [queue] view a path goes to the secondary queue unless the
    primary queue holds it. *)
Lemma add_other_view (s : t) (p : string) :
  view s <> queue ->
  addToScreenshotQueue s p =
    mk (screenshotQueue s)
       (extraScreenshotQueue s ++
          (if negb (includes (screenshotQueue s) p) then [p] else []))
       (view s).
Proof.
  intros Hv. unfold addToScreenshotQueue, push.
  destruct (negb _); [ | rewrite app_nil_r; now destruct s ].
  destruct (view s) eqn:E; [ congruence | reflexivity | reflexivity ].
Qed.

(** X2. Outside [queue] view the secondary queue has no capacity and no
    duplicate test of its own: of the paths that arrive, every one that the
    primary queue does not hold is appended, in order and as often as it
    arrives; nothing is ever dropped, and the primary queue and the view
    stay as they are. *)
Theorem secondary_queue_only_grows (s : t) (ps : list string) :
  view s <> queue ->
  enqueueAll s ps =
    mk (screenshotQueue s)
       (extraScreenshotQueue s ++
          List.filter (fun p => negb (includes (screenshotQueue s) p)) ps)
       (view s).
Proof.
  revert s. induction ps as [ | p ps IH ]; intros s Hv.
  - simpl. rewrite app_nil_r. now destruct s.
  - unfold enqueueAll in *. cbn [fold_left]. rewrite IH.
    + rewrite (add_other_view s p Hv). cbn [screenshotQueue extraScreenshotQueue view].
      cbn [List.filter]. destruct (negb (includes (screenshotQueue s) p)).
      * now rewrite <- app_assoc.
      * now rewrite app_nil_r.
    + now rewrite QueueFacts.add_view.
Qed.

Lemma secondary_queue_only_grows_witness :
  enqueueAll (mk ["/s/1.png"] [] solutions) ["/s/2.png"; "/s/1.png"; "/s/2.png"; "/s/3.png"]
    = mk ["/s/1.png"] ["/s/2.png"; "/s/2.png"; "/s/3.png"] solutions.
Proof.
  apply (secondary_queue_only_grows (mk ["/s/1.png"] [] solutions)
           ["/s/2.png"; "/s/1.png"; "/s/2.png"; "/s/3.png"]).
  discriminate.
Defined.

(** *** What every sequence of calls preserves *)

Lemma removePath_length (path : string) (q : list string) :
  length (removePath path q) <= length q.
Proof.
  unfold removePath. induction q as [ | x q IH ]; simpl; [ lia | ].
  rewrite filter_cons. destruct (decide (x ≠ path)); simpl; lia.
Qed.

Lemma removePath_In (path p : string) (q : list string) :
  In p (removePath path q) -> In p q.
Proof.
  unfold removePath. intros H. apply list_elem_of_In in H.
  apply list_elem_of_filter in H. destruct H as [_ H]. now apply list_elem_of_In.
Qed.

Lemma removePath_NoDup (path : string) (q : list string) :
  List.NoDup q -> List.NoDup (removePath path q).
Proof.
  unfold removePath. induction q as [ | x q IH ]; intros Hnd.
  - constructor.
  - inversion Hnd as [ | ? ? Hx Hq ]; subst. rewrite filter_cons.
    destruct (decide (x ≠ path)); [ | now apply IH ].
    constructor; [ | now apply IH ].
    intros Hin. apply Hx. eapply removePath_In. exact Hin.
Qed.

Lemma call_Bounded (st : t * Fs.t) (c : Api.Call) :
  Bounded (fst st) -> Bounded (fst (Api.call st c)).
Proof.
  destruct st as [h fs]. intros [Hlen Hnd]. simpl in Hlen, Hnd. destruct c as [ p | v | path | | ]; simpl.
  - split; [ | now apply QueueFacts.add_primary_NoDup ].
    destruct (view h) eqn:Hv; [ now apply QueueFacts.add_primary_length | | ];
      (rewrite add_other_view by congruence; exact Hlen).
  - split; assumption.
  - unfold deleteScreenshot. destruct (Fs.unlink fs path) as [ e | fs' ]; simpl;
      [ split; assumption | ].
    unfold Bounded.
    destruct (view h); cbn [fst screenshotQueue]; try (split; assumption).
    split; [ | now apply removePath_NoDup ].
    pose proof (removePath_length path (screenshotQueue h)). unfold MAX_SCREENSHOTS in *. lia.
  - unfold clearQueues.
    destruct (unlinkEach _ fs (screenshotQueue h)) as [fs1 log1]. simpl.
    destruct (unlinkEach _ fs1 (extraScreenshotQueue h)) as [fs2 log2]. simpl.
    split; simpl; [ unfold MAX_SCREENSHOTS; lia | constructor ].
  - unfold clearExtraScreenshotQueue.
    destruct (unlinkEach _ fs (extraScreenshotQueue h)) as [fs1 log1]. simpl.
    split; assumption.
Qed.

(** X3. Whatever the helper is asked to do and in whatever order (enqueue,
    change the view, delete a capture, clear both queues or the secondary
    one), and whatever the file system answers, the primary queue of a
    helper that started empty never holds more than two paths and never
    holds a path twice. *)
Theorem primary_queue_invariant (v : View) (fs : Fs.t) (cs : list Api.Call) :
  length (screenshotQueue (fst (Api.calls (new v, fs) cs))) <= 2 /\
  List.NoDup (screenshotQueue (fst (Api.calls (new v, fs) cs))).
Proof.
  assert (H : forall st, Bounded (fst st) -> Bounded (fst (Api.calls st cs))).
  { induction cs as [ | c cs IH ]; intros st Hst; [ exact Hst | ].
    unfold Api.calls in *. simpl. apply IH. now apply call_Bounded. }
  apply (H (new v, fs)). split; [ simpl; unfold MAX_SCREENSHOTS; lia | constructor ].
Qed.

(** *** Deletions and the file system *)

(** X4. Once the deletions started by [clearQueues] have settled, no file
    of either queue is left, except those whose deletion the file system
    refuses; every file that was in neither queue is exactly as it was. *)
Theorem clearQueues_removes_queued_files (fs : Fs.t) (s : t) (p : string) :
  Fs.files (snd (fst (clearQueues fs s))) !! p =
    if bool_decide ((p ∈ screenshotQueue s \/ p ∈ extraScreenshotQueue s)
                    /\ p ∉ Fs.denied fs)
    then None else Fs.files fs !! p.
Proof.
  unfold clearQueues.
  destruct (QueueFacts.unlinkEach_files "Error deleting screenshot at " (screenshotQueue s) fs)
    as [Hd1 Hf1].
  destruct (unlinkEach _ fs (screenshotQueue s)) as [fs1 log1]. simpl in *.
  destruct (QueueFacts.unlinkEach_files "Error deleting extra screenshot at "
              (extraScreenshotQueue s) fs1) as [Hd2 Hf2].
  destruct (unlinkEach _ fs1 (extraScreenshotQueue s)) as [fs2 log2]. simpl in *.
  rewrite Hf2, Hf1, Hd1.
  destruct (decide (p ∉ Fs.denied fs)) as [ Hnd | Hden ].
  - destruct (decide (p ∈ extraScreenshotQueue s)) as [ He | He ].
    + rewrite !bool_decide_eq_true_2 by tauto. reflexivity.
    + rewrite (bool_decide_eq_false_2 (p ∈ extraScreenshotQueue s /\ _)) by tauto.
      apply (f_equal (fun b : bool => if b then None else Fs.files fs !! p)).
      apply bool_decide_ext. tauto.
  - rewrite !bool_decide_eq_false_2 by tauto. reflexivity.
Qed.

(** X5. [clearExtraScreenshotQueue] empties the secondary queue only: the
    primary queue and the view stay, the files of the secondary queue are
    deleted where the file system allows it, and every other file, those of
    the primary queue included, is exactly as it was. *)
Theorem clearExtraScreenshotQueue_spares_primary (fs : Fs.t) (s : t) :
  let s' := fst (fst (clearExtraScreenshotQueue fs s)) in
  let fs' := snd (fst (clearExtraScreenshotQueue fs s)) in
  screenshotQueue s' = screenshotQueue s /\
  extraScreenshotQueue s' = [] /\
  view s' = view s /\
  forall p,
    Fs.files fs' !! p =
      if bool_decide (p ∈ extraScreenshotQueue s /\ p ∉ Fs.denied fs)
      then None else Fs.files fs !! p.
Proof.
  unfold clearExtraScreenshotQueue.
  destruct (QueueFacts.unlinkEach_files "Error deleting extra screenshot at "
              (extraScreenshotQueue s) fs) as [Hd Hf].
  destruct (unlinkEach _ fs (extraScreenshotQueue s)) as [fs1 log1]. simpl in *.
  auto.
Qed.

Lemma removePath_absent (path : string) (q : list string) :
  ~ In path q -> removePath path q = q.
Proof.
  unfold removePath. induction q as [ | x q IH ]; intros Hn; [ reflexivity | ].
  rewrite filter_cons. destruct (decide (x ≠ path)) as [ Hne | Heq ].
  - f_equal. apply IH. intros H. apply Hn. now right.
  - exfalso. apply Hn. left. destruct (decide (x = path)); [ assumption | contradiction ].
Qed.

(** X6. [deleteScreenshot] never asks whether the path is queued.  It
    reports success exactly when the file is there and its deletion is not
    refused; then that file, and no other, is gone from the disk, and a
    helper whose current queue did not hold the path is unchanged.  When it
    reports failure, disk and helper are as before and the result carries
    an error message that is not empty. *)
Theorem deleteScreenshot_by_path_alone (fs : Fs.t) (s : t) (path : string) :
  let r := fst (fst (deleteScreenshot fs s path)) in
  let s' := snd (fst (deleteScreenshot fs s path)) in
  let fs' := snd (deleteScreenshot fs s path) in
  (success r = true <-> deletable fs path) /\
  (success r = true ->
     Fs.files fs' = delete path (Fs.files fs) /\
     Fs.denied fs' = Fs.denied fs /\
     (~ In path (targetQueue s) -> s' = s)) /\
  (success r = false ->
     fs' = fs /\ s' = s /\ exists msg, error r = Some msg /\ msg <> "").
Proof.
  unfold deleteScreenshot. pose proof (QueueFacts.unlink_spec fs path) as Hu.
  destruct (Fs.unlink fs path) as [ e | fs1 ]; simpl.
  - destruct Hu as [Hnot Hmsg]. split; [ split; [ discriminate | tauto ] | ].
    split; [ discriminate | ]. intros _. eauto.
  - destruct Hu as (Hdel & Hfiles & Hden). split; [ tauto | ].
    split; [ | discriminate ]. intros _. split; [ exact Hfiles | ].
    split; [ exact Hden | ].
    unfold targetQueue. destruct s as [q e v]. simpl.
    destruct v; intros Hn; now rewrite removePath_absent.
Qed.

End QueueLaws.

(** ** Capturing the screen: the static helpers and [takeScreenshot] *)

Module CaptureLaws.
Import Async AsyncFacts.

Lemma static_magickStrategy_checked (os : Os.t) (inputPath np q : string) (d d1 : Fs.t) :
  ScreenshotHelper.magickStrategy os inputPath np d = (inr q, d1) ->
  q = np /\ Fs.usable d1 np.
Proof.
  unfold ScreenshotHelper.magickStrategy, Io.bind, Io.exec.
  destruct (Os.exec os _ d) as [[e | dims] d0]; [ discriminate | ].
  set (small := atMost _ _ && atMost _ _).
  destruct small;
    (match goal with
     | |- context [Os.exec os ?c ?d0] =>
         destruct (Os.exec os c d0) as [[e | out] d2]; [ discriminate | ]
     end);
    unfold Io.existsSync, Io.statSync_size, Io.ret, Io.raise, Fs.statSync_size;
    (destruct (Fs.existsSync d2 np) eqn:Hex; [ | discriminate ]);
    apply ImageFacts.existsSync_true in Hex; destruct Hex as [c Hc]; rewrite Hc; simpl;
    (destruct (0 <? String.length c)%nat eqn:Hsz; [ | discriminate ]);
    intros H; inversion H; subst; (split; [ reflexivity | ]);
    exists c; (split; [ assumption | ]); now apply Nat.ltb_lt.
Qed.

(** X7. The static [ScreenshotHelper.normalizeImage] never throws.  A file
    that is already in the normalized directory is answered as it is;
    otherwise the output of ImageMagick is answered once it has been checked
    to exist and not to be empty; when ImageMagick fails the capture is
    copied and the copy answered unchecked; and when the copy fails too the
    answer is the input path. *)
Theorem static_normalizeImage_outcome (os : Os.t) (inputPath : string) (d : Fs.t) :
  let np := Path.join (ScreenshotHelper.getNormalizedDir os) (Path.basename inputPath) in
  exists p d',
    ScreenshotHelper.normalizeImage os inputPath d = (inr p, d') /\
    if Fs.existsSync d np then p = np /\ d' = d
    else
      match ScreenshotHelper.magickStrategy os inputPath np d with
      | (inr _, d1) => p = np /\ d' = d1 /\ Fs.usable d1 np
      | (inl _, d1) =>
          match Fs.copyFileSync d1 inputPath np with
          | inr d2 =>
              p = np /\ d' = d2 /\ Fs.files d2 !! np = Fs.files d1 !! inputPath
          | inl _ => p = inputPath /\ d' = d1
          end
      end.
Proof.
  intros np. unfold ScreenshotHelper.normalizeImage, Io.tryCatch, Io.bind, Io.existsSync.
  fold np. destruct (Fs.existsSync d np) eqn:Hex.
  - exists np, d. simpl. auto.
  - destruct (ScreenshotHelper.magickStrategy os inputPath np d) as [[e | q] d1] eqn:Hm.
    + unfold Io.copyFileSync, Io.ret.
      destruct (Fs.copyFileSync d1 inputPath np) as [e3 | d3] eqn:Hc.
      * exists inputPath, d1. auto.
      * exists np, d3. repeat split; auto.
        unfold Fs.copyFileSync in Hc.
        destruct (Fs.files d1 !! inputPath) as [c | ] eqn:Hin; [ | discriminate ].
        destruct (bool_decide _); [ discriminate | ].
        inversion Hc; subst. simpl. apply lookup_insert_eq.
    + exists q, d1. split; [ reflexivity | ].
      destruct (static_magickStrategy_checked os inputPath np q d d1 Hm) as [-> Hu]. auto.
Qed.

(** X8. The static [ScreenshotHelper.takeScreenshot] never throws.  It
    reports success only when [screencapture] has ended normally and has
    left a file that is not empty at the output path; the path it then
    answers is the answer of [normalizeImage].  In every other case it
    reports failure without a path and with an error message that is not
    empty. *)
Theorem static_takeScreenshot_outcome (os : Os.t) (filename : string) (d : Fs.t) :
  let outputPath := Path.join (ScreenshotHelper.getScreenshotsDir os) filename in
  exists r d',
    ScreenshotHelper.takeScreenshot os filename d = (inr r, d') /\
    if ScreenshotHelper.captured r then
      exists p out d1,
        ScreenshotHelper.filePath r = Some p /\
        ScreenshotHelper.captureError r = None /\
        Os.exec os ("screencapture -x " +:+ quoted outputPath) d = (inr out, d1) /\
        Fs.usable d1 outputPath /\
        ScreenshotHelper.normalizeImage os outputPath d1 = (inr p, d')
    else
      ScreenshotHelper.filePath r = None /\
      exists msg, ScreenshotHelper.captureError r = Some msg /\ msg <> "".
Proof.
  intros outputPath.
  unfold ScreenshotHelper.takeScreenshot, Io.tryCatch, Io.bind, Io.exec, Io.existsSync,
    Io.statSync_size, Io.ret.
  fold outputPath.
  assert (Hor : forall e : string, Js.orElse e "Unknown error taking screenshot" <> "").
  { intros e. now apply JsFacts.orElse_nonempty. }
  destruct (Os.exec os _ d) as [[e | out] d1] eqn:Hexec.
  - do 2 eexists. split; [ reflexivity | ]. simpl. eauto.
  - destruct (Fs.existsSync d1 outputPath) eqn:Hex.
    + apply ImageFacts.existsSync_true in Hex. destruct Hex as [c Hc].
      unfold Fs.statSync_size. rewrite Hc. cbn [ok].
      destruct (0 <? String.length c)%nat eqn:Hsz.
      * destruct (ImageFacts.static_normalizeImage_never_throws os outputPath d1)
          as (p & d2 & Hn).
        rewrite Hn. do 2 eexists. split; [ reflexivity | ]. simpl.
        exists p, out, d1. repeat split; auto.
        exists c. split; [ assumption | now apply Nat.ltb_lt ].
      * do 2 eexists. split; [ reflexivity | ]. simpl. eauto.
    + do 2 eexists. split; [ reflexivity | ]. simpl. eauto.
Qed.

End CaptureLaws.

(** ** Running asynchronous code: the equations of the primitives *)

Module RunFacts.
Import Async AsyncFacts.

Lemma alive_usable (s : Sys) : alive s <-> usableWindow s = true.
Proof.
  unfold alive, usableWindow. destruct (mainWindow s) as [ [ [ | ] ] | ]; simpl;
    split; congruence.
Qed.

Lemma run_get_bind {A} (w : World) (f : Sys -> Proc A) (s : Sys) :
  run w (bind get f) s = run w (f s) s.
Proof. reflexivity. Qed.





(** [notifyRenderer] never throws: it sends when the window can take it. *)
Lemma run_notifyRenderer (w : World) (ev : Event) (s : Sys) :
  run w (Main.notifyRenderer ev) s =
    (inr tt, if usableWindow s then set_ipc (ipc s ++ [ev]) s else s).
Proof.
  unfold Main.notifyRenderer, usableWindow. cbn [run].
  destruct (mainWindow s) as [ [ [ | ] ] | ] eqn:E; cbn [isDestroyed negb run];
    try reflexivity.
  simpl. rewrite E. reflexivity.
Qed.

End RunFacts.

(** ** [takeScreenshot] of main.ts *)

Module TakeFacts.
Import Async AsyncFacts RunFacts.

(** The capture never throws, and its answer has a path exactly when it
    reports success. *)
Lemma capture_never_throws (os : Os.t) (filename : string) (d : Fs.t) :
  exists c d', ScreenshotHelper.takeScreenshot os filename d = (inr c, d') /\
    if ScreenshotHelper.captured c then
      exists p, ScreenshotHelper.filePath c = Some p
    else
      ScreenshotHelper.filePath c = None /\
      exists msg, ScreenshotHelper.captureError c = Some msg /\ msg <> "".
Proof.
  unfold ScreenshotHelper.takeScreenshot, Io.tryCatch, Io.bind, Io.exec, Io.existsSync,
    Io.statSync_size, Io.ret.
  assert (Hor : forall e : string, Js.orElse e "Unknown error taking screenshot" <> "").
  { intros e. now apply JsFacts.orElse_nonempty. }
  destruct (Os.exec os _ d) as [[e | out] d1].
  - do 2 eexists. split; [ reflexivity | ]. simpl. eauto.
  - destruct (Fs.existsSync d1 _) eqn:Hex.
    + apply ImageFacts.existsSync_true in Hex. destruct Hex as [c Hc].
      unfold Fs.statSync_size. rewrite Hc. cbn [ok].
      destruct (0 <? String.length c)%nat.
      * match goal with
        | |- context [ScreenshotHelper.normalizeImage ?o ?p ?d0] =>
            destruct (ImageFacts.static_normalizeImage_never_throws o p d0)
              as (q & d2 & Hn); rewrite Hn
        end.
        do 2 eexists. split; [ reflexivity | ]. simpl. eauto.
      * do 2 eexists. split; [ reflexivity | ]. simpl. eauto.
    + do 2 eexists. split; [ reflexivity | ]. simpl. eauto.
Qed.

(** X9. A call of [takeScreenshot] that is not debounced always lowers
    [screenshotInProgress] again, however the capture ends.  When it returns
    a path, the path is not empty and has been offered to the helper's
    queue; when it throws, the error message is not empty and the queues
    are as they were. *)
Theorem takeScreenshot_settles (w : World) (s : Sys) :
  screenshotInProgress s = false ->
  let r := fst (run w Main.takeScreenshot s) in
  let s' := snd (run w Main.takeScreenshot s) in
  screenshotInProgress s' = false /\
  match r with
  | inr p =>
      p <> "" /\
      screenshotHelper s' =
        (fun h => ScreenshotHelper.addToScreenshotQueue h p) <$> screenshotHelper s
  | inl e => message e <> "" /\ screenshotHelper s' = screenshotHelper s
  end.
Proof.
  intros Hf. destruct s as [mw vis v pi hd inprog sh c1 c2 ab ctl clk d msgs].
  simpl in Hf. subst inprog.
  assert (Hfail : forall o : option string,
            Js.orElse (default "" o) "Screenshot failed" <> "").
  { intros o. now apply JsFacts.orElse_nonempty. }
  unfold Main.takeScreenshot.
  destruct mw as [ [ [ | ] ] | ], vis;
    cbn -[ScreenshotHelper.takeScreenshot ScreenshotHelper.addToScreenshotQueue Js.orElse];
    try (split; [ reflexivity | split; [ discriminate | reflexivity ] ]);
    match goal with
    | |- context [ScreenshotHelper.takeScreenshot ?o ?n ?d0] =>
        destruct (capture_never_throws o n d0) as (c & d' & Hc & Hshape); rewrite Hc
    end;
    destruct c as [ok path err]; cbn [ScreenshotHelper.captured ScreenshotHelper.filePath] in *;
    destruct ok;
    try (destruct Hshape as [p Hp]; subst path;
         cbn -[ScreenshotHelper.addToScreenshotQueue Js.orElse Js.truthy];
         destruct (Js.truthy p) eqn:Ht;
         cbn -[ScreenshotHelper.addToScreenshotQueue Js.orElse];
         [ split; [ reflexivity | split; [ now apply JsFacts.truthy_true | reflexivity ] ]
         | split; [ reflexivity | split; [ apply Hfail | reflexivity ] ] ]);
    try (destruct Hshape as [Hp _]; subst path;
         cbn -[ScreenshotHelper.addToScreenshotQueue Js.orElse];
         split; [ reflexivity | split; [ apply Hfail | reflexivity ] ]).
Qed.

Lemma takeScreenshot_settles_witness :
  let r := fst (run Studio.world Main.takeScreenshot (Main.initial Scenario.emptyDisk)) in
  let s' := snd (run Studio.world Main.takeScreenshot (Main.initial Scenario.emptyDisk)) in
  screenshotInProgress s' = false /\
  match r with
  | inr p =>
      p <> "" /\
      screenshotHelper s' =
        (fun h => ScreenshotHelper.addToScreenshotQueue h p)
          <$> screenshotHelper (Main.initial Scenario.emptyDisk)
  | inl e =>
      message e <> "" /\
      screenshotHelper s' = screenshotHelper (Main.initial Scenario.emptyDisk)
  end.
Proof.
  apply (takeScreenshot_settles Studio.world (Main.initial Scenario.emptyDisk)).
  reflexivity.
Defined.

(** X10. With a live main window, a call of [takeScreenshot] that is not
    debounced tells the renderer [SCREENSHOT_IN_PROGRESS true] first and
    [SCREENSHOT_IN_PROGRESS false] last and sends nothing else; when the
    capture fails, [false] is sent twice, once before the error is thrown
    and once more in the [catch] block.  The window is live afterwards and
    as visible as it was before. *)
Theorem takeScreenshot_brackets_events (w : World) (s : Sys) :
  screenshotInProgress s = false ->
  alive s ->
  let r := fst (run w Main.takeScreenshot s) in
  let s' := snd (run w Main.takeScreenshot s) in
  alive s' /\
  isWindowVisible s' = isWindowVisible s /\
  ipc s' =
    ipc s ++ SCREENSHOT_IN_PROGRESS true :: SCREENSHOT_IN_PROGRESS false ::
             match r with
             | inr _ => []
             | inl _ => [SCREENSHOT_IN_PROGRESS false]
             end.
Proof.
  intros Hf Hw. destruct s as [mw vis v pi hd inprog sh c1 c2 ab ctl clk d msgs].
  unfold alive in *. simpl in Hf, Hw. subst inprog mw.
  unfold Main.takeScreenshot.
  destruct vis;
    cbn -[ScreenshotHelper.takeScreenshot ScreenshotHelper.addToScreenshotQueue Js.orElse];
    match goal with
    | |- context [ScreenshotHelper.takeScreenshot ?o ?n ?d0] =>
        destruct (capture_never_throws o n d0) as (c & d' & Hc & Hshape); rewrite Hc
    end;
    destruct c as [ok path err]; cbn [ScreenshotHelper.captured ScreenshotHelper.filePath] in *;
    destruct ok;
    try (destruct Hshape as [p Hp]; subst path;
         cbn -[ScreenshotHelper.addToScreenshotQueue Js.orElse Js.truthy];
         destruct (Js.truthy p) eqn:Ht;
         cbn -[ScreenshotHelper.addToScreenshotQueue Js.orElse];
         rewrite <- ?app_assoc; repeat split; reflexivity);
    try (destruct Hshape as [Hp _]; subst path;
         cbn -[ScreenshotHelper.addToScreenshotQueue Js.orElse];
         rewrite <- ?app_assoc; repeat split; reflexivity).
Qed.

Lemma takeScreenshot_brackets_events_witness :
  let r := fst (run Studio.world Main.takeScreenshot (Main.initial Scenario.emptyDisk)) in
  let s' := snd (run Studio.world Main.takeScreenshot (Main.initial Scenario.emptyDisk)) in
  alive s' /\
  isWindowVisible s' = isWindowVisible (Main.initial Scenario.emptyDisk) /\
  ipc s' =
    ipc (Main.initial Scenario.emptyDisk) ++
      SCREENSHOT_IN_PROGRESS true :: SCREENSHOT_IN_PROGRESS false ::
      match r with
      | inr _ => []
      | inl _ => [SCREENSHOT_IN_PROGRESS false]
      end.
Proof.
  apply (takeScreenshot_brackets_events Studio.world (Main.initial Scenario.emptyDisk));
    reflexivity.
Defined.

(** A capture in the studio, evaluated: the file is written, copied to
    the normalized directory, and the copy is queued. *)
Example takeScreenshot_in_the_studio :
  let r := run Studio.world Main.takeScreenshot (Main.initial Scenario.emptyDisk) in
  fst r = inr "/userData/normalized/screenshot-1.png" /\
  Main.getScreenshotQueue (snd r) = ["/userData/normalized/screenshot-1.png"] /\
  Fs.readFileSync (disk (snd r)) "/userData/normalized/screenshot-1.png" = inr "PNG".
Proof. vm_compute. auto. Qed.

End TakeFacts.

(** ** What the pipelines leave alone *)

Module FrameFacts.
Import Async AsyncFacts.

(** A property of the state that no assignment of the two pipelines
    disturbs is kept by the pipelines as a whole. *)
Section Frame.

Variable Q : Sys -> Prop.

Hypothesis Q_ipc : forall l s, Q s -> Q (set_ipc l s).
Hypothesis Q_aborted : forall l s, Q s -> Q (set_aborted l s).
Hypothesis Q_controllers : forall n s, Q s -> Q (set_controllers n s).
Hypothesis Q_current :
  forall c s, Q s -> Q (set_currentProcessingAbortController c s).
Hypothesis Q_currentExtra :
  forall c s, Q s -> Q (set_currentExtraProcessingAbortController c s).
Hypothesis Q_problemInfo : forall i s, Q s -> Q (Main.setProblemInfo i s).
Hypothesis Q_hasDebugged : forall b s, Q s -> Q (Main.setHasDebugged b s).
Hypothesis Q_solutions : forall s, Q s -> Q (Main.setView solutions s).

Variable JSON_parse : string -> Throws JsVal.
Variable JSON_stringify : JsVal -> string.

Local Abbreviation K := (@Keeps Q _).

Lemma Keeps_send_any (ev : Event) : K (send ev).
Proof. apply Keeps_send. intros s. apply Q_ipc. Qed.

Lemma Keeps_abort (c : nat) : K (abort c).
Proof. apply Keeps_modify. intros s. apply Q_aborted. Qed.

Lemma Keeps_newAbortController : K newAbortController.
Proof.
  constructor. intros s Hs. constructor; [ now apply Q_controllers | constructor ].
Qed.

Lemma Keeps_waitFor_any (n : nat) : K (ProcessingHelper.waitFor n).
Proof.
  induction n as [ | n IH ]; simpl; [ constructor | ].
  constructor. intros [ e | [ | ] ]; simpl; try constructor.
  intros [ e | [] ]; simpl; [ constructor | exact IH ].
Qed.

Lemma Keeps_ocr (path : string) : K (ProcessingHelper.ocr path).
Proof.
  unfold ProcessingHelper.ocr.
  repeat (apply Keeps_bind; [ apply Keeps_await | intros ? ]). constructor.
Qed.

Lemma Keeps_ocrAll (q : list string) : K (ProcessingHelper.ocrAll q).
Proof.
  induction q as [ | path q IH ]; cbn [ProcessingHelper.ocrAll]; [ constructor | ].
  apply Keeps_bind.
  - unfold ProcessingHelper.ocrScreenshot. apply Keeps_get_bind. intros s Hs.
    destruct (negb _); (apply Keeps_bind; [ apply Keeps_ocr | intros ?; constructor ]).
  - intros item. apply Keeps_bind; [ exact IH | intros ?; constructor ].
Qed.

Lemma Keeps_generateSolutionsHelper (signal : nat) :
  K (ProcessingHelper.generateSolutionsHelper JSON_stringify signal).
Proof.
  unfold ProcessingHelper.generateSolutionsHelper.
  apply Keeps_get_bind. intros s Hs.
  destruct (isAborted signal s); [ constructor | ].
  destruct (Main.getMainWindow s); [ | constructor ].
  apply Keeps_tryCatch.
  - apply Keeps_get_bind. intros s1 Hs1.
    destruct (Main.present (Main.getProblemInfo s1)); [ | apply Keeps_send_any ].
    apply Keeps_bind; [ constructor | intros language ].
    apply Keeps_bind; [ apply Keeps_await | intros response ].
    apply Keeps_bind; [ apply Keeps_send_any | intros _ ].
    apply Keeps_modify. exact Q_solutions.
  - intros e. apply Keeps_get_bind. intros s1 Hs1.
    destruct (isAborted signal s1); [ constructor | apply Keeps_send_any ].
Qed.

Lemma Keeps_publish (problemInfo : JsVal) (signal : nat) :
  K (ProcessingHelper.publish JSON_stringify problemInfo signal).
Proof.
  unfold ProcessingHelper.publish.
  apply Keeps_bind; [ apply Keeps_send_any | intros _ ].
  apply Keeps_bind; [ apply Keeps_modify; intros s; apply Q_problemInfo | intros _ ].
  apply Keeps_bind; [ apply Keeps_modify; exact Q_solutions | intros _ ].
  apply Keeps_generateSolutionsHelper.
Qed.

Lemma Keeps_processScreenshots :
  K (ProcessingHelper.processScreenshots JSON_parse JSON_stringify).
Proof.
  unfold ProcessingHelper.processScreenshots.
  apply Keeps_get_bind. intros s Hs.
  apply Keeps_bind.
  { destruct (currentProcessingAbortController s); [ apply Keeps_abort | constructor ]. }
  intros _. apply Keeps_bind; [ apply Keeps_newAbortController | intros signal ].
  apply Keeps_bind; [ apply Keeps_modify; intros s1; apply Q_current | intros _ ].
  apply Keeps_get_bind. intros s1 Hs1.
  destruct (Main.getMainWindow s1); [ | constructor ].
  apply Keeps_tryCatch.
  - apply Keeps_get_bind. intros s2 Hs2. cbv zeta.
    destruct (length (Main.getScreenshotQueue s2) =? 0)%nat; [ apply Keeps_send_any | ].
    apply Keeps_bind; [ apply Keeps_send_any | intros _ ].
    apply Keeps_bind; [ apply Keeps_ocrAll | intros data ].
    unfold ProcessingHelper.analyseAndPublish.
    apply Keeps_bind; [ apply Keeps_await | intros responseText ].
    apply Keeps_tryCatch.
    + apply Keeps_bind; [ apply Keeps_lift | intros info; apply Keeps_publish ].
    + intros e. apply Keeps_publish.
  - intros e. unfold ProcessingHelper.reportFailure.
    apply Keeps_get_bind. intros s2 Hs2.
    destruct (Main.getMainWindow s2); [ apply Keeps_send_any | constructor ].
Qed.

Lemma Keeps_cancelOngoingRequests : K ProcessingHelper.cancelOngoingRequests.
Proof.
  unfold ProcessingHelper.cancelOngoingRequests.
  apply Keeps_get_bind. intros s Hs.
  apply Keeps_bind.
  { destruct (currentProcessingAbortController s); [ | constructor ].
    apply Keeps_bind; [ apply Keeps_abort | intros _ ].
    apply Keeps_modify. intros s1. apply Q_current. }
  intros _. apply Keeps_get_bind. intros s1 Hs1.
  apply Keeps_bind.
  { destruct (currentExtraProcessingAbortController s1); [ | constructor ].
    apply Keeps_bind; [ apply Keeps_abort | intros _ ].
    apply Keeps_modify. intros s2. apply Q_currentExtra. }
  intros _. cbv zeta.
  apply Keeps_bind; [ apply Keeps_modify; intros s2; apply Q_hasDebugged | intros _ ].
  apply Keeps_bind; [ apply Keeps_modify; intros s2; apply Q_problemInfo | intros _ ].
  apply Keeps_get_bind. intros s2 Hs2.
  destruct (Main.getMainWindow s2); [ | constructor ].
  destruct (_ && _); [ apply Keeps_send_any | constructor ].
Qed.

Lemma Keeps_analyseAll (screenshots : list (string * string)) (signal : nat) :
  K (ProcessingHelper.analyseAll screenshots signal).
Proof.
  induction screenshots as [ | [path data] rest IH ]; cbn [ProcessingHelper.analyseAll];
    [ constructor | ].
  apply Keeps_bind.
  - unfold ProcessingHelper.analyse.
    apply Keeps_bind; [ apply Keeps_await | intros normalizedPath ].
    apply Keeps_get_bind. intros s Hs.
    apply Keeps_bind; [ apply Keeps_lift | intros raw ]. cbv zeta.
    apply Keeps_bind; [ apply Keeps_await | intros ?; constructor ].
  - intros info. apply Keeps_bind; [ exact IH | intros ?; constructor ].
Qed.

Lemma Keeps_processExtraScreenshotsHelper (screenshots : list (string * string))
  (signal : nat) :
  K (ProcessingHelper.processExtraScreenshotsHelper screenshots signal).
Proof.
  unfold ProcessingHelper.processExtraScreenshotsHelper.
  apply Keeps_get_bind. intros s Hs.
  destruct (isAborted signal s); [ constructor | ].
  destruct (Main.getMainWindow s); [ | constructor ].
  apply Keeps_tryCatch.
  - apply Keeps_get_bind. intros s1 Hs1.
    destruct (Main.present (Main.getProblemInfo s1)); [ | apply Keeps_send_any ].
    apply Keeps_bind; [ apply Keeps_analyseAll | intros results ]. cbv zeta.
    apply Keeps_bind; [ apply Keeps_modify; intros s2; apply Q_problemInfo | intros _ ].
    apply Keeps_send_any.
  - intros e. apply Keeps_get_bind. intros s1 Hs1.
    destruct (isAborted signal s1); [ constructor | apply Keeps_send_any ].
Qed.

(** [processExtraScreenshots] after its first statement. *)
Lemma Keeps_afterCancel_any :
  K (s <- get ;;
     match Main.getMainWindow s with
     | None => Ret tt
     | Some _ =>
         tryFinally
           (tryCatch
              (ProcessingHelper.waitForInitialization ;;
               s <- get ;;
               let extraScreenshots := Main.getExtraScreenshotQueue s in
               if (length extraScreenshots =? 0)%nat then
                 send (DEBUG_ERROR
                   "No extra screenshots to process. Please take additional screenshots first.")
               else
                 controller <- newAbortController ;;
                 modify (set_currentExtraProcessingAbortController (Some controller)) ;;
                 send DEBUG_START ;;
                 s <- get ;;
                 let screenshotsData :=
                   map (ProcessingHelper.readScreenshot (disk s)) extraScreenshots in
                 ProcessingHelper.processExtraScreenshotsHelper
                   (List.filter (fun sd => Js.truthy (snd sd)) screenshotsData)
                   controller)
              (fun error =>
                 send (DEBUG_ERROR
                         (Js.orElse (message error)
                            "Unknown error processing extra screenshots"))))
           (modify (set_currentExtraProcessingAbortController None))
     end)%proc.
Proof.
  apply Keeps_get_bind. intros s Hs.
  destruct (Main.getMainWindow s); [ | constructor ].
  apply Keeps_tryFinally; [ | apply Keeps_modify; intros s1; apply Q_currentExtra ].
  apply Keeps_tryCatch; [ | intros e; apply Keeps_send_any ].
  apply Keeps_bind; [ apply Keeps_waitFor_any | intros _ ].
  apply Keeps_get_bind. intros s1 Hs1. cbv zeta.
  destruct (length (Main.getExtraScreenshotQueue s1) =? 0)%nat; [ apply Keeps_send_any | ].
  apply Keeps_bind; [ apply Keeps_newAbortController | intros controller ].
  apply Keeps_bind; [ apply Keeps_modify; intros s2; apply Q_currentExtra | intros _ ].
  apply Keeps_bind; [ apply Keeps_send_any | intros _ ].
  apply Keeps_get_bind. intros s2 Hs2. cbv zeta.
  apply Keeps_processExtraScreenshotsHelper.
Qed.

Lemma Keeps_processExtraScreenshots :
  K (ProcessingHelper.processExtraScreenshots).
Proof.
  unfold ProcessingHelper.processExtraScreenshots.
  apply Keeps_bind; [ apply Keeps_cancelOngoingRequests | intros _ ].
  apply Keeps_get_bind. intros s Hs.
  destruct (Main.getMainWindow s); [ | constructor ].
  apply Keeps_tryFinally; [ | apply Keeps_modify; intros s1; apply Q_currentExtra ].
  apply Keeps_tryCatch; [ | intros e; apply Keeps_send_any ].
  apply Keeps_bind; [ apply Keeps_waitFor_any | intros _ ].
  apply Keeps_get_bind. intros s1 Hs1. cbv zeta.
  destruct (length (Main.getExtraScreenshotQueue s1) =? 0)%nat; [ apply Keeps_send_any | ].
  apply Keeps_bind; [ apply Keeps_newAbortController | intros controller ].
  apply Keeps_bind; [ apply Keeps_modify; intros s2; apply Q_currentExtra | intros _ ].
  apply Keeps_bind; [ apply Keeps_send_any | intros _ ].
  apply Keeps_get_bind. intros s2 Hs2. cbv zeta.
  apply Keeps_processExtraScreenshotsHelper.
Qed.

End Frame.

End FrameFacts.

(** ** The two views and the queues across the main process *)

Module SyncFacts.
Import Async AsyncFacts.

Lemma Synced_frame (s s' : Sys) :
  screenshotHelper s' = screenshotHelper s -> view s' = view s -> Synced s -> Synced s'.
Proof. unfold Synced. intros -> ->. auto. Qed.

Lemma Synced_setView (v : View) (s : Sys) : Synced (Main.setView v s).
Proof.
  unfold Synced, Main.setView. destruct s as [mw vis v0 pi hd inprog [ h | ] c1 c2 ab ctl clk d msgs];
    simpl; intros h' H; [ inversion H; reflexivity | discriminate ].
Qed.

Lemma Synced_settle (d : Fs.t) (s : Sys) : Synced s -> Synced (settle d s).
Proof. now apply Synced_frame. Qed.

Lemma Synced_addToScreenshotQueue (p : string) (s : Sys) :
  Synced s -> Synced (Main.addToScreenshotQueue p s).
Proof.
  unfold Synced, Main.addToScreenshotQueue.
  destruct s as [mw vis v0 pi hd inprog [ h | ] c1 c2 ab ctl clk d msgs]; simpl;
    intros Hs h' H; [ | discriminate ].
  inversion H. rewrite QueueFacts.add_view. now apply Hs.
Qed.

Lemma Synced_deleteScreenshot (p : string) (s : Sys) :
  Synced s -> Synced (snd (Main.deleteScreenshot p s)).
Proof.
  unfold Synced, Main.deleteScreenshot.
  destruct s as [mw vis v0 pi hd inprog [ h | ] c1 c2 ab ctl clk d msgs]; simpl;
    intros Hs h' H; [ | discriminate ].
  unfold ScreenshotHelper.deleteScreenshot in *.
  destruct (Fs.unlink d p) as [ e | d1 ]; simpl in H; inversion H as [Hh]; subst h'.
  - now apply Hs.
  - rewrite <- (Hs h eq_refl). destruct (ScreenshotHelper.view h); reflexivity.
Qed.

Lemma Keeps_takeScreenshot : Keeps Synced Main.takeScreenshot.
Proof.
  assert (Hflag : forall b, Keeps Synced (modify (set_screenshotInProgress b))).
  { intros b. apply Keeps_modify. intros s. now apply Synced_frame. }
  assert (Hnote : forall ev, Keeps Synced (Main.notifyRenderer ev)).
  { intros ev. constructor. intros s Hs.
    destruct (mainWindow s) as [ [ [ | ] ] | ]; cbn [isDestroyed];
      [ constructor | | constructor ].
    apply Keeps_send. intros s1. now apply Synced_frame. }
  assert (Hend : forall (A : Type) (k : Proc A),
            Keeps Synced k ->
            Keeps Synced (modify (set_screenshotInProgress false) ;;
                          Main.notifyRenderer (SCREENSHOT_IN_PROGRESS false) ;; k)%proc).
  { intros A k Hk. apply Keeps_bind; [ apply Hflag | intros _ ].
    apply Keeps_bind; [ apply Hnote | intros _; exact Hk ]. }
  unfold Main.takeScreenshot. apply Keeps_get_bind. intros s Hs.
  destruct (screenshotInProgress s); [ constructor | ].
  apply Keeps_tryCatch; [ | intros e; apply Hend; constructor ].
  apply Keeps_bind; [ apply Hnote | intros _ ].
  apply Keeps_bind; [ apply Hflag | intros _ ].
  apply Keeps_bind; [ constructor; intros; constructor | intros wasVisible ].
  apply Keeps_bind.
  { destruct wasVisible; [ | constructor ].
    apply Keeps_bind; [ | intros _; apply Keeps_await ].
    constructor. intros s1 Hs1.
    destruct (mainWindow s1) as [ [ [ | ] ] | ]; repeat constructor.
    revert Hs1. now apply Synced_frame. }
  intros _. apply Keeps_bind; [ apply Keeps_await | intros result ].
  apply Keeps_bind.
  { destruct wasVisible; [ | constructor ].
    unfold Main.showMainWindow. apply Keeps_get_bind. intros s1 Hs1.
    destruct (mainWindow s1) as [ [ [ | ] ] | ]; cbn [isDestroyed];
      [ constructor | | ]; apply Keeps_modify; intros s2; now apply Synced_frame. }
  intros _.
  destruct (ScreenshotHelper.filePath result) as [ filePath | ];
    [ | apply Hend; constructor ].
  destruct (_ && _); [ | apply Hend; constructor ].
  apply Keeps_bind; [ | intros _; apply Hend; constructor ].
  apply Keeps_modify. intros s1. apply Synced_addToScreenshotQueue.
Qed.

(** X11. The view kept by the main state and the view kept by the
    [ScreenshotHelper], which routes new captures, never drift apart: once
    they agree they still do after [setView], [clearQueues],
    [deleteScreenshot], a capture, and a whole run of either pipeline,
    whatever the world answers. *)
Theorem views_stay_in_sync (JSON_parse : string -> Throws JsVal)
  (JSON_stringify : JsVal -> string) (w : World) (s : Sys) :
  Synced s ->
  (forall v, Synced (Main.setView v s)) /\
  Synced (Main.clearQueues s) /\
  (forall path, Synced (snd (Main.deleteScreenshot path s))) /\
  Synced (snd (run w Main.takeScreenshot s)) /\
  Synced (snd (run w (ProcessingHelper.processScreenshots JSON_parse JSON_stringify) s)) /\
  Synced (snd (run w ProcessingHelper.processExtraScreenshots s)).
Proof.
  intros Hs.
  assert (Hipc : forall l s0, Synced s0 -> Synced (set_ipc l s0))
    by (intros; now apply (Synced_frame s0)).
  assert (Hab : forall l s0, Synced s0 -> Synced (set_aborted l s0))
    by (intros; now apply (Synced_frame s0)).
  assert (Hctl : forall n s0, Synced s0 -> Synced (set_controllers n s0))
    by (intros; now apply (Synced_frame s0)).
  assert (Hc1 : forall c s0, Synced s0 -> Synced (set_currentProcessingAbortController c s0))
    by (intros; now apply (Synced_frame s0)).
  assert (Hc2 : forall c s0, Synced s0 ->
                             Synced (set_currentExtraProcessingAbortController c s0))
    by (intros; now apply (Synced_frame s0)).
  assert (Hpi : forall i s0, Synced s0 -> Synced (Main.setProblemInfo i s0))
    by (intros; now apply (Synced_frame s0)).
  assert (Hhd : forall b s0, Synced s0 -> Synced (Main.setHasDebugged b s0))
    by (intros; now apply (Synced_frame s0)).
  assert (Hsol : forall s0, Synced s0 -> Synced (Main.setView solutions s0))
    by (intros; apply Synced_setView).
  split; [ intros v; apply Synced_setView | ].
  split; [ apply Synced_setView | ].
  split; [ intros path; now apply Synced_deleteScreenshot | ].
  split; [ apply (Keeps_run Synced Synced_settle); [ apply Keeps_takeScreenshot | exact Hs ] | ].
  split; apply (Keeps_run Synced Synced_settle); try exact Hs.
  - now apply FrameFacts.Keeps_processScreenshots.
  - now apply FrameFacts.Keeps_processExtraScreenshots.
Qed.

Lemma views_stay_in_sync_witness :
  (forall v, Synced (Main.setView v Scenario.oneCapture)) /\
  Synced (Main.clearQueues Scenario.oneCapture) /\
  (forall path, Synced (snd (Main.deleteScreenshot path Scenario.oneCapture))) /\
  Synced (snd (run Scenario.world Main.takeScreenshot Scenario.oneCapture)) /\
  Synced (snd (run Scenario.world Scenario.processScreenshots Scenario.oneCapture)) /\
  Synced (snd (run Scenario.world ProcessingHelper.processExtraScreenshots
                   Scenario.oneCapture)).
Proof.
  apply (views_stay_in_sync Scenario.parse Scenario.stringify Scenario.world
           Scenario.oneCapture).
  intros h H. vm_compute in H. inversion H. reflexivity.
Defined.

(** X12. Neither pipeline adds, removes or reorders a queued capture: after
    a whole run of [processScreenshots] or of [processExtraScreenshots],
    whatever the world answers, both queues are what they were. *)
Theorem pipelines_leave_queues_alone (JSON_parse : string -> Throws JsVal)
  (JSON_stringify : JsVal -> string) (w : World) (s : Sys) :
  let s1 := snd (run w (ProcessingHelper.processScreenshots JSON_parse JSON_stringify) s) in
  let s2 := snd (run w ProcessingHelper.processExtraScreenshots s) in
  Main.getScreenshotQueue s1 = Main.getScreenshotQueue s /\
  Main.getExtraScreenshotQueue s1 = Main.getExtraScreenshotQueue s /\
  Main.getScreenshotQueue s2 = Main.getScreenshotQueue s /\
  Main.getExtraScreenshotQueue s2 = Main.getExtraScreenshotQueue s.
Proof.
  set (Q := SameQueues (Main.getScreenshotQueue s) (Main.getExtraScreenshotQueue s)).
  assert (Hframe : forall s0 s0', screenshotHelper s0' = screenshotHelper s0 -> Q s0 -> Q s0').
  { unfold Q, SameQueues, Main.getScreenshotQueue, Main.getExtraScreenshotQueue.
    intros s0 s0' ->. auto. }
  assert (Hsettle : forall d s0, Q s0 -> Q (settle d s0))
    by (intros d s0; now apply Hframe).
  assert (Hsol : forall s0, Q s0 -> Q (Main.setView solutions s0)).
  { unfold Q, SameQueues, Main.getScreenshotQueue, Main.getExtraScreenshotQueue, Main.setView.
    intros s0. destruct s0 as [mw vis v0 pi hd inprog [ h | ] c1 c2 ab ctl clk d msgs];
      simpl; auto. }
  assert (H0 : Q s) by (split; reflexivity).
  assert (H1 : Q (snd (run w (ProcessingHelper.processScreenshots JSON_parse
                                JSON_stringify) s))).
  { apply (Keeps_run Q Hsettle); [ | exact H0 ].
    apply FrameFacts.Keeps_processScreenshots; auto;
      intros; eapply Hframe; eauto; reflexivity. }
  assert (H2 : Q (snd (run w ProcessingHelper.processExtraScreenshots s))).
  { apply (Keeps_run Q Hsettle); [ | exact H0 ].
    apply FrameFacts.Keeps_processExtraScreenshots; auto;
      intros; eapply Hframe; eauto; reflexivity. }
  destruct H1 as [H1a H1b], H2 as [H2a H2b]. auto.
Qed.

End SyncFacts.

(** ** Cancelling, and waiting for the renderer *)

Module CancelFacts.
Import Async AsyncFacts RunFacts.

Lemma run_cancelOngoingRequests (w : World) (s : Sys) :
  run w ProcessingHelper.cancelOngoingRequests s = (inr tt, cancelled s).
Proof.
  destruct s as [mw vis v pi hd inprog sh c1 c2 ab ctl clk d msgs].
  destruct c1 as [ c1 | ], c2 as [ c2 | ], mw as [ [ [ | ] ] | ];
    vm_compute; reflexivity.
Qed.

(** X13. [cancelOngoingRequests] never throws.  It aborts the controllers
    of both pipelines and forgets them, forgets the problem description and
    lowers [hasDebugged]; it tells the renderer [NO_SCREENSHOTS] exactly when
    a controller was installed and the window can take the message.  The
    view, the queues and the window are left as they are. *)
Theorem cancelOngoingRequests_postcondition (w : World) (s : Sys) :
  exists s',
    run w ProcessingHelper.cancelOngoingRequests s = (inr tt, s') /\
    currentProcessingAbortController s' = None /\
    currentExtraProcessingAbortController s' = None /\
    aborted s' =
      option_list (currentExtraProcessingAbortController s) ++
      option_list (currentProcessingAbortController s) ++ aborted s /\
    problemInfo s' = None /\
    hasDebugged s' = false /\
    ipc s' =
      ipc s ++
        (if (bool_decide (is_Some (currentProcessingAbortController s)) ||
             bool_decide (is_Some (currentExtraProcessingAbortController s)))
            && usableWindow s
         then [NO_SCREENSHOTS] else []) /\
    view s' = view s /\
    screenshotHelper s' = screenshotHelper s /\
    mainWindow s' = mainWindow s /\
    isWindowVisible s' = isWindowVisible s /\
    clock s' = clock s /\
    disk s' = disk s.
Proof.
  exists (cancelled s). split; [ apply run_cancelOngoingRequests | ].
  unfold cancelled. cbn [currentProcessingAbortController
    currentExtraProcessingAbortController aborted problemInfo hasDebugged ipc view
    screenshotHelper mainWindow isWindowVisible clock disk].
  destruct (_ && _); rewrite ?app_nil_r; repeat split; reflexivity.
Qed.

Lemma later_0 (s : Sys) : later 0 s = s.
Proof.
  unfold later. rewrite Nat.add_0_r.
  now destruct s as [mw vis v pi hd inprog sh c1 c2 ab ctl clk d msgs].
Qed.

Lemma settle_later (n : nat) (s : Sys) : settle (disk s) (later n s) = later (S n) s.
Proof.
  unfold later, settle. destruct s as [mw vis v pi hd inprog sh c1 c2 ab ctl clk d msgs].
  unfold set_clock, set_disk. simpl. f_equal; lia.
Qed.

Lemma later_later (n k : nat) (s : Sys) : later n (later k s) = later (k + n) s.
Proof.
  unfold later. destruct s as [mw vis v pi hd inprog sh c1 c2 ab ctl clk d msgs].
  unfold set_clock. simpl. f_equal; lia.
Qed.

Lemma settle_0 (s : Sys) : settle (disk s) s = later 1 s.
Proof. rewrite <- (later_0 s) at 1 2. rewrite later_0 at 1. apply settle_later. Qed.

(** One round of the loop whose poll answers [false]. *)
Lemma waitFor_round (w : World) (n : nat) (s : Sys) :
  alive s ->
  initialized w (clock s) = false ->
  run w (ProcessingHelper.waitFor (S n)) s = run w (ProcessingHelper.waitFor n) (later 2 s).
Proof.
  unfold alive. intros Hw Hi.
  destruct s as [mw vis v pi hd inprog sh c1 c2 ab ctl clk d msgs]. simpl in *. subst mw.
  rewrite Hi. simpl. unfold later. simpl.
  replace (clk + 2) with (S (S clk)) by lia. reflexivity.
Qed.

Lemma waitFor_rounds (w : World) (k : nat) :
  forall n s,
    alive s ->
    (forall j, j < k -> initialized w (clock s + 2 * j) = false) ->
    run w (ProcessingHelper.waitFor (k + n)) s =
      run w (ProcessingHelper.waitFor n) (later (2 * k) s).
Proof.
  induction k as [ | k IH ]; intros n s Hw Hno.
  - simpl. now rewrite later_0.
  - cbn [Nat.add]. rewrite waitFor_round; [ | exact Hw | ].
    + rewrite IH.
      * rewrite later_later. f_equal. f_equal. lia.
      * exact Hw.
      * intros j Hj. unfold later.
        destruct s as [mw vis v pi hd inprog sh c1 c2 ab ctl clk d msgs]. simpl.
        specialize (Hno (S j) ltac:(lia)). simpl in Hno.
        rewrite <- Hno. f_equal. lia.
    + specialize (Hno 0 ltac:(lia)). now rewrite Nat.mul_0_r, Nat.add_0_r in Hno.
Qed.

(** X14. [waitForInitialization] gives up after exactly 50 polls: when the
    renderer does not report itself initialized at any of them, it throws
    [App failed to initialize after 5 seconds], having been suspended 100
    times (50 polls, each followed by a pause of 100 ms, the last pause
    included), and it has changed nothing else. *)
Theorem waitForInitialization_gives_up (w : World) (s : Sys) :
  alive s ->
  (forall j, j < 50 -> initialized w (clock s + 2 * j) = false) ->
  run w ProcessingHelper.waitForInitialization s =
    (inl (mkError "App failed to initialize after 5 seconds" None), later 100 s).
Proof.
  intros Hw Hno. unfold ProcessingHelper.waitForInitialization.
  change 50 with (50 + 0). rewrite (waitFor_rounds w 50 0 s Hw Hno). reflexivity.
Qed.

Lemma waitForInitialization_gives_up_witness :
  run Studio.frozen ProcessingHelper.waitForInitialization (Main.initial Scenario.emptyDisk) =
    (inl (mkError "App failed to initialize after 5 seconds" None),
     later 100 (Main.initial Scenario.emptyDisk)).
Proof.
  apply (waitForInitialization_gives_up Studio.frozen (Main.initial Scenario.emptyDisk)).
  - reflexivity.
  - intros j Hj. reflexivity.
Defined.

(** X15. [waitForInitialization] returns at the first poll that finds the
    renderer initialized, provided it is one of the first 50: after [k]
    polls that answered [false] and one that answers [true] it returns
    normally, having been suspended [2 k + 1] times, and it has changed
    nothing else. *)
Theorem waitForInitialization_returns (w : World) (s : Sys) (k : nat) :
  alive s ->
  k < 50 ->
  (forall j, j < k -> initialized w (clock s + 2 * j) = false) ->
  initialized w (clock s + 2 * k) = true ->
  run w ProcessingHelper.waitForInitialization s = (inr tt, later (2 * k + 1) s).
Proof.
  intros Hw Hk Hno Hyes. unfold ProcessingHelper.waitForInitialization.
  replace 50 with (k + S (49 - k)) by lia.
  rewrite (waitFor_rounds w k (S (49 - k)) s Hw Hno).
  unfold alive in Hw. destruct s as [mw vis v pi hd inprog sh c1 c2 ab ctl clk d msgs].
  simpl in Hw, Hyes. subst mw. unfold later.
  cbn [ProcessingHelper.waitFor bind await run answer clock set_clock mainWindow isDestroyed].
  replace (clk + 2 * k) with (clk + (k + (k + 0))) by lia. rewrite Hyes.
  cbn [run]. unfold settle, set_clock, set_disk. simpl. do 2 f_equal. lia.
Qed.

Lemma waitForInitialization_returns_witness :
  run Studio.world ProcessingHelper.waitForInitialization (Main.initial Scenario.emptyDisk) =
    (inr tt, later (2 * 2 + 1) (Main.initial Scenario.emptyDisk)).
Proof.
  apply (waitForInitialization_returns Studio.world (Main.initial Scenario.emptyDisk) 2).
  - reflexivity.
  - lia.
  - intros [ | [ | j ] ] Hj; [ reflexivity | reflexivity | lia ].
  - reflexivity.
Defined.

End CancelFacts.

(** ** The initial pipeline, run to its end *)

Module InitialFacts.
Import Async AsyncFacts RunFacts.


Section WithJSON.

Variable JSON_parse : string -> Throws JsVal.
Variable JSON_stringify : JsVal -> string.







(** X18. A call of [processScreenshots] that runs to its end by itself
    (every promise is answered as soon as it is awaited, and no other
    function of the application runs while it waits) takes the place of the
    run before it: whatever the window and the world, when it ends the
    controller it created is the installed one, the controller that was
    installed before has been aborted (and no other), and the controller of
    the debug pipeline is as it was.  The call never uninstalls its own
    controller, not even when it has ended.  Nothing is said here of a call
    during whose waits a pipeline is started or cancelled: the newcomer
    then replaces or removes the controller in its turn. *)
Theorem processScreenshots_takes_over (w : World) (s : Sys) :
  let s' := snd (run w (ProcessingHelper.processScreenshots JSON_parse JSON_stringify) s) in
  currentProcessingAbortController s' = Some (controllers s) /\
  controllers s' = S (controllers s) /\
  aborted s' = option_list (currentProcessingAbortController s) ++ aborted s /\
  currentExtraProcessingAbortController s' = currentExtraProcessingAbortController s.
Proof.
  destruct s as [mw vis v pi hd inprog sh c1 c2 ab ctl clk d msgs].
  set (Q := fun s1 : Sys =>
              currentProcessingAbortController s1 = Some ctl /\
              controllers s1 = S ctl /\
              aborted s1 = option_list c1 ++ ab /\
              currentExtraProcessingAbortController s1 = c2).
  assert (Hframe : forall s1 s2,
            currentProcessingAbortController s2 = currentProcessingAbortController s1 ->
            controllers s2 = controllers s1 -> aborted s2 = aborted s1 ->
            currentExtraProcessingAbortController s2
              = currentExtraProcessingAbortController s1 ->
            Q s1 -> Q s2).
  { unfold Q. intros s1 s2 -> -> -> ->. auto. }
  assert (Hsettle : forall d0 s1, Q s1 -> Q (settle d0 s1))
    by (intros d0 s1; now apply Hframe).
  assert (Hipc : forall l s1, Q s1 -> Q (set_ipc l s1))
    by (intros l s1; now apply Hframe).
  assert (Hpi : forall i s1, Q s1 -> Q (Main.setProblemInfo i s1))
    by (intros i s1; now apply Hframe).
  assert (Hsol : forall s1, Q s1 -> Q (Main.setView solutions s1))
    by (intros s1; now apply Hframe).
  change (Q (snd (run w (ProcessingHelper.processScreenshots JSON_parse JSON_stringify)
                    (mkSys mw vis v pi hd inprog sh c1 c2 ab ctl clk d msgs)))).
  unfold ProcessingHelper.processScreenshots.
  destruct c1 as [ c1 | ], mw as [ win | ];
    cbn -[tryCatch ProcessingHelper.ocrAll ProcessingHelper.analyseAndPublish
          ProcessingHelper.reportFailure Main.getScreenshotQueue Q];
    lazymatch goal with
    | |- Q (snd (run _ _ _)) =>
        apply (Keeps_run Q Hsettle); [ | unfold Q; simpl; now auto ]
    | |- _ => unfold Q; simpl; now auto
    end;
    (apply Keeps_tryCatch;
     [ | intros e; unfold ProcessingHelper.reportFailure;
         apply Keeps_get_bind; intros s2 Hs2;
         destruct (Main.getMainWindow s2);
         [ apply FrameFacts.Keeps_send_any; exact Hipc | constructor ] ]);
    constructor; intros s2 Hs2;
    (destruct (length (Main.getScreenshotQueue s2) =? 0)%nat;
     [ apply FrameFacts.Keeps_send_any; exact Hipc | ]);
    constructor; intros s3 Hs3;
    (apply Keeps_bind;
     [ destruct (mainWindow s3) as [ [ [ | ] ] | ]; cbn [isDestroyed];
       repeat constructor; now apply Hipc
     | intros _ ]);
    (apply Keeps_bind; [ apply FrameFacts.Keeps_ocrAll | intros data ]);
    unfold ProcessingHelper.analyseAndPublish;
    (apply Keeps_bind; [ apply Keeps_await | intros responseText ]);
    (apply Keeps_tryCatch;
     [ apply Keeps_bind; [ apply Keeps_lift | intros info ] | intros e ]);
    apply FrameFacts.Keeps_publish; assumption.
Qed.

End WithJSON.


(** A run on one capture, evaluated: the trace is the fifth. *)
Example processScreenshots_in_the_scenario :
  exists info data,
    ipc (snd (run Scenario.world Scenario.processScreenshots Scenario.oneCapture)) =
      [INITIAL_START; PROBLEM_EXTRACTED info; SOLUTION_SUCCESS data] /\
    Solutions.solution data = "Given n, return twice n." /\
    field info "description" = Some (JStr "Given n, return twice n.").
Proof. vm_compute. do 2 eexists. repeat split. Qed.


End InitialFacts.

(** ** The debug pipeline, run to its end *)

Module DebugLaws.
Import Async AsyncFacts RunFacts.

Lemma run_cancel_controllers (w : World) (s : Sys) :
  exists s1,
    run w ProcessingHelper.cancelOngoingRequests s = (inr tt, s1) /\
    currentProcessingAbortController s1 = None /\
    currentExtraProcessingAbortController s1 = None.
Proof.
  exists (cancelled s). split; [ apply CancelFacts.run_cancelOngoingRequests | ].
  split; reflexivity.
Qed.

(** X19. When a call of [processExtraScreenshots] that runs to its end by
    itself (every promise is answered as soon as it is awaited, and no other
    function of the application runs while it waits) ends, however it ends
    and whatever the world answered, no controller is installed any more:
    neither its own, which the [finally] block uninstalls, nor the one of
    the initial pipeline, which its first statement has aborted and
    uninstalled.  Nothing is said here of a call during whose waits another
    pipeline is started: the controller which that one installs is still
    there when this call ends. *)
Theorem processExtraScreenshots_uninstalls_controllers (w : World) (s : Sys) :
  let s' := snd (run w ProcessingHelper.processExtraScreenshots s) in
  currentProcessingAbortController s' = None /\
  currentExtraProcessingAbortController s' = None.
Proof.
  cbv zeta. unfold ProcessingHelper.processExtraScreenshots. rewrite run_bind.
  destruct (run_cancel_controllers w s) as (s1 & -> & Hc1 & Hc2). split.
  - set (Q := fun s0 : Sys => currentProcessingAbortController s0 = None).
    assert (Hframe : forall s0 s0',
              currentProcessingAbortController s0' = currentProcessingAbortController s0 ->
              Q s0 -> Q s0').
    { unfold Q. intros s0 s0' ->. auto. }
    apply (Keeps_run Q); [ intros d0 s0; now apply Hframe | | exact Hc1 ].
    apply FrameFacts.Keeps_afterCancel_any; intros; eapply Hframe; eauto; reflexivity.
  - rewrite run_get_bind. destruct (Main.getMainWindow s1); [ | exact Hc2 ].
    rewrite run_tryFinally.
    destruct (run w (tryCatch _ _) s1) as [ [ e | [] ] s2 ]; reflexivity.
Qed.




End DebugLaws.

(** ** Resetting the session, and toggling the window *)

Module ResetFacts.
Import Async AsyncFacts.

(** X21. [clearQueues] of main.ts starts the session over: both queues
    are empty, the problem description is gone, and the view is [queue] in
    the main state and in the helper alike.  It does not reach further:
    [hasDebugged], the controllers of running requests and the signals
    already aborted are as they were, and the renderer is told nothing. *)
Theorem clearQueues_resets_the_session (s : Sys) :
  let s' := Main.clearQueues s in
  Main.getScreenshotQueue s' = [] /\
  Main.getExtraScreenshotQueue s' = [] /\
  problemInfo s' = None /\
  view s' = queue /\
  Synced s' /\
  hasDebugged s' = hasDebugged s /\
  currentProcessingAbortController s' = currentProcessingAbortController s /\
  currentExtraProcessingAbortController s' = currentExtraProcessingAbortController s /\
  aborted s' = aborted s /\
  mainWindow s' = mainWindow s /\
  ipc s' = ipc s.
Proof.
  cbv zeta. split; [ | split; [ | split; [ | split; [ | split;
    [ apply SyncFacts.Synced_setView | ] ] ] ] ];
    destruct s as [mw vis v pi hd inprog [ h | ] c1 c2 ab ctl clk d msgs];
    unfold Main.clearQueues, ScreenshotHelper.clearQueues;
    cbn [screenshotHelper disk];
    try (destruct (ScreenshotHelper.unlinkEach _ d (ScreenshotHelper.screenshotQueue h))
           as [fs1 log1];
         cbn [ScreenshotHelper.extraScreenshotQueue];
         destruct (ScreenshotHelper.unlinkEach _ fs1 (ScreenshotHelper.extraScreenshotQueue h))
           as [fs2 log2]);
    simpl; auto 10.
Qed.

(** X22. [toggleMainWindow] only ever toggles: without a window, or with
    a destroyed one, it does nothing at all (with no window it does not
    create one, as [showMainWindow] alone would); on a live window it inverts the
    visibility and changes nothing else, so that a second call restores the
    state. *)
Theorem toggleMainWindow_toggles (w : World) (s : Sys) :
  run w Main.toggleMainWindow s =
    (inr tt, if usableWindow s then set_isWindowVisible (negb (isWindowVisible s)) s else s) /\
  (let s1 := snd (run w Main.toggleMainWindow s) in
   snd (run w Main.toggleMainWindow s1) = s).
Proof.
  destruct s as [ [ [ [ | ] ] | ] [ | ] v pi hd inprog sh c1 c2 ab ctl clk d msgs];
    split; reflexivity.
Qed.

End ResetFacts.

(** ** Literal patterns, and the interpreters on texts without markers *)

Module LiteralFacts.
Import RegExp.

Lemma m_LitL_prefix (fl : Flags) (p : list ascii) :
  ignoreCase fl = false ->
  forall st k, is_Some (m fl (LitL p) st k) -> Js.startsWithL p (rest st) = true.
Proof.
  intros Hfl. induction p as [ | c p IH ]; intros st k; [ reflexivity | ].
  destruct p as [ | c' p ].
  - cbn [LitL m]. destruct (rest st) as [ | a t ]; [ intros [x Hx]; discriminate | ].
    unfold chrEq. rewrite Hfl. simpl.
    destruct (Ascii.eqb c a); [ reflexivity | intros [x Hx]; discriminate ].
  - change (LitL (c :: c' :: p)) with (Seq (Chr c) (LitL (c' :: p))).
    cbn [m]. destruct (rest st) as [ | a t ] eqn:Hr; [ intros [x Hx]; discriminate | ].
    unfold chrEq. rewrite Hfl.
    destruct (Ascii.eqb c a) eqn:Hc; [ | intros [x Hx]; discriminate ].
    intros H. apply IH in H. cbn [step1 rest] in H.
    change (Js.startsWithL (c :: c' :: p) (a :: t))
      with (Ascii.eqb c a && Js.startsWithL (c' :: p) t).
    now rewrite Hc, H.
Qed.

Lemma indexOfL_None_any (p l : list ascii) :
  forall i, Js.indexOfL p l i = None -> forall j, Js.indexOfL p l j = None.
Proof.
  induction l as [ | c l IH ]; intros i H j; simpl in *;
    destruct (Js.startsWithL p _); try discriminate; eauto.
Qed.

Lemma execFrom_LitL (fl : Flags) (p l : list ascii) :
  ignoreCase fl = false ->
  forall i, Js.indexOfL p l 0 = None -> execFrom fl (LitL p) i l = None.
Proof.
  intros Hfl. induction l as [ | c l IH ]; intros i Hn.
  - cbn [execFrom]. unfold matchAt.
    destruct (m fl (LitL p) (mkState i [] []) Some) eqn:Hm; [ | reflexivity ].
    exfalso. assert (Hs : Js.startsWithL p [] = true).
    { apply (m_LitL_prefix fl p Hfl (mkState i [] []) Some). rewrite Hm. eauto. }
    simpl in Hn. rewrite Hs in Hn. discriminate.
  - cbn [execFrom]. unfold matchAt.
    destruct (m fl (LitL p) (mkState i (c :: l) []) Some) eqn:Hm.
    + exfalso. assert (Hs : Js.startsWithL p (c :: l) = true).
      { apply (m_LitL_prefix fl p Hfl (mkState i (c :: l) []) Some). rewrite Hm. eauto. }
      cbn [Js.indexOfL] in Hn. rewrite Hs in Hn. discriminate.
    + apply IH. cbn [Js.indexOfL] in Hn.
      destruct (Js.startsWithL p (c :: l)); [ discriminate | ].
      eapply indexOfL_None_any. exact Hn.
Qed.

(** A literal that [indexOf] does not find is not found by the matcher
    either, as long as the pattern is case-sensitive. *)
Lemma test_Lit_absent (fl : Flags) (s p : string) :
  ignoreCase fl = false -> Js.indexOf s p = None -> test fl (Lit p) s = false.
Proof.
  intros Hfl Hn. unfold test, match_, Lit. rewrite (execFrom_LitL fl _ _ Hfl 0 Hn).
  apply bool_decide_eq_false. intros [x Hx]. discriminate.
Qed.

Lemma matchAll_Seq_absent (fl : Flags) (a b : Re) (s : string) :
  test fl a s = false -> matchAll fl (Seq a b) s = [].
Proof.
  intros H. apply (RegExpFacts.match_Seq_none fl a b) in H.
  unfold matchAll, match_ in *. cbn [matchAllFrom]. now rewrite H.
Qed.

Lemma removeFirst_Seq_absent (fl : Flags) (a b : Re) (s : string) :
  test fl a s = false -> removeFirst fl (Seq a b) s = s.
Proof.
  intros H. apply (RegExpFacts.match_Seq_none fl a b) in H.
  unfold removeFirst. now rewrite H.
Qed.

Lemma splitL_absent (sep : list ascii) :
  forall fuel l cur,
    Js.indexOfL sep l 0 = None -> Js.splitL sep cur l fuel = [rev cur ++ l].
Proof.
  induction fuel as [ | fuel IH ]; intros l cur Hn; [ reflexivity | ].
  cbn [Js.splitL]. destruct l as [ | c r ]; [ now rewrite app_nil_r | ].
  cbn [Js.indexOfL] in Hn.
  destruct (Js.startsWithL sep (c :: r)); [ discriminate | ].
  rewrite IH by (eapply indexOfL_None_any; exact Hn).
  cbn [rev]. now rewrite <- app_assoc.
Qed.

(** A text without the separator is a single piece. *)
Lemma split_absent (s sep : string) :
  Js.indexOf s sep = None -> Js.split s sep = [s].
Proof.
  intros Hn. unfold Js.split. rewrite splitL_absent by exact Hn.
  cbn [rev app map]. now rewrite JsFacts.str_chars.
Qed.

End LiteralFacts.

Module TextFacts.
Import RegExp LiteralFacts.

(** X23. A solution in which none of the eight markers of a thoughts
    section occurs, in whatever capitalisation, is passed on as it is,
    trimmed: [removeMyThoughtsSection] removes nothing from it. *)
Theorem removeMyThoughtsSection_passes_through (solution : string) :
  Forall (fun marker => test flag_i (Lit marker) solution = false) thoughtsMarkers ->
  ProcessingHelper.removeMyThoughtsSection solution = Js.trim solution.
Proof.
  unfold thoughtsMarkers. intros H.
  repeat match goal with
         | H : Forall _ (_ :: _) |- _ => inversion H; subst; clear H
         end.
  unfold ProcessingHelper.removeMyThoughtsSection, ProcessingHelper.myThoughtsPatterns,
    ProcessingHelper.headingSection, ProcessingHelper.labelSection.
  cbn [fold_left SeqL].
  repeat match goal with
         | H : test flag_i ?a solution = false |- _ =>
             rewrite (removeFirst_Seq_absent flag_i a _ solution H); clear H
         end.
  reflexivity.
Qed.

Lemma removeMyThoughtsSection_passes_through_witness :
  ProcessingHelper.removeMyThoughtsSection "  return n * 2  " = Js.trim "  return n * 2  ".
Proof.
  apply (removeMyThoughtsSection_passes_through "  return n * 2  ").
  unfold thoughtsMarkers. repeat (constructor; [ vm_compute; reflexivity | ]). constructor.
Defined.

(** X24. Code is recognised either between fences or, by indentation and
    punctuation, in a block of at least two lines: for a text of a single
    line without a fence [extractCodeBlocks] answers the empty string,
    whatever the line looks like. *)
Theorem extractCodeBlocks_single_line (text : string) :
  Js.indexOf text fence = None ->
  Js.indexOf text nl = None ->
  Interpreter.extractCodeBlocks text = "".
Proof.
  intros Hfence Hnl. unfold Interpreter.extractCodeBlocks.
  assert (Hm : matchAll flag_s Interpreter.codeBlockRegex text = []).
  { unfold Interpreter.codeBlockRegex. cbn [SeqL].
    apply matchAll_Seq_absent. now apply test_Lit_absent. }
  rewrite Hm, (split_absent text nl Hnl). cbn [fold_left].
  unfold Interpreter.scanLine. cbn [Interpreter.inCodeBlock Interpreter.codeBlocks
                                     Interpreter.currentBlock andb app].
  destruct (_ || _); reflexivity.
Qed.

Lemma extractCodeBlocks_single_line_witness :
  Interpreter.extractCodeBlocks "func foo(n): return n*2" = "".
Proof.
  apply (extractCodeBlocks_single_line "func foo(n): return n*2"); reflexivity.
Defined.

Section WithJSON.

Variable JSON_parse : string -> Throws JsVal.

(** X25. A response without an opening brace has no JSON object: for
    every [JSON.parse], [extractJSONFromResponse] answers [null] without
    consulting it, and the interpretation is the one built from the raw
    text. *)
Theorem extractJSONFromResponse_needs_brace (text : string) :
  Js.indexOf text "{" = None ->
  Interpreter.extractJSONFromResponse JSON_parse text = inr None /\
  Interpreter.interpret JSON_parse text = Interpreter.fromRawText JSON_parse text.
Proof.
  intros Hn.
  assert (H : Interpreter.extractJSONFromResponse JSON_parse text = inr None).
  { unfold Interpreter.extractJSONFromResponse, Interpreter.jsonObjectRegex. cbn [SeqL].
    rewrite (RegExpFacts.match_Seq_none noFlags); [ reflexivity | ].
    now apply (test_Lit_absent noFlags text "{"). }
  split; [ exact H | ]. unfold Interpreter.interpret. now rewrite H.
Qed.

(** X26. The object built from raw text always has a title that is not
    empty (the extracted one, or else [Code Analysis]), a description, a
    code and a function signature that are strings, and the response itself
    under [original_problem]. *)
Theorem fromRawText_shape (responseText : string) :
  exists v title description code signature,
    Interpreter.fromRawText JSON_parse responseText = inr v /\
    field v "title" = Some (JStr title) /\ title <> "" /\
    (Interpreter.extractTitle responseText = None -> title = "Code Analysis") /\
    field v "description" = Some (JStr description) /\
    field v "code" = Some (JStr code) /\
    code = Interpreter.extractCodeBlocks responseText /\
    field v "function_signature" = Some (JStr signature) /\
    field v "original_problem" = Some (JStr responseText) /\
    (exists examples, field v "examples" = Some examples) /\
    (exists constraints, field v "constraints" = Some constraints).
Proof.
  unfold Interpreter.fromRawText.
  destruct (InterpreterFacts.extractExamples_total JSON_parse responseText) as [ex ->].
  destruct (InterpreterFacts.extractList_total JSON_parse responseText "constraints")
    as [cs ->].
  cbn [tbind]. do 5 eexists. split; [ reflexivity | ].
  unfold object, field. cbn [fold_left fst snd].
  repeat split;
    try (rewrite ?lookup_insert_ne by discriminate; apply lookup_insert_eq).
  - now apply JsFacts.orElse_nonempty.
  - intros ->. reflexivity.
  - unfold Js.orElse. destruct (Js.truthy _) eqn:E; [ reflexivity | ].
    destruct (Interpreter.extractCodeBlocks responseText); [ reflexivity | discriminate ].
  - eexists. rewrite ?lookup_insert_ne by discriminate. apply lookup_insert_eq.
  - eexists. rewrite ?lookup_insert_ne by discriminate. apply lookup_insert_eq.
Qed.

End WithJSON.

Lemma extractJSONFromResponse_needs_brace_witness :
  Interpreter.extractJSONFromResponse Scenario.parse "Given n, return twice n." = inr None /\
  Interpreter.interpret Scenario.parse "Given n, return twice n."
    = Interpreter.fromRawText Scenario.parse "Given n, return twice n.".
Proof.
  apply (extractJSONFromResponse_needs_brace Scenario.parse "Given n, return twice n.").
  reflexivity.
Defined.

(** X27. When no title label occurs in the text, the title is looked for
    in the first three lines: the answer, if there is one, is one of these
    lines, trimmed, and it has more than 10 and fewer than 100 characters. *)
Theorem extractTitle_from_first_lines (text title : string) :
  test flag_i titleLabels text = false ->
  Interpreter.extractTitle text = Some title ->
  In title (map Js.trim (firstn 3 (Js.split text nl))) /\
  10 < String.length title < 100.
Proof.
  intros Hn. unfold Interpreter.extractTitle, Interpreter.titleRegex. cbn [SeqL].
  rewrite (RegExpFacts.match_Seq_none flag_i) by exact Hn.
  unfold Interpreter.headerLine. intros H. apply find_some in H. destruct H as [Hin Hp].
  split; [ exact Hin | ].
  apply andb_prop in Hp. destruct Hp as [Hp H10]. apply andb_prop in Hp.
  destruct Hp as [_ H100]. apply Nat.ltb_lt in H10, H100. lia.
Qed.

Lemma extractTitle_from_first_lines_witness :
  In "Return twice the argument." (map Js.trim (firstn 3 (Js.split
       ("  Return twice the argument.  " +:+ nl +:+ "n is an integer") nl))) /\
  10 < String.length "Return twice the argument." < 100.
Proof.
  apply (extractTitle_from_first_lines
           ("  Return twice the argument.  " +:+ nl +:+ "n is an integer")
           "Return twice the argument."); vm_compute; reflexivity.
Defined.

(** X28. The solution stored by the renderer never has an empty
    complexity, even when a complexity label is followed by nothing, and
    its code is empty only when the solution text is. *)
Theorem parseSolution_fields_not_empty (solutionText : string) :
  exists d,
    Solutions.parseSolution solutionText = inr d /\
    Solutions.time_complexity d <> "" /\
    Solutions.space_complexity d <> "" /\
    (solutionText <> "" -> Solutions.code d <> "").
Proof.
  destruct (SolutionFacts.preCode_total solutionText) as [prose Hprose].
  unfold Solutions.parseSolution. rewrite Hprose. cbn [tbind].
  eexists. split; [ reflexivity | ].
  cbn [Solutions.code Solutions.time_complexity Solutions.space_complexity].
  split; [ apply JsFacts.orElse_nonempty; discriminate | ].
  split; [ apply JsFacts.orElse_nonempty; discriminate | ].
  intros Hne. now apply JsFacts.orElse_nonempty.
Qed.

End TextFacts.

